(** * A shallow embedding of the music-to-MIDI core

    The development follows the Python sources module by module:

    - [Py]: the fragment of Python's semantics the sources rely on
      (exceptions, [print], stable [list.sort] with a key, string slicing,
      [int()] on a number, dict literals);
    - [Note], [Chord], [Rest], [Track], [Composition]: the timeline model
      of music_elements.py, track.py and composition.py;
    - [Mido], [MidiExporter]: midi_exporter.py, the scheduler in front of
      the mido library;
    - [ModularChordGenerator], [GenerativeMusicCreator],
      [RandomMelodyGenerator], [PolyrhythmHarmonyGenerator],
      [PolyrhythmMelodyGenerator]: the theory helpers of the generator
      scripts, with [Float64] for Python floats;
    - [DrumPatterns]: drum_patterns.py, which builds a track from a
      pattern dict.

    Beat values ([start_time], [duration]) come in two models. The
    modules [Note] to [MidiExporter] and [DrumPatterns] take them as exact
    numbers (Python's int and Fraction), on which every sum, product and
    comparison of the sources is exact and [int()] cannot fail.
    [Binary64] has the same classes and the same loop of the exporter for
    Python floats, with NaN, the infinities and rounded operations; what
    is said about tick values, about the order of start times and about
    what the scheduler raises is said there. The polyrhythm onsets are
    floats throughout. *)

From Stdlib Require Import ZArith QArith Qround String Ascii List Lia.
From Stdlib Require Import Sorting.Sorted Sorting.Permutation.
From Stdlib Require Import Floats.SpecFloat.
From stdpp Require Import gmap strings list fin_maps pretty.

Local Open Scope string_scope.
Local Open Scope Z_scope.

(* ===================================================================== *)
(** ** Python fragment                                                    *)
(* ===================================================================== *)

Module Py.

(** Operators whose operand types can be rejected at run time. *)
Inductive py_op := OpMul | OpLt.

(** The exceptions the modelled code can raise or observe. *)
Inductive exn :=
| TypeError (op : py_op)
| ValueError (msg : string)
| KeyError (key : string)
| IndexError
| OverflowError
| ZeroDivisionError
| OSError (msg : string).

(** [str(e)] as used by the f-strings of the sources. *)
Definition exn_str (e : exn) : string :=
  match e with
  | TypeError OpMul => "unsupported operand type(s) for *"
  | TypeError OpLt => "'<' not supported"
  | ValueError m => m
  | KeyError k => "'" ++ k ++ "'"
  | IndexError => "string index out of range"
  | OverflowError => "int too large to convert to float"
  | ZeroDivisionError => "float division by zero"
  | OSError m => m
  end.

Inductive result (A : Type) :=
| Ok (a : A)
| Raise (e : exn).
Arguments Ok {A} a.
Arguments Raise {A} e.

Definition rbind {A B} (r : result A) (k : A -> result B) : result B :=
  match r with
  | Ok a => k a
  | Raise e => Raise e
  end.

(** Code that also prints: standard output is a list of lines, threaded
    through; an exception keeps what was printed before it. *)
Definition io (A : Type) := list string -> result A * list string.

Definition ret {A} (a : A) : io A := fun out => (Ok a, out).
Definition raise {A} (e : exn) : io A := fun out => (Raise e, out).
Definition print (line : string) : io unit := fun out => (Ok tt, (out ++ [line])%list).
Definition bind {A B} (m : io A) (k : A -> io B) : io B :=
  fun out =>
    match m out with
    | (Ok a, out') => k a out'
    | (Raise e, out') => (Raise e, out')
    end.
Definition lift {A} (r : result A) : io A := fun out => (r, out).

#[export] Instance result_ret : MRet result := fun A a => Ok a.
#[export] Instance result_bind : MBind result := fun A B k r => rbind r k.
#[export] Instance io_ret : MRet io := fun A a => ret a.
#[export] Instance io_bind : MBind io := fun A B k m => bind m k.

(** [try: body except Exception as e: handler(e)] *)
Definition try_except {A} (body : io A) (handler : exn -> io A) : io A :=
  fun out =>
    match body out with
    | (Ok a, out') => (Ok a, out')
    | (Raise e, out') => handler e out'
    end.

(** Run a computation on an empty standard output. *)
Definition run {A} (m : io A) : result A * list string := m [].

(** *** Strings *)

(** [s[i]] for [i >= 0]. *)
Definition index (s : string) (i : nat) : result ascii :=
  match String.get i s with
  | Some c => Ok c
  | None => Raise IndexError
  end.

(** [s[i:j]] for [0 <= i <= j]; slices clip, they never raise. *)
Definition slice (s : string) (i j : nat) : string :=
  String.substring i (j - i) s.

(** [s[i:]] *)
Definition slice_from (s : string) (i : nat) : string :=
  String.substring i (String.length s - i) s.

Definition map_string (f : ascii -> ascii) : string -> string :=
  fix go s :=
    match s with
    | EmptyString => EmptyString
    | String c s' => String (f c) (go s')
    end.

Definition ascii_between (lo hi c : ascii) : bool :=
  (nat_of_ascii lo <=? nat_of_ascii c)%nat && (nat_of_ascii c <=? nat_of_ascii hi)%nat.

Definition upper_ascii (c : ascii) : ascii :=
  if ascii_between "a" "z" c then ascii_of_nat (nat_of_ascii c - 32) else c.
Definition lower_ascii (c : ascii) : ascii :=
  if ascii_between "A" "Z" c then ascii_of_nat (nat_of_ascii c + 32) else c.

(** [s.upper()] and [s.lower()] on ASCII text. *)
Definition upper : string -> string := map_string upper_ascii.
Definition lower : string -> string := map_string lower_ascii.

(** [s.endswith(suffix)] *)
Definition endswith (s suffix : string) : bool :=
  let n := String.length s in
  let k := String.length suffix in
  (k <=? n)%nat && String.eqb (String.substring (n - k) k s) suffix.

(** *** Dict literals: a later entry for the same key wins. *)
Definition dict {V} (entries : list (string * V)) : gmap string V :=
  fold_left (fun m kv => <[kv.1 := kv.2]> m) entries ∅.

(** [d[k]] *)
Definition getitem {V} (d : gmap string V) (k : string) : result V :=
  match d !! k with
  | Some v => Ok v
  | None => Raise (KeyError k)
  end.

(** [k in d] *)
Definition contains {V} (d : gmap string V) (k : string) : bool :=
  match d !! k with
  | Some _ => true
  | None => false
  end.

(** [range(lo, hi)] over the integers. *)
Definition range (lo hi : Z) : list Z :=
  map (fun i => lo + Z.of_nat i) (seq 0 (Z.to_nat (hi - lo))).

(** *** Numbers *)

(** [int(x)] on a finite number: truncation toward zero. *)
Definition int (x : Q) : Z := Z.quot (Qnum x) (Zpos (Qden x)).

(** [round(x)] on a finite number: nearest integer, ties to the even one. *)
Definition round (x : Q) : Z :=
  let f := Qfloor x in
  let r := (x - inject_Z f)%Q in
  match (r ?= 1 # 2)%Q with
  | Lt => f
  | Gt => f + 1
  | Eq => if Z.even f then f else f + 1
  end.

(** *** [list.sort(key=...)] and [sorted]

    Python sorts stably and compares keys with [<] only. The comparison
    may raise (for instance on [None]); the sort then raises as well.
    Insertion from the left, each element placed behind every element
    that is not greater, is the stable order; for two or more elements
    every element takes part in a comparison, as in Python. *)
Section Sort.
Context {A : Type} (lt : A -> A -> result bool).

Fixpoint insert_sorted (x : A) (l : list A) : result (list A) :=
  match l with
  | [] => Ok [x]
  | y :: l' =>
      b ← lt x y;
      if b : bool then Ok (x :: y :: l')
      else r ← insert_sorted x l'; Ok (y :: r)
  end.

Definition sort (l : list A) : result (list A) :=
  fold_left (fun acc x => sorted_prefix ← acc; insert_sorted x sorted_prefix) l (Ok []).
End Sort.

(** The same sort for keys whose comparison cannot raise. *)
Section SortTotal.
Context {A : Type} (ltb : A -> A -> bool).

Fixpoint insert_by (x : A) (l : list A) : list A :=
  match l with
  | [] => [x]
  | y :: l' => if ltb x y then x :: y :: l' else y :: insert_by x l'
  end.

Definition sorted_by (l : list A) : list A :=
  fold_left (fun acc x => insert_by x acc) l [].
End SortTotal.

(** [a < b] on numbers. *)
Definition Qltb (a b : Q) : bool := negb (Qle_bool b a).

(** [a < b] where either side may be [None]. *)
Definition lt_opt (a b : option Q) : result bool :=
  match a, b with
  | Some x, Some y => Ok (Qltb x y)
  | _, _ => Raise (TypeError OpLt)
  end.

(** [(a0, a1) < (b0, b1)] on tuples of integers. *)
Definition lt_pair (a b : Z * Z) : bool :=
  (a.1 <? b.1) || ((a.1 =? b.1) && (a.2 <? b.2)).

(** [l[i]] on a list: a negative index counts from the end. *)
Definition list_getitem {A} (l : list A) (i : Z) : result A :=
  let j := if i <? 0 then i + Z.of_nat (length l) else i in
  if j <? 0 then Raise IndexError
  else match nth_error l (Z.to_nat j) with
       | Some x => Ok x
       | None => Raise IndexError
       end.

(** A loop that builds a list and whose body may raise. *)
Fixpoint for_list {A B} (body : A -> result B) (l : list A) : result (list B) :=
  match l with
  | [] => Ok []
  | x :: l' => y ← body x; ys ← for_list body l'; Ok (y :: ys)
  end.

End Py.

Import Py.

(* ===================================================================== *)
(** ** music_elements.py                                                  *)
(* ===================================================================== *)

Module Note.
Record t := mk { pitch : Z; start_time : Q; duration : Q; velocity : Z }.

(** [Note.__init__]: the four range checks, in the order of the source. *)
Definition init (pitch : Z) (start_time duration : Q) (velocity : Z) : result t :=
  if negb ((0 <=? pitch) && (pitch <=? 127)) then
    Raise (ValueError "Pitch must be between 0 and 127.")
  else if negb ((0 <=? velocity) && (velocity <=? 127)) then
    Raise (ValueError "Velocity must be between 0 and 127.")
  else if Qle_bool duration 0 then
    Raise (ValueError "Duration must be positive.")
  else if Qltb start_time 0 then
    Raise (ValueError "Start time cannot be negative.")
  else Ok (mk pitch start_time duration velocity).

Definition transpose (n : t) (semitones : Z) : t :=
  mk (Z.max 0 (Z.min 127 (pitch n + semitones))) (start_time n) (duration n) (velocity n).

Definition end_time (n : t) : Q := (start_time n + duration n)%Q.
End Note.

Module Chord.
Record t := mk { notes : list Note.t }.

Definition by_pitch (a b : Note.t) : bool := Note.pitch a <? Note.pitch b.

(** [Chord.__init__]: the notes are stored sorted by pitch. *)
Definition init (notes : list Note.t) : t := mk (sorted_by by_pitch notes).

Definition add_note (c : t) (note : Note.t) : t :=
  mk (sorted_by by_pitch (notes c ++ [note])%list).

(** [add_pitches]: a pitch the [Note] constructor refuses stops the loop;
    the notes added before it stay in the chord. *)
Fixpoint add_pitches (c : t) (pitches : list Z) (start_time duration : Q)
    (velocity : Z) : t * result unit :=
  match pitches with
  | [] => (c, Ok tt)
  | pitch :: rest =>
      match Note.init pitch start_time duration velocity with
      | Ok note => add_pitches (add_note c note) rest start_time duration velocity
      | Raise e => (c, Raise e)
      end
  end.

(** The properties [start_time] and [duration]: those of the first stored
    note, [None] for a chord without notes. *)
Definition start_time (c : t) : option Q :=
  match notes c with
  | [] => None
  | n :: _ => Some (Note.start_time n)
  end.

Definition duration (c : t) : option Q :=
  match notes c with
  | [] => None
  | n :: _ => Some (Note.duration n)
  end.

Definition transpose (c : t) (semitones : Z) : t :=
  mk (map (fun n => Note.transpose n semitones) (notes c)).
End Chord.

Module Rest.
Record t := mk { start_time : Q; duration : Q }.

Definition init (start_time duration : Q) : result t :=
  if Qle_bool duration 0 then Raise (ValueError "Duration must be positive.")
  else if Qltb start_time 0 then Raise (ValueError "Start time cannot be negative.")
  else Ok (mk start_time duration).

Definition end_time (r : t) : Q := (start_time r + duration r)%Q.
End Rest.

(** What a track holds: [Note | Chord | Rest]. *)
Inductive element :=
| ENote (n : Note.t)
| EChord (c : Chord.t)
| ERest (r : Rest.t).

(** The attribute [x.start_time] of an element. *)
Definition element_start_time (x : element) : option Q :=
  match x with
  | ENote n => Some (Note.start_time n)
  | EChord c => Chord.start_time c
  | ERest r => Some (Rest.start_time r)
  end.

(* ===================================================================== *)
(** ** track.py                                                           *)
(* ===================================================================== *)

Module Track.
Record t := mk {
  name : string;
  instrument_program : Z;
  channel : Z;
  elements : list element;
  pan : Z;
  volume : Z
}.

Definition in_range (lo hi x : Z) : bool := (lo <=? x) && (x <=? hi).

Definition init (name : string) (instrument_program channel pan volume : Z) : result t :=
  if negb (in_range 0 127 instrument_program) then
    Raise (ValueError "Instrument program must be between 0 and 127.")
  else if negb (in_range 0 15 channel) then
    Raise (ValueError "MIDI channel must be between 0 and 15.")
  else if negb (in_range 0 127 pan) then
    Raise (ValueError "Pan must be between 0 and 127.")
  else if negb (in_range 0 127 volume) then
    Raise (ValueError "Volume must be between 0 and 127.")
  else Ok (mk name instrument_program channel [] pan volume).

Definition with_elements (tr : t) (els : list element) : t :=
  mk (name tr) (instrument_program tr) (channel tr) els (pan tr) (volume tr).

(** The comparison [list.sort(key=lambda x: x.start_time)] performs. *)
Definition by_start_time (a b : element) : result bool :=
  lt_opt (element_start_time a) (element_start_time b).

(** [Track.add_element]: append, then sort the whole list by start time.
    The append happens first, so the element stays in the list when the
    sort raises; the order a failed sort leaves behind is taken to be the
    appended one. *)
Definition add_element (tr : t) (e : element) : t * result unit :=
  let appended := (elements tr ++ [e])%list in
  match sort by_start_time appended with
  | Ok sorted => (with_elements tr sorted, Ok tt)
  | Raise ex => (with_elements tr appended, Raise ex)
  end.

(** [Track.add_notes]: stops at the first failing insertion. *)
Fixpoint add_notes (tr : t) (notes : list Note.t) : t * result unit :=
  match notes with
  | [] => (tr, Ok tt)
  | n :: rest =>
      match add_element tr (ENote n) with
      | (tr', Ok _) => add_notes tr' rest
      | (tr', Raise ex) => (tr', Raise ex)
      end
  end.

(** A run of insertions, with the track after each call. *)
Fixpoint add_all (tr : t) (es : list element) : list (t * result unit) :=
  match es with
  | [] => []
  | e :: rest =>
      let r := add_element tr e in
      r :: add_all r.1 rest
  end.
End Track.

(* ===================================================================== *)
(** ** composition.py                                                     *)
(* ===================================================================== *)

Module Composition.
Record t := mk {
  title : string;
  tracks : list Track.t;
  tempo : Z;
  time_signature : Z * Z
}.

Definition init (title : string) (tempo : Z) (time_signature : Z * Z) : result t :=
  if tempo <=? 0 then Raise (ValueError "Tempo must be positive.")
  else if negb ((0 <? time_signature.1) && (0 <? time_signature.2)) then
    Raise (ValueError "Time signature must be a tuple of two positive integers (e.g., (4, 4)).")
  else Ok (mk title [] tempo time_signature).

End Composition.

(* ===================================================================== *)
(** ** midi_exporter.py                                                   *)
(* ===================================================================== *)

Module Mido.
(** mido's messages, with the fields the exporter sets. *)
Inductive message :=
| track_name (name : string) (time : Z)
| set_tempo (tempo : Z) (time : Z)
| time_signature (numerator denominator clocks_per_click
                  notated_32nd_notes_per_beat : Z) (time : Z)
| end_of_track (time : Z)
| program_change (program channel : Z) (time : Z)
| control_change (control value channel : Z) (time : Z)
| note_on (note velocity channel : Z) (time : Z)
| note_off (note velocity channel : Z) (time : Z).

(** [msg.type == 'note_off'] *)
Definition is_note_off (m : message) : bool :=
  match m with
  | note_off _ _ _ _ => true
  | _ => false
  end.

(** [msg.time = t] *)
Definition set_time (m : message) (t : Z) : message :=
  match m with
  | track_name n _ => track_name n t
  | set_tempo x _ => set_tempo x t
  | time_signature a b c d _ => time_signature a b c d t
  | end_of_track _ => end_of_track t
  | program_change p c _ => program_change p c t
  | control_change k v c _ => control_change k v c t
  | note_on n v c _ => note_on n v c t
  | note_off n v c _ => note_off n v c t
  end.

Definition time (m : message) : Z :=
  match m with
  | track_name _ t | set_tempo _ t | time_signature _ _ _ _ t | end_of_track t
  | program_change _ _ t | control_change _ _ _ t | note_on _ _ _ t
  | note_off _ _ _ t => t
  end.

Record MidiFile := mkfile {
  file_ticks_per_beat : Z;
  file_type : Z;
  file_tracks : list (list message)
}.

(** The two library entry points the exporter calls and whose results it
    does not control: the tempo conversion and the write to disk. *)
Class Lib := {
  bpm2tempo : Z -> Z;
  save : MidiFile -> string -> result unit
}.
End Mido.

Module MidiExporter.
Import Mido.

Record t := mk { ticks_per_beat : Z }.

(** An event of the scheduler: [(absolute_tick_time, mido_message)]. *)
Definition event : Type := Z * message.

(** [x * ticks_per_beat] where [x] is an attribute that may be [None]. *)
Definition mul_ticks (x : option Q) (ticks_per_beat : Z) : result Q :=
  match x with
  | Some q => Ok (q * inject_Z ticks_per_beat)%Q
  | None => Raise (TypeError OpMul)
  end.

(** The sort key [(x[0], 0 if x[1].type == 'note_off' else 1)]. *)
Definition sort_key (x : event) : Z * Z :=
  (x.1, if is_note_off x.2 then 0 else 1).

Definition event_lt (a b : event) : bool := lt_pair (sort_key a) (sort_key b).

Section Exporter.
Context `{Lib}.
Variable self : t.

(** The loop over [track_obj.elements], lines 55-80: [events] grows by
    two entries per note. The start tick is computed for every element
    before its class is looked at. *)
Fixpoint collect_events (track_obj : Track.t) (elements : list element)
    (events : list event) : io (list event) :=
  match elements with
  | [] => mret events
  | element :: rest =>
      product ← lift (mul_ticks (element_start_time element)
                                (ticks_per_beat self));
      let start_ticks := int product in
      match element with
      | ENote n =>
          let end_ticks :=
            int ((Note.start_time n + Note.duration n)
                 * inject_Z (ticks_per_beat self))%Q in
          collect_events track_obj rest
            (events ++ [(start_ticks,
                         note_on (Note.pitch n) (Note.velocity n)
                                 (Track.channel track_obj) 0);
                        (end_ticks,
                         note_off (Note.pitch n) 0
                                  (Track.channel track_obj) 0)])%list
      | EChord c =>
          match Chord.start_time c, Chord.duration c with
          | Some chord_start_time, Some chord_duration =>
              let chord_start_ticks :=
                int (chord_start_time * inject_Z (ticks_per_beat self))%Q in
              let chord_end_ticks :=
                int ((chord_start_time + chord_duration)
                     * inject_Z (ticks_per_beat self))%Q in
              collect_events track_obj rest
                (events ++
                 flat_map
                   (fun note_in_chord =>
                      [(chord_start_ticks,
                        note_on (Note.pitch note_in_chord)
                                (Note.velocity note_in_chord)
                                (Track.channel track_obj) 0);
                       (chord_end_ticks,
                        note_off (Note.pitch note_in_chord) 0
                                 (Track.channel track_obj) 0)])
                   (Chord.notes c))%list
          | _, _ =>
              (* only a chord without notes gets here; its repr is fixed *)
              print ("Warning: Chord Chord(notes=[]) in track '"
                     ++ Track.name track_obj
                     ++ "' has no notes or calculable start/duration. Skipping.");;
              collect_events track_obj rest events
          end
      | ERest _ => collect_events track_obj rest events
      end
  end.

(** Lines 86-91: absolute ticks to delta times. *)
Fixpoint to_delta (last_tick_time : Z) (events : list event) : list message :=
  match events with
  | [] => []
  | (abs_time, msg) :: rest =>
      set_time msg (abs_time - last_tick_time) :: to_delta abs_time rest
  end.

(** The sorted event stream of a track, line 83. *)
Definition schedule (track_obj : Track.t) : io (list event) :=
  events ← collect_events track_obj (Track.elements track_obj) [];
  mret (sorted_by event_lt events).

(** One iteration of the loop over [composition.tracks], lines 43-102. *)
Definition export_track (track_obj : Track.t) : io (list message) :=
  let setup :=
    [track_name (Track.name track_obj) 0;
     program_change (Track.instrument_program track_obj)
                    (Track.channel track_obj) 0;
     control_change 10 (Track.pan track_obj) (Track.channel track_obj) 0;
     control_change 7 (Track.volume track_obj) (Track.channel track_obj) 0] in
  events ← schedule track_obj;
  let body := to_delta 0 events in
  let eot :=
    match events with
    | [] => end_of_track 1
    | _ => end_of_track 0
    end in
  mret (setup ++ body ++ [eot])%list.

Fixpoint export_tracks (tracks : list Track.t) : io (list (list message)) :=
  match tracks with
  | [] => mret []
  | track_obj :: rest =>
      mido_track ← export_track track_obj;
      others ← export_tracks rest;
      mret (mido_track :: others)
  end.

(** [MidiExporter.export]. The two [isinstance] checks hold by typing. *)
Definition export (composition : Composition.t) (output_filepath : string)
    : io unit :=
  output_filepath ←
    (if negb (endswith (lower output_filepath) ".mid") then
       print ("Warning: Output filepath '" ++ output_filepath
              ++ "' does not end with .mid. Appending .mid.");;
       mret (output_filepath ++ ".mid")
     else mret output_filepath);
  let meta_track :=
    [track_name (Composition.title composition) 0;
     set_tempo (bpm2tempo (Composition.tempo composition)) 0;
     time_signature (Composition.time_signature composition).1
                    (Composition.time_signature composition).2 24 8 0] in
  tracks ← export_tracks (Composition.tracks composition);
  let midi_file := mkfile (ticks_per_beat self) 1 (meta_track :: tracks) in
  try_except
    (lift (save midi_file output_filepath);;
     print ("MIDI file saved to " ++ output_filepath))
    (fun e => print ("Error saving MIDI file: " ++ exn_str e)).
End Exporter.
End MidiExporter.

(* ===================================================================== *)
(** ** modular_chord_generator.py                                         *)
(* ===================================================================== *)

Module ModularChordGenerator.

Definition PITCH_MAP : gmap string Z :=
  dict [("C", 0); ("C#", 1); ("Db", 1); ("D", 2); ("D#", 3); ("Eb", 3);
        ("E", 4); ("F", 5); ("F#", 6); ("Gb", 6); ("G", 7); ("G#", 8);
        ("Ab", 8); ("A", 9); ("A#", 10); ("Bb", 10); ("B", 11)].

Definition CHORD_VOICINGS : gmap string (list Z) :=
  dict [("maj", [0; 4; 7]);
        ("min", [0; 3; 7]);
        ("dim", [0; 3; 6]);
        ("aug", [0; 4; 8]);
        ("maj(aug)", [0; 4; 8]);
        ("sus2", [0; 2; 7]);
        ("sus4", [0; 5; 7]);
        ("maj7", [0; 4; 7; 11]);
        ("dom7", [0; 4; 7; 10]);
        ("min7", [0; 3; 7; 10]);
        ("dim7", [0; 3; 6; 9]);
        ("m7b5", [0; 3; 6; 10]);
        ("min(maj7)", [0; 3; 7; 11]);
        ("add9", [0; 4; 7; 14]);
        ("min(add9)", [0; 3; 7; 14]);
        ("maj9", [0; 4; 7; 11; 14]);
        ("min9", [0; 3; 7; 10; 14]);
        ("dom9", [0; 4; 7; 10; 14]);
        ("dom13", [0; 4; 7; 10; 14; 21]);
        ("maj13", [0; 4; 7; 11; 14; 21]);
        ("min11", [0; 3; 7; 10; 14; 17]);
        ("dom7#9", [0; 4; 7; 10; 15]);
        ("dom7b9", [0; 4; 7; 10; 13]);
        ("maj7#11", [0; 4; 7; 11; 18]);
        ("min13", [0; 3; 7; 10; 14; 21])].

(** Step 1 of [get_chord_pitches]: split the symbol into root name and
    quality string. *)
Definition parse_root (chord_symbol : string) : result (string * string) :=
  if (1 <? String.length chord_symbol)%nat
     && (match String.get 1 chord_symbol with
         | Some c => Ascii.eqb c "#" || Ascii.eqb c "b"
         | None => false
         end)
  then Ok (slice chord_symbol 0 2, slice_from chord_symbol 2)
  else
    c ← index chord_symbol 0;
    Ok (String c EmptyString, slice_from chord_symbol 1).

(** Step 2: [for length in range(len(quality_str), 0, -1)], the first
    prefix that is a key of [CHORD_VOICINGS]. *)
Fixpoint find_quality (quality_str : string) (length : nat) : option string :=
  match length with
  | O => None
  | S shorter =>
      if contains CHORD_VOICINGS (slice quality_str 0 length)
      then Some (slice quality_str 0 length)
      else find_quality quality_str shorter
  end.

(** One pass of the inversion loop: the lowest note moves up an octave. *)
Definition invert_once (pitches : list Z) : list Z :=
  match pitches with
  | [] => []
  | bass_note :: upper_notes => (upper_notes ++ [bass_note + 12])%list
  end.

Definition get_chord_pitches (chord_symbol : string)
    (base_octave octave_offset inversion : Z) : io (list Z) :=
  '(root_name, quality_str) ← lift (parse_root chord_symbol);
  (if contains PITCH_MAP root_name then mret tt
   else raise (ValueError ("Root note '" ++ root_name ++ "' not in PITCH_MAP.")));;
  quality ←
    match find_quality quality_str (String.length quality_str) with
    | Some q => mret q
    | None =>
        print ("Warning: Quality '" ++ quality_str
               ++ "' not in CHORD_VOICINGS. Using 'maj'.");;
        mret "maj"
    end;
  root ← lift (getitem PITCH_MAP root_name);
  let root_pitch := root + (base_octave + octave_offset) * 12 in
  intervals ← lift (getitem CHORD_VOICINGS quality);
  let pitches := map (fun i => root_pitch + i) intervals in
  mret (Nat.iter (Z.to_nat inversion) invert_once pitches).

(** [midi_to_note_name], the module's own reading of octave numbers:
    the octave of a pitch is [pitch // 12 - 1], so 60 is in octave 4. *)
Definition midi_octave (pitch : Z) : Z := pitch / 12 - 1.

Definition NOTE_NAMES : list string :=
  ["C"; "C#"; "D"; "D#"; "E"; "F"; "F#"; "G"; "G#"; "A"; "A#"; "B"].

Definition SCALES : gmap string (list Z) :=
  dict [("major", [0; 2; 4; 5; 7; 9; 11]);
        ("minor_natural", [0; 2; 3; 5; 7; 8; 10]);
        ("minor_harmonic", [0; 2; 3; 5; 7; 8; 11])].

Definition DIATONIC_QUALITIES : gmap string (list string) :=
  dict [("major", ["maj"; "min"; "min"; "maj"; "dom7"; "min"; "dim"]);
        ("minor_natural", ["min"; "dim"; "maj"; "min"; "min"; "maj"; "maj"]);
        ("minor_harmonic", ["min"; "dim"; "maj(aug)"; "min"; "dom7"; "maj"; "dim"])].

(** [midi_to_note_name]: the note name and octave of a MIDI pitch, "N/A"
    outside 0..127. *)
Definition midi_to_note_name (pitch : Z) : result string :=
  if negb ((0 <=? pitch) && (pitch <=? 127)) then Ok "N/A"
  else
    let octave := pitch / 12 - 1 in
    let note_index := pitch mod 12 in
    note ← list_getitem NOTE_NAMES note_index;
    Ok (note ++ pretty octave).

(** [get_diatonic_chords]: the seven chord symbols of a key. *)
Definition get_diatonic_chords (root_name scale_type : string)
    : result (list string) :=
  (if negb (contains SCALES scale_type)
      || negb (contains DIATONIC_QUALITIES scale_type)
   then Raise (ValueError ("Scale type '" ++ scale_type ++ "' not defined."))
   else Ok tt);;
  root_val ← getitem PITCH_MAP (upper root_name);
  intervals ← getitem SCALES scale_type;
  qualities ← getitem DIATONIC_QUALITIES scale_type;
  for_list
    (fun i =>
       interval ← list_getitem intervals i;
       let note_val := (root_val + interval) mod 12 in
       note_name ← list_getitem NOTE_NAMES note_val;
       quality ← list_getitem qualities i;
       Ok (note_name ++ quality))
    (range 0 7).

End ModularChordGenerator.

(* ===================================================================== *)
(** ** generative_music_creator.py                                        *)
(* ===================================================================== *)

Module GenerativeMusicCreator.

Definition PITCH_MAP : gmap string Z :=
  dict [("C", 0); ("C#", 1); ("Db", 1); ("D", 2); ("D#", 3); ("Eb", 3);
        ("E", 4); ("F", 5); ("F#", 6); ("Gb", 6); ("G", 7); ("G#", 8);
        ("Ab", 8); ("A", 9); ("A#", 10); ("Bb", 10); ("B", 11)].

Definition SCALES : gmap string (list Z) :=
  dict [("major", [0; 2; 4; 5; 7; 9; 11]);
        ("minor_natural", [0; 2; 3; 5; 7; 8; 10]);
        ("minor_harmonic", [0; 2; 3; 5; 7; 8; 11]);
        ("pentatonic_major", [0; 2; 4; 7; 9]);
        ("blues", [0; 3; 5; 6; 7; 10])].

(** The two nested loops: one pitch per octave and interval. *)
Definition scale_pitches (root_midi : Z) (intervals : list Z)
    (octave_range : Z * Z) : list Z :=
  flat_map
    (fun octave => map (fun interval => root_midi + octave * 12 + interval) intervals)
    (range octave_range.1 (octave_range.2 + 1)).

(** [sorted(list(set(xs)))] *)
Definition sorted_set (xs : list Z) : list Z :=
  sorted_by Z.ltb (elements (list_to_set xs : gset Z)).

Definition get_scale_notes (root_note_name scale_type : string)
    (octave_range : Z * Z) : result (list Z) :=
  root_midi ← getitem PITCH_MAP (upper root_note_name);
  intervals ← getitem SCALES scale_type;
  Ok (sorted_set (scale_pitches root_midi intervals octave_range)).

End GenerativeMusicCreator.

(** random_melody_generator.py (copied into polyrhythm_melody_generator.py):
    the sibling of [get_scale_notes] that keeps only MIDI pitches. *)
Module RandomMelodyGenerator.

Definition PITCH_MAP : gmap string Z :=
  dict [("C", 0); ("C#", 1); ("Db", 1); ("D", 2); ("D#", 3); ("Eb", 3);
        ("E", 4); ("F", 5); ("F#", 6); ("Gb", 6); ("G", 7); ("G#", 8);
        ("Ab", 8); ("A", 9); ("A#", 10); ("Bb", 10); ("B", 11)].

Definition SCALES : gmap string (list Z) :=
  dict [("major", [0; 2; 4; 5; 7; 9; 11]);
        ("minor_natural", [0; 2; 3; 5; 7; 8; 10]);
        ("minor_harmonic", [0; 2; 3; 5; 7; 8; 11]);
        ("pentatonic_major", [0; 2; 4; 7; 9]);
        ("pentatonic_minor", [0; 3; 5; 7; 10])].

Definition valid_midi (pitch : Z) : bool := (0 <=? pitch) && (pitch <=? 127).

Definition get_scale_notes (root_note_name scale_type : string)
    (min_octave max_octave : Z) : result (list Z) :=
  (if contains SCALES scale_type then Ok tt
   else Raise (ValueError ("Scale type '" ++ scale_type ++ "' not defined.")));;
  root_midi ← getitem PITCH_MAP (upper root_note_name);
  intervals ← getitem SCALES scale_type;
  Ok (GenerativeMusicCreator.sorted_set
        (List.filter valid_midi
           (GenerativeMusicCreator.scale_pitches root_midi intervals
              (min_octave, max_octave)))).

End RandomMelodyGenerator.

(* ===================================================================== *)
(** ** Python floats                                                      *)
(* ===================================================================== *)

(** IEEE 754 binary64 through the Standard Library's [SpecFloat]: every
    operation is the exact result rounded once, to nearest, ties to even. *)
Module Float64.
Definition prec : Z := 53.
Definition emax : Z := 1024.
Definition t : Type := spec_float.

(** [float(i)] for an integer [i]. *)
Definition of_int (i : Z) : result t :=
  match binary_normalize prec emax i 0 false with
  | S754_infinity _ => Raise OverflowError
  | x => Ok x
  end.

Definition is_zero (x : t) : bool :=
  match x with
  | S754_zero _ => true
  | _ => false
  end.

(** [x * y] and [x / y] *)
Definition mul (x y : t) : t := SFmul prec emax x y.
Definition truediv (x y : t) : result t :=
  if is_zero y then Raise ZeroDivisionError else Ok (SFdiv prec emax x y).

(** [x == y] and [x < y] *)
Definition eqb (x y : t) : bool := SFeqb x y.
Definition ltb (x y : t) : bool := SFltb x y.

(** The double nearest to [(-1)^s * n / 10^ndigits], which is what a
    decimal literal or [float("...")] denotes. [SFdiv] rounds the exact
    quotient of the two integers once; it does not need them normalised. *)
Definition of_decimal (s : bool) (n : Z) (ndigits : nat) : t :=
  match n, 10 ^ Z.of_nat ndigits with
  | Zpos p, Zpos scale =>
      SFdiv prec emax (S754_finite s p 0) (S754_finite false scale 0)
  | _, _ => S754_zero s
  end.

(** [round(x, ndigits)] for [ndigits >= 0]: the exact value of [x] is
    rounded to [ndigits] decimals, ties to even, and the decimal result
    is read back as a double. Infinities and NaN round to themselves. *)
Definition round (x : t) (ndigits : nat) : t :=
  match x with
  | S754_finite s m e =>
      let num := Zpos m * 10 ^ Z.of_nat ndigits * 2 ^ Z.max e 0 in
      let den := 2 ^ Z.max (- e) 0 in
      let q := num / den in
      let r := num mod den in
      let n :=
        match 2 * r ?= den with
        | Lt => q
        | Gt => q + 1
        | Eq => if Z.even q then q else q + 1
        end in
      of_decimal s n ndigits
  | _ => x
  end.

Definition zero : t := S754_zero false.

(** [x + y] *)
Definition add (x y : t) : t := SFadd prec emax x y.

(** [x <= y] *)
Definition leb (x y : t) : bool := SFleb x y.

Definition is_nan (x : t) : bool :=
  match x with
  | S754_nan => true
  | _ => false
  end.

(** [int(x)]: truncation toward zero; NaN raises [ValueError] and an
    infinity [OverflowError]. *)
Definition to_int (x : t) : result Z :=
  match x with
  | S754_nan => Raise (ValueError "cannot convert float NaN to integer")
  | S754_infinity _ => Raise OverflowError
  | S754_zero _ => Ok 0
  | S754_finite s m e =>
      let magnitude := if 0 <=? e then Zpos m * 2 ^ e else Zpos m / 2 ^ (- e) in
      Ok (if s then - magnitude else magnitude)
  end.

(** The exact value of a finite float, [(-1)^s * m * 2^e]. *)
Definition to_Q (x : t) : Q :=
  match x with
  | S754_finite s m e =>
      let n := if s then Zneg m else Zpos m in
      if 0 <=? e then inject_Z (n * 2 ^ e) else n # Z.to_pos (2 ^ (- e))
  | _ => 0
  end.

(** The place of a float in the order of [<]: sign class first, then
    exponent, then mantissa. Both zeros share a place; NaN, which [<]
    does not order, is put last. *)
Definition rank (x : t) : Z * Z * Z :=
  match x with
  | S754_infinity true => (-2, 0, 0)
  | S754_finite true m e => (-1, - e, Zneg m)
  | S754_zero _ => (0, 0, 0)
  | S754_finite false m e => (1, e, Zpos m)
  | S754_infinity false => (2, 0, 0)
  | S754_nan => (3, 0, 0)
  end.

(** [<] on triples of integers. *)
Definition rank_ltb (a b : Z * Z * Z) : bool :=
  (a.1.1 <? b.1.1)
  || ((a.1.1 =? b.1.1)
      && ((a.1.2 <? b.1.2) || ((a.1.2 =? b.1.2) && (a.2 <? b.2)))).
End Float64.

(* ===================================================================== *)
(** ** polyrhythm_harmony_generator.py                                    *)
(* ===================================================================== *)

Module PolyrhythmHarmonyGenerator.

(** [onsets.add(v)] on a set of floats, kept in insertion order: [v] is
    dropped when an equal float is already there. *)
Definition set_add (v : Float64.t) (onsets : list Float64.t) : list Float64.t :=
  if existsb (Float64.eqb v) onsets then onsets else (onsets ++ [v])%list.

(** The inner loop [for i in range(num_hits)]. *)
Fixpoint add_hits (step_duration : Float64.t) (indices : list Z)
    (onsets : list Float64.t) : result (list Float64.t) :=
  match indices with
  | [] => Ok onsets
  | i :: rest =>
      fi ← Float64.of_int i;
      add_hits step_duration rest
        (set_add (Float64.round (Float64.mul fi step_duration) 5) onsets)
  end.

(** The outer loop [for num_hits in rhythms]. *)
Fixpoint add_rhythms (cycle_duration_beats : Float64.t) (rhythms : list Z)
    (onsets : list Float64.t) : result (list Float64.t) :=
  match rhythms with
  | [] => Ok onsets
  | num_hits :: rest =>
      if num_hits <=? 0 then add_rhythms cycle_duration_beats rest onsets
      else
        n ← Float64.of_int num_hits;
        step_duration ← Float64.truediv cycle_duration_beats n;
        onsets' ← add_hits step_duration (range 0 num_hits) onsets;
        add_rhythms cycle_duration_beats rest onsets'
  end.

Definition generate_polyrhythm_onsets (rhythms : list Z)
    (cycle_duration_beats : Float64.t) : result (list Float64.t) :=
  onsets ← add_rhythms cycle_duration_beats rhythms [];
  Ok (sorted_by Float64.ltb onsets).

Definition PITCH_MAP : gmap string Z :=
  dict [("C", 0); ("C#", 1); ("Db", 1); ("D", 2); ("D#", 3); ("Eb", 3);
        ("E", 4); ("F", 5); ("F#", 6); ("Gb", 6); ("G", 7); ("G#", 8);
        ("Ab", 8); ("A", 9); ("A#", 10); ("Bb", 10); ("B", 11)].

Definition CHORD_INTERVALS : gmap string (list Z) :=
  dict [("maj", [0; 4; 7]);
        ("m", [0; 3; 7]);
        ("dim", [0; 3; 6]);
        ("aug", [0; 4; 8]);
        ("sus4", [0; 5; 7]);
        ("sus2", [0; 2; 7]);
        ("7", [0; 4; 7; 10]);
        ("maj7", [0; 4; 7; 11]);
        ("m7", [0; 3; 7; 10]);
        ("m7b5", [0; 3; 6; 10]);
        ("dim7", [0; 3; 6; 9]);
        ("9", [0; 4; 7; 10; 14]);
        ("m9", [0; 3; 7; 10; 14]);
        ("maj9", [0; 4; 7; 11; 14]);
        ("7b9", [0; 4; 7; 10; 13]);
        ("7#9", [0; 4; 7; 10; 15]);
        ("11", [0; 4; 7; 10; 14; 17]);
        ("#11", [0; 4; 7; 11; 14; 18]);
        ("m11", [0; 3; 7; 10; 14; 17]);
        ("13", [0; 4; 7; 10; 14; 21]);
        ("m13", [0; 3; 7; 10; 14; 21]);
        ("add9", [0; 4; 7; 14]);
        ("m(add9)", [0; 3; 7; 14])].

(** [get_pitches_for_chord]: root and quality are given apart; the
    inversion loop is the one of [get_chord_pitches]. *)
Definition get_pitches_for_chord (root_name quality : string)
    (base_octave inversion : Z) : result (list Z) :=
  (if contains PITCH_MAP root_name then Ok tt
   else Raise (ValueError ("Root note '" ++ root_name ++ "' not in PITCH_MAP.")));;
  (if contains CHORD_INTERVALS quality then Ok tt
   else Raise (ValueError ("Chord quality '" ++ quality
                           ++ "' not in CHORD_INTERVALS. Add it to the dictionary.")));;
  root ← getitem PITCH_MAP root_name;
  let root_pitch := root + base_octave * 12 in
  intervals ← getitem CHORD_INTERVALS quality;
  let pitches := map (fun i => root_pitch + i) intervals in
  Ok (Nat.iter (Z.to_nat inversion) ModularChordGenerator.invert_once pitches).

End PolyrhythmHarmonyGenerator.

(** polyrhythm_melody_generator.py: the earlier, two-rhythm version of
    [generate_polyrhythm_onsets]; it divides by each hit count without
    looking at it. *)
Module PolyrhythmMelodyGenerator.

Definition generate_polyrhythm_onsets (r1_hits r2_hits : Z)
    (cycle_duration_beats : Float64.t) : result (list Float64.t) :=
  n1 ← Float64.of_int r1_hits;
  r1_step ← Float64.truediv cycle_duration_beats n1;
  onsets ← PolyrhythmHarmonyGenerator.add_hits r1_step (range 0 r1_hits) [];
  n2 ← Float64.of_int r2_hits;
  r2_step ← Float64.truediv cycle_duration_beats n2;
  onsets ← PolyrhythmHarmonyGenerator.add_hits r2_step (range 0 r2_hits) onsets;
  Ok (sorted_by Float64.ltb onsets).

End PolyrhythmMelodyGenerator.

(* ===================================================================== *)
(** ** drum_patterns.py                                                   *)
(* ===================================================================== *)

Module DrumPatterns.

Definition GM_DRUM_MAP : gmap string Z :=
  dict [("kick", 36); ("acoustic_kick", 35); ("side_stick", 37); ("snare", 38);
        ("electric_snare", 40); ("clap", 39); ("closed_hat", 42); ("pedal_hat", 44);
        ("open_hat", 46); ("low_tom", 45); ("mid_tom", 47); ("high_tom", 50);
        ("crash1", 49); ("crash2", 57); ("ride1", 51); ("ride_bell", 53);
        ("cowbell", 56)].

Definition DRUM_CHANNEL : Z := 9.

(** A slot of a pattern holds [None] or an integer.
    [hit_velocity_marker and hit_velocity_marker > 0] *)
Definition is_hit (hit_velocity_marker : option Z) : bool :=
  match hit_velocity_marker with
  | Some v => negb (v =? 0) && (0 <? v)
  | None => false
  end.

(** The velocity of a hit: the marker itself when it is above 1, capped at
    127, the default otherwise. *)
Definition hit_velocity (default_velocity : Z) (hit_velocity_marker : option Z) : Z :=
  match hit_velocity_marker with
  | Some v => if 1 <? v then Z.min 127 v else default_velocity
  | None => default_velocity
  end.

(** [for i, hit_velocity_marker in enumerate(pattern_list)], from index [i]. *)
Fixpoint pattern_loop (drum_track : Track.t) (pitch measure_start_time
    subdivisions_per_beat default_velocity : Z) (note_duration : Q) (i : Z)
    (pattern_list : list (option Z)) : result Track.t :=
  match pattern_list with
  | [] => Ok drum_track
  | hit_velocity_marker :: rest =>
      if is_hit hit_velocity_marker then
        let current_beat_in_measure := (inject_Z i / inject_Z subdivisions_per_beat)%Q in
        let start_time := (inject_Z measure_start_time + current_beat_in_measure)%Q in
        let velocity := hit_velocity default_velocity hit_velocity_marker in
        note ← Note.init pitch start_time note_duration velocity;
        match Track.add_element drum_track (ENote note) with
        | (drum_track', Ok _) =>
            pattern_loop drum_track' pitch measure_start_time subdivisions_per_beat
              default_velocity note_duration (i + 1) rest
        | (_, Raise e) => Raise e
        end
      else
        pattern_loop drum_track pitch measure_start_time subdivisions_per_beat
          default_velocity note_duration (i + 1) rest
  end.

(** [for drum_name, pattern_list in patterns.items()]: the dict is the
    list of its items, in insertion order. *)
Fixpoint drums_loop (drum_track : Track.t) (measure_start_time
    total_subdivisions_per_measure subdivisions_per_beat default_velocity : Z)
    (note_duration : Q) (items : list (string * list (option Z))) : io Track.t :=
  match items with
  | [] => mret drum_track
  | (drum_name, pattern_list) :: rest =>
      if negb (contains GM_DRUM_MAP drum_name) then
        print ("Warning: Drum name '" ++ drum_name
               ++ "' not found in GM_DRUM_MAP. Skipping.");;
        drums_loop drum_track measure_start_time total_subdivisions_per_measure
          subdivisions_per_beat default_velocity note_duration rest
      else
        pitch ← lift (getitem GM_DRUM_MAP drum_name);
        (if negb (Z.of_nat (length pattern_list) =? total_subdivisions_per_measure) then
           raise (ValueError
                    ("Pattern length for '" ++ drum_name ++ "' ("
                     ++ pretty (Z.of_nat (length pattern_list))
                     ++ ") does not match total subdivisions per measure ("
                     ++ pretty total_subdivisions_per_measure ++ ")."))
         else mret tt);;
        drum_track' ← lift (pattern_loop drum_track pitch measure_start_time
                              subdivisions_per_beat default_velocity note_duration 0
                              pattern_list);
        drums_loop drum_track' measure_start_time total_subdivisions_per_measure
          subdivisions_per_beat default_velocity note_duration rest
  end.

(** [for measure in range(measures)] *)
Fixpoint measures_loop (drum_track : Track.t) (patterns : list (string * list (option Z)))
    (beats_per_measure total_subdivisions_per_measure subdivisions_per_beat
     default_velocity : Z) (note_duration : Q) (measures : list Z) : io Track.t :=
  match measures with
  | [] => mret drum_track
  | measure :: rest =>
      let measure_start_time := measure * beats_per_measure in
      drum_track' ← drums_loop drum_track measure_start_time
                      total_subdivisions_per_measure subdivisions_per_beat
                      default_velocity note_duration patterns;
      measures_loop drum_track' patterns beats_per_measure
        total_subdivisions_per_measure subdivisions_per_beat default_velocity
        note_duration rest
  end.

(** [create_drum_track_from_pattern]. The counts are integers;
    [1.0 / subdivisions_per_beat] is computed before the loops and raises
    for a count of zero. A track that is being built is lost when the
    function raises. *)
Definition create_drum_track_from_pattern (name : string)
    (patterns : list (string * list (option Z)))
    (measures beats_per_measure subdivisions_per_beat default_velocity : Z)
    (note_duration : Q) : io Track.t :=
  (if negb ((0 <=? default_velocity) && (default_velocity <=? 127)) then
     raise (ValueError "Default velocity must be between 0 and 127.")
   else mret tt);;
  drum_track ← lift (Track.init name 0 DRUM_CHANNEL 64 100);
  let total_subdivisions_per_measure := beats_per_measure * subdivisions_per_beat in
  (if subdivisions_per_beat =? 0 then raise ZeroDivisionError else mret tt);;
  measures_loop drum_track patterns beats_per_measure total_subdivisions_per_measure
    subdivisions_per_beat default_velocity note_duration (range 0 measures).

End DrumPatterns.

(* ===================================================================== *)
(** ** The timeline and the scheduler on binary64 beat values             *)
(* ===================================================================== *)

(** The same classes and the same loop of the exporter, for beat values
    that are Python floats: NaN and the infinities pass the constructors,
    every product and sum is rounded, and [int()] can raise. The modules
    above are the sources run on exact numbers (int, Fraction). *)
Module Binary64.

Module Note.
Record t := mk {
  pitch : Z;
  start_time : Float64.t;
  duration : Float64.t;
  velocity : Z
}.

(** [Note.__init__]: [duration <= 0] and [start_time < 0] are false for
    NaN, so NaN gets through both. *)
Definition init (pitch : Z) (start_time duration : Float64.t) (velocity : Z) : result t :=
  if negb ((0 <=? pitch) && (pitch <=? 127)) then
    Raise (ValueError "Pitch must be between 0 and 127.")
  else if negb ((0 <=? velocity) && (velocity <=? 127)) then
    Raise (ValueError "Velocity must be between 0 and 127.")
  else if Float64.leb duration Float64.zero then
    Raise (ValueError "Duration must be positive.")
  else if Float64.ltb start_time Float64.zero then
    Raise (ValueError "Start time cannot be negative.")
  else Ok (mk pitch start_time duration velocity).
End Note.

Module Chord.
Record t := mk { notes : list Note.t }.

Definition by_pitch (a b : Note.t) : bool := Note.pitch a <? Note.pitch b.

Definition init (notes : list Note.t) : t := mk (sorted_by by_pitch notes).

Definition start_time (c : t) : option Float64.t :=
  match notes c with
  | [] => None
  | n :: _ => Some (Note.start_time n)
  end.

Definition duration (c : t) : option Float64.t :=
  match notes c with
  | [] => None
  | n :: _ => Some (Note.duration n)
  end.
End Chord.

Module Rest.
Record t := mk { start_time : Float64.t; duration : Float64.t }.

Definition init (start_time duration : Float64.t) : result t :=
  if Float64.leb duration Float64.zero then Raise (ValueError "Duration must be positive.")
  else if Float64.ltb start_time Float64.zero then
    Raise (ValueError "Start time cannot be negative.")
  else Ok (mk start_time duration).
End Rest.

Inductive element :=
| ENote (n : Note.t)
| EChord (c : Chord.t)
| ERest (r : Rest.t).

Definition element_start_time (x : element) : option Float64.t :=
  match x with
  | ENote n => Some (Note.start_time n)
  | EChord c => Chord.start_time c
  | ERest r => Some (Rest.start_time r)
  end.

Module Track.
Record t := mk {
  name : string;
  instrument_program : Z;
  channel : Z;
  elements : list element;
  pan : Z;
  volume : Z
}.

Definition init (name : string) (instrument_program channel pan volume : Z) : result t :=
  if negb ((0 <=? instrument_program) && (instrument_program <=? 127)) then
    Raise (ValueError "Instrument program must be between 0 and 127.")
  else if negb ((0 <=? channel) && (channel <=? 15)) then
    Raise (ValueError "MIDI channel must be between 0 and 15.")
  else if negb ((0 <=? pan) && (pan <=? 127)) then
    Raise (ValueError "Pan must be between 0 and 127.")
  else if negb ((0 <=? volume) && (volume <=? 127)) then
    Raise (ValueError "Volume must be between 0 and 127.")
  else Ok (mk name instrument_program channel [] pan volume).

Definition with_elements (tr : t) (els : list element) : t :=
  mk (name tr) (instrument_program tr) (channel tr) els (pan tr) (volume tr).

(** [a < b] on two keys: floats compare, also with NaN (to false);
    [None] raises. *)
Definition by_start_time (a b : element) : result bool :=
  match element_start_time a, element_start_time b with
  | Some x, Some y => Ok (Float64.ltb x y)
  | _, _ => Raise (TypeError OpLt)
  end.

(** [Track.add_element]: append, then [list.sort] on the start times.
    The sort is the stable insertion of [Py.sort]. Where [<] orders the
    keys, which is the case without NaN, this is the order of every
    stable sort; on one or two elements it is what the single comparison
    decides. With NaN among three or more keys Python fixes no order. *)
Definition add_element (tr : t) (e : element) : t * result unit :=
  let appended := (elements tr ++ [e])%list in
  match sort by_start_time appended with
  | Ok sorted => (with_elements tr sorted, Ok tt)
  | Raise ex => (with_elements tr appended, Raise ex)
  end.

Fixpoint add_notes (tr : t) (notes : list Note.t) : t * result unit :=
  match notes with
  | [] => (tr, Ok tt)
  | n :: rest =>
      match add_element tr (ENote n) with
      | (tr', Ok _) => add_notes tr' rest
      | (tr', Raise ex) => (tr', Raise ex)
      end
  end.

(** A run of insertions, with the track after each call. *)
Fixpoint add_all (tr : t) (es : list element) : list (t * result unit) :=
  match es with
  | [] => []
  | e :: rest =>
      let r := add_element tr e in
      r :: add_all r.1 rest
  end.
End Track.

Module MidiExporter.
Import Mido.

(** [int(x * ticks_per_beat)] for a float [x]: the integer is converted
    to a float, the product is rounded to a float, and [int] truncates
    it. *)
Definition tick (ticks_per_beat : Z) (x : Float64.t) : result Z :=
  factor ← Float64.of_int ticks_per_beat;
  Float64.to_int (Float64.mul x factor).

(** Line 56, where the attribute may be [None]. *)
Definition start_tick (ticks_per_beat : Z) (x : option Float64.t) : result Z :=
  match x with
  | Some beats => tick ticks_per_beat beats
  | None => Raise (TypeError OpMul)
  end.

Section Exporter.
Variable self : MidiExporter.t.

(** The loop over [track_obj.elements], lines 55-80. *)
Fixpoint collect_events (track_obj : Track.t) (elements : list element)
    (events : list MidiExporter.event) : io (list MidiExporter.event) :=
  match elements with
  | [] => mret events
  | element :: rest =>
      start_ticks ← lift (start_tick (MidiExporter.ticks_per_beat self)
                            (element_start_time element));
      match element with
      | ENote n =>
          end_ticks ← lift (tick (MidiExporter.ticks_per_beat self)
                              (Float64.add (Note.start_time n) (Note.duration n)));
          collect_events track_obj rest
            (events ++ [(start_ticks,
                         note_on (Note.pitch n) (Note.velocity n)
                                 (Track.channel track_obj) 0);
                        (end_ticks,
                         note_off (Note.pitch n) 0
                                  (Track.channel track_obj) 0)])%list
      | EChord c =>
          match Chord.start_time c, Chord.duration c with
          | Some chord_start_time, Some chord_duration =>
              chord_start_ticks ← lift (tick (MidiExporter.ticks_per_beat self)
                                          chord_start_time);
              chord_end_ticks ← lift (tick (MidiExporter.ticks_per_beat self)
                                        (Float64.add chord_start_time chord_duration));
              collect_events track_obj rest
                (events ++
                 flat_map
                   (fun note_in_chord =>
                      [(chord_start_ticks,
                        note_on (Note.pitch note_in_chord)
                                (Note.velocity note_in_chord)
                                (Track.channel track_obj) 0);
                       (chord_end_ticks,
                        note_off (Note.pitch note_in_chord) 0
                                 (Track.channel track_obj) 0)])
                   (Chord.notes c))%list
          | _, _ =>
              print ("Warning: Chord Chord(notes=[]) in track '"
                     ++ Track.name track_obj
                     ++ "' has no notes or calculable start/duration. Skipping.");;
              collect_events track_obj rest events
          end
      | ERest _ => collect_events track_obj rest events
      end
  end.

(** The sorted event stream of a track, line 83. *)
Definition schedule (track_obj : Track.t) : io (list MidiExporter.event) :=
  events ← collect_events track_obj (Track.elements track_obj) [];
  mret (sorted_by MidiExporter.event_lt events).

(** One iteration of the loop over [composition.tracks], lines 43-102. *)
Definition export_track (track_obj : Track.t) : io (list message) :=
  let setup :=
    [track_name (Track.name track_obj) 0;
     program_change (Track.instrument_program track_obj)
                    (Track.channel track_obj) 0;
     control_change 10 (Track.pan track_obj) (Track.channel track_obj) 0;
     control_change 7 (Track.volume track_obj) (Track.channel track_obj) 0] in
  events ← schedule track_obj;
  let body := MidiExporter.to_delta 0 events in
  let eot :=
    match events with
    | [] => end_of_track 1
    | _ => end_of_track 0
    end in
  mret (setup ++ body ++ [eot])%list.
End Exporter.
End MidiExporter.

End Binary64.

(* ===================================================================== *)
(** ** Vocabulary of the statements                                       *)
(* ===================================================================== *)

(** [a] may stand before [b] in a list sorted with [ltb]: [b < a] is false. *)
Definition not_after {A : Type} (ltb : A -> A -> bool) (a b : A) : Prop :=
  ltb b a = false.

(** The element has a number as [start_time]. *)
Definition has_start (x : element) : bool :=
  match element_start_time x with
  | Some _ => true
  | None => false
  end.

(** [<] on start times, extended to [None] (placed first) so that it is
    an order on all elements; the sort only uses it between numbers. *)
Definition start_ltb (a b : element) : bool :=
  match element_start_time a, element_start_time b with
  | Some x, Some y => Qltb x y
  | None, Some _ => true
  | _, None => false
  end.

(** Ascending start times: both are numbers and the first is not larger. *)
Definition start_le (a b : element) : Prop :=
  match element_start_time a, element_start_time b with
  | Some x, Some y => (x <= y)%Q
  | _, _ => False
  end.

(** A chord without notes, as [Chord()] builds it. *)
Definition empty_chord : element := EChord (Chord.init []).

(** What [Note.__init__] lets through. *)
Definition note_ok (n : Note.t) : Prop :=
  (0 <= Note.pitch n <= 127) /\ (0 <= Note.velocity n <= 127)
  /\ (0 < Note.duration n)%Q /\ (0 <= Note.start_time n)%Q.

(** An element the scheduler can place: a note or the notes of a chord as
    their constructor leaves them, a chord having at least one note. *)
Definition placed (x : element) : Prop :=
  match x with
  | ENote n => note_ok n
  | EChord c => Chord.notes c <> [] /\ Forall note_ok (Chord.notes c)
  | ERest _ => True
  end.

(** The tick of a beat time as the exporter computes it, [int(t * tpb)]. *)
Definition tick_int (ticks_per_beat : Z) (beats : Q) : Z :=
  int (beats * inject_Z ticks_per_beat)%Q.


(** The NoteOn/NoteOff pair of one note sounding from [start] for
    [duration] beats, under a tick rule. *)
Definition note_events (tick : Q -> Z) (channel : Z) (start duration : Q)
    (n : Note.t) : list MidiExporter.event :=
  [(tick start, Mido.note_on (Note.pitch n) (Note.velocity n) channel 0);
   (tick (start + duration)%Q, Mido.note_off (Note.pitch n) 0 channel 0)].

(** The events of one element: a note uses its own times, the notes of a
    chord use the chord's, a rest has none. *)
Definition element_events (tick : Q -> Z) (channel : Z) (x : element)
    : list MidiExporter.event :=
  match x with
  | ENote n => note_events tick channel (Note.start_time n) (Note.duration n) n
  | EChord c =>
      match Chord.start_time c, Chord.duration c with
      | Some start, Some duration =>
          flat_map (note_events tick channel start duration) (Chord.notes c)
      | _, _ => []
      end
  | ERest _ => []
  end.

(** The order of a scheduled stream: earlier tick first; on the same tick
    a NoteOn never stands before a NoteOff. *)
Definition event_precedes (a b : MidiExporter.event) : Prop :=
  a.1 < b.1
  \/ (a.1 = b.1 /\ ~ (Mido.is_note_off a.2 = false /\ Mido.is_note_off b.2 = true)).

(** The path [export] writes to, the warning it prints on the way. *)
Definition final_path (output_filepath : string) : string :=
  if endswith (lower output_filepath) ".mid" then output_filepath
  else output_filepath ++ ".mid".

Definition path_warning (output_filepath : string) : list string :=
  if endswith (lower output_filepath) ".mid" then []
  else ["Warning: Output filepath '" ++ output_filepath
        ++ "' does not end with .mid. Appending .mid."].

(** The messages of one track chunk when every element can be placed. *)
Definition track_messages (self : MidiExporter.t) (tr : Track.t) : list Mido.message :=
  let events :=
    sorted_by MidiExporter.event_lt
      (flat_map (element_events (tick_int (MidiExporter.ticks_per_beat self))
                   (Track.channel tr))
         (Track.elements tr)) in
  [Mido.track_name (Track.name tr) 0;
   Mido.program_change (Track.instrument_program tr) (Track.channel tr) 0;
   Mido.control_change 10 (Track.pan tr) (Track.channel tr) 0;
   Mido.control_change 7 (Track.volume tr) (Track.channel tr) 0]
  ++ MidiExporter.to_delta 0 events
  ++ [match events with [] => Mido.end_of_track 1 | _ => Mido.end_of_track 0 end].

(** The file handed to [save] when every element can be placed. *)
Definition encoded_file `{Mido.Lib} (self : MidiExporter.t) (c : Composition.t)
    : Mido.MidiFile :=
  Mido.mkfile (MidiExporter.ticks_per_beat self) 1
    ([Mido.track_name (Composition.title c) 0;
      Mido.set_tempo (Mido.bpm2tempo (Composition.tempo c)) 0;
      Mido.time_signature (Composition.time_signature c).1
        (Composition.time_signature c).2 24 8 0]
     :: map (track_messages self) (Composition.tracks c)).

(** A disk that refuses every write. *)
Definition full_disk : Mido.Lib :=
  {| Mido.bpm2tempo := fun bpm => 60000000 / bpm;
     Mido.save := fun _ _ => Raise (OSError "No space left on device") |}.

(** The default track and notes of the scheduling example: pitch 60 twice,
    back to back. *)
Definition back_to_back : Track.t :=
  (Track.add_element
     (Track.add_element (Track.mk "Lead" 0 0 [] 64 100)
        (ENote (Note.mk 60 0 1 100))).1
     (ENote (Note.mk 60 1 1 100))).1.

(** [v] is one of the values the polyrhythm loops compute: for a positive
    hit count [n] of the list and an index [i] below it, the product
    [i * (cycle / n)] rounded to 5 decimals. *)
Definition rounded_onset (rhythms : list Z) (cycle_duration_beats v : Float64.t)
    : Prop :=
  exists n i fn step_duration fi,
    In n rhythms /\ 0 <= i < n
    /\ Float64.of_int n = Ok fn
    /\ Float64.truediv cycle_duration_beats fn = Ok step_duration
    /\ Float64.of_int i = Ok fi
    /\ v = Float64.round (Float64.mul fi step_duration) 5.

(** The set holds [v]: [v] itself or a float equal ([==]) to it. *)
Definition holds (l : list Float64.t) (v : Float64.t) : Prop :=
  exists w, In w l /\ (w = v \/ Float64.eqb v w = true).

(** No entry of the list equals ([==]) an earlier one. *)
Definition distinct_floats (l : list Float64.t) : Prop :=
  ForallOrdPairs (fun a b => Float64.eqb a b = false) l.

(** Ascending pitch. *)
Definition pitch_le (a b : Note.t) : Prop := Note.pitch a <= Note.pitch b.

(** The first element starts strictly before the second. *)
Definition starts_before (a b : element) : Prop :=
  match element_start_time a, element_start_time b with
  | Some x, Some y => (x < y)%Q
  | _, _ => False
  end.

(** A pitch the [Note] constructor accepts. *)
Definition midi_pitch (p : Z) : Prop := 0 <= p <= 127.

(** The chord after [add_note] for each pitch in turn. *)
Definition with_pitches (c : Chord.t) (pitches : list Z) (start_time duration : Q)
    (velocity : Z) : Chord.t :=
  fold_left (fun acc p => Chord.add_note acc (Note.mk p start_time duration velocity))
    pitches c.

(** [isinstance(element, Rest)] *)
Definition is_rest (x : element) : bool :=
  match x with
  | ERest _ => true
  | _ => false
  end.




(** Reading a chunk back: the absolute tick of each message is the sum of
    the delta times up to it. *)
Fixpoint absolute_ticks (last : Z) (msgs : list Mido.message) : list Z :=
  match msgs with
  | [] => []
  | m :: rest => (last + Mido.time m) :: absolute_ticks (last + Mido.time m) rest
  end.


(** The line [get_chord_pitches] prints when it falls back to "maj". *)
Definition quality_warning (quality_str : string) : string :=
  "Warning: Quality '" ++ quality_str ++ "' not in CHORD_VOICINGS. Using 'maj'.".

(** Every pitch of the list lies less than an octave above every other. *)
Definition within_octave (pitches : list Z) : Prop :=
  forall x y, In x pitches -> In y pitches -> y < x + 12.

(** Steps 1 and 2 of [get_chord_pitches] when neither fails nor falls
    back: the pitch class of the root and the quality found. *)
Definition resolution (chord_symbol : string) : option (Z * string) :=
  match ModularChordGenerator.parse_root chord_symbol with
  | Ok (root_name, quality_str) =>
      match ModularChordGenerator.PITCH_MAP !! root_name,
            ModularChordGenerator.find_quality quality_str (String.length quality_str) with
      | Some root, Some quality => Some (root, quality)
      | _, _ => None
      end
  | Raise _ => None
  end.

(** A message a MIDI file can hold: data bytes from 0 to 127, a channel
    from 0 to 15, a delta time that is not negative. *)
Definition valid_message (m : Mido.message) : Prop :=
  0 <= Mido.time m
  /\ match m with
     | Mido.program_change program channel _ =>
         (0 <= program <= 127) /\ (0 <= channel <= 15)
     | Mido.control_change control value channel _ =>
         (0 <= control <= 127) /\ (0 <= value <= 127) /\ (0 <= channel <= 15)
     | Mido.note_on note velocity channel _
     | Mido.note_off note velocity channel _ =>
         (0 <= note <= 127) /\ (0 <= velocity <= 127) /\ (0 <= channel <= 15)
     | _ => True
     end.




(** The line printed for a drum name that is not in [GM_DRUM_MAP]. *)
Definition drum_warning (drum_name : string) : string :=
  "Warning: Drum name '" ++ drum_name ++ "' not found in GM_DRUM_MAP. Skipping.".

(** [drum_name in GM_DRUM_MAP], on an item of the pattern dict. *)
Definition known_drum (item : string * list (option Z)) : bool :=
  contains DrumPatterns.GM_DRUM_MAP item.1.

(** The warnings of one pass over a pattern dict: one line per item whose
    drum name is unknown, in the order of the dict. *)
Definition skipped_warnings (patterns : list (string * list (option Z))) : list string :=
  map (fun item => drum_warning item.1)
    (List.filter (fun item => negb (known_drum item)) patterns).


(** *** On binary64 beat values *)
Module OnFloats.
Import Binary64.

(** [0 <= x]: a zero, a positive float or plus infinity; not NaN. *)
Definition nonneg (x : Float64.t) : bool := Float64.leb Float64.zero x.

(** A float that is NaN or not negative: what a sum or a product of
    floats that are not negative can be. *)
Definition nan_or_nonneg (x : Float64.t) : Prop :=
  match x with
  | S754_zero _ | S754_finite false _ _ | S754_infinity false | S754_nan => True
  | _ => False
  end.

(** The element has a number as [start_time], one that [<] orders. *)
Definition has_number (x : element) : bool :=
  match element_start_time x with
  | Some beats => negb (Float64.is_nan beats)
  | None => false
  end.

(** The place of an element in the order of the start times; an element
    without start time is put first. *)
Definition start_key (x : element) : Z * Z * Z :=
  match element_start_time x with
  | Some beats => Float64.rank beats
  | None => (-3, 0, 0)
  end.

Definition start_ltb (a b : element) : bool :=
  Float64.rank_ltb (start_key a) (start_key b).

(** Ascending start times: [a.start_time <= b.start_time] holds. *)
Definition start_le (a b : element) : Prop :=
  match element_start_time a, element_start_time b with
  | Some x, Some y => Float64.leb x y = true
  | _, _ => False
  end.

(** What [Note.__init__] lets through. *)
Definition note_ok (n : Note.t) : Prop :=
  (0 <= Note.pitch n <= 127) /\ (0 <= Note.velocity n <= 127)
  /\ Float64.leb (Note.duration n) Float64.zero = false
  /\ Float64.ltb (Note.start_time n) Float64.zero = false.

(** What [Rest.__init__] lets through. *)
Definition rest_ok (r : Rest.t) : Prop :=
  Float64.leb (Rest.duration r) Float64.zero = false
  /\ Float64.ltb (Rest.start_time r) Float64.zero = false.

(** An element as the constructors leave it, a chord having a note. *)
Definition placed (x : element) : Prop :=
  match x with
  | ENote n => note_ok n
  | EChord c => Chord.notes c <> [] /\ Forall note_ok (Chord.notes c)
  | ERest r => rest_ok r
  end.

(** What [Track.__init__] lets through. *)
Definition track_ok (tr : Track.t) : Prop :=
  (0 <= Track.instrument_program tr <= 127) /\ (0 <= Track.channel tr <= 15)
  /\ (0 <= Track.pan tr <= 127) /\ (0 <= Track.volume tr <= 127).

(** The NoteOn/NoteOff pair of one note, at two ticks. *)
Definition note_events (channel on_tick off_tick : Z) (n : Note.t)
    : list MidiExporter.event :=
  [(on_tick, Mido.note_on (Note.pitch n) (Note.velocity n) channel 0);
   (off_tick, Mido.note_off (Note.pitch n) 0 channel 0)].

(** The events of a note or of the notes of a chord that sound from
    [start] for [duration] beats: NoteOn at [int(start * ticks_per_beat)],
    NoteOff at [int((start + duration) * ticks_per_beat)]. *)
Definition sounding (ticks_per_beat channel : Z) (start duration : Float64.t)
    (notes : list Note.t) : result (list MidiExporter.event) :=
  on_tick ← MidiExporter.tick ticks_per_beat start;
  off_tick ← MidiExporter.tick ticks_per_beat (Float64.add start duration);
  Ok (flat_map (note_events channel on_tick off_tick) notes).

(** The events of one element: a note sounds at its own times, the notes
    of a chord at the chord's; a rest has no event, but its start tick is
    computed; a chord without notes has no start time to multiply. *)
Definition element_events (ticks_per_beat channel : Z) (x : element)
    : result (list MidiExporter.event) :=
  match x with
  | ENote n => sounding ticks_per_beat channel (Note.start_time n) (Note.duration n) [n]
  | EChord c =>
      match Chord.start_time c, Chord.duration c with
      | Some start, Some duration =>
          sounding ticks_per_beat channel start duration (Chord.notes c)
      | _, _ => Raise (TypeError OpMul)
      end
  | ERest r => MidiExporter.tick ticks_per_beat (Rest.start_time r);; Ok []
  end.

(** What computing a tick can raise: [OverflowError] (an integer too
    large for a float, [int()] of an infinity) or the [ValueError] of
    [int()] on NaN. *)
Definition tick_error (e : exn) : Prop :=
  e = OverflowError \/ e = ValueError "cannot convert float NaN to integer".

(** Ascending pitch. *)
Definition pitch_le (a b : Note.t) : Prop := Note.pitch a <= Note.pitch b.

(** The start tick of the element can be computed. *)
Definition start_tick_ok (ticks_per_beat : Z) (x : element) : Prop :=
  exists k, MidiExporter.start_tick ticks_per_beat (element_start_time x) = Ok k.

Definition is_rest (x : element) : bool :=
  match x with
  | ERest _ => true
  | _ => false
  end.

(** The track without its rests. *)
Definition without_rests (tr : Track.t) : Track.t :=
  Track.with_elements tr (List.filter (fun x => negb (is_rest x)) (Track.elements tr)).

End OnFloats.

(** Unfolding the two monads, and closing the side conditions on concrete
    notes. *)
Ltac io_simpl :=
  unfold mbind, mret, io_bind, io_ret, result_bind, result_ret,
    Py.bind, Py.ret, Py.lift, Py.raise, Py.rbind; simpl.


(* ===================================================================== *)
(** ** Properties of the Python fragment                                  *)
(* ===================================================================== *)

(** *** The stable sort, for a comparison that cannot raise *)

Section SortedBy.
Context {A : Type} (ltb : A -> A -> bool).

Hypothesis ltb_asym : forall x y, ltb x y = true -> ltb y x = false.
Hypothesis not_after_trans :
  forall x y z, not_after ltb x y -> not_after ltb y z -> not_after ltb x z.

Lemma sorted_by_snoc (l : list A) (x : A) :
  sorted_by ltb (l ++ [x]) = insert_by ltb x (sorted_by ltb l).
Proof. unfold sorted_by. now rewrite fold_left_app. Qed.

Lemma insert_by_perm (x : A) (l : list A) :
  Permutation (insert_by ltb x l) (x :: l).
Proof.
  induction l as [|y l IH]; simpl; [reflexivity|].
  destruct (ltb x y); [reflexivity|].
  rewrite IH. apply perm_swap.
Qed.

Lemma sorted_by_perm (l : list A) : Permutation (sorted_by ltb l) l.
Proof.
  induction l as [|x l IH] using rev_ind; [reflexivity|].
  rewrite sorted_by_snoc, insert_by_perm, IH.
  apply Permutation_cons_append.
Qed.

Lemma insert_by_sorted (x : A) (l : list A) :
  StronglySorted (not_after ltb) l -> StronglySorted (not_after ltb) (insert_by ltb x l).
Proof using ltb_asym not_after_trans.
  induction 1 as [|y l Hl IH Hy]; simpl.
  - repeat constructor.
  - destruct (ltb x y) eqn:Hxy.
    + constructor; [now constructor|].
      assert (Hfirst : not_after ltb x y) by (apply ltb_asym, Hxy).
      constructor; [exact Hfirst|].
      eapply List.Forall_impl; [|exact Hy].
      intros z Hz. eapply not_after_trans; eauto.
    + constructor; [exact IH|].
      eapply Permutation_Forall; [symmetry; apply insert_by_perm|].
      constructor; [exact Hxy | exact Hy].
Qed.

Lemma sorted_by_sorted (l : list A) :
  StronglySorted (not_after ltb) (sorted_by ltb l).
Proof using ltb_asym not_after_trans.
  induction l as [|x l IH] using rev_ind; [constructor|].
  rewrite sorted_by_snoc. now apply insert_by_sorted.
Qed.
End SortedBy.

(** *** The stable sort, for a comparison that may raise *)

Section SortFallible.
Context {A : Type} (lt : A -> A -> result bool) (ltb : A -> A -> bool).

(** The elements on which the comparison is defined, and the exception
    it raises on the others. *)
Variable comparable : A -> bool.
Variable err : exn.
Hypothesis lt_ok :
  forall x y, comparable x = true -> comparable y = true -> lt x y = Ok (ltb x y).
Hypothesis lt_raises :
  forall x y, comparable x = false \/ comparable y = false -> lt x y = Raise err.

Lemma sort_snoc (l : list A) (x : A) :
  sort lt (l ++ [x]) = sort lt l ≫= insert_sorted lt x.
Proof. unfold sort. now rewrite fold_left_app. Qed.

Lemma insert_sorted_ok (x : A) (l : list A) :
  comparable x = true -> Forall (fun y => comparable y = true) l ->
  insert_sorted lt x l = Ok (insert_by ltb x l).
Proof using lt_ok.
  intros Hx Hl. induction Hl as [|y l Hy Hl IH]; simpl; [reflexivity|].
  rewrite (lt_ok _ _ Hx Hy). simpl.
  destruct (ltb x y); [reflexivity|]. now rewrite IH.
Qed.

Lemma sort_ok (l : list A) :
  Forall (fun y => comparable y = true) l -> sort lt l = Ok (sorted_by ltb l).
Proof using lt_ok.
  induction l as [|x l IH] using rev_ind; intros Hl; [reflexivity|].
  apply Forall_app in Hl as [Hl Hx]. inversion Hx; subst.
  rewrite sort_snoc, sorted_by_snoc, (IH Hl). simpl.
  apply insert_sorted_ok; [assumption|].
  eapply Permutation_Forall; [symmetry; apply sorted_by_perm | exact Hl].
Qed.

Lemma insert_sorted_perm (x : A) (l r : list A) :
  insert_sorted lt x l = Ok r -> Permutation r (x :: l).
Proof.
  revert r. induction l as [|y l IH]; simpl; intros r Hr.
  - now inversion Hr.
  - destruct (lt x y) as [[|]|] eqn:Hxy; simpl in Hr; try discriminate.
    + now inversion Hr.
    + destruct (insert_sorted lt x l) as [r'|] eqn:Hins; simpl in Hr; [|discriminate].
      inversion Hr; subst. rewrite (IH r' eq_refl). apply perm_swap.
Qed.

Lemma sort_perm (l r : list A) : sort lt l = Ok r -> Permutation r l.
Proof.
  revert r. induction l as [|x l IH] using rev_ind; intros r Hr.
  - now inversion Hr.
  - rewrite sort_snoc in Hr.
    destruct (sort lt l) as [r'|] eqn:Hl; simpl in Hr; [|discriminate].
    apply insert_sorted_perm in Hr. rewrite Hr, (IH r' eq_refl).
    apply Permutation_cons_append.
Qed.

(** Whatever the sort raises comes from a comparison. *)
Lemma insert_sorted_exn (x : A) (l : list A) (e : exn) :
  insert_sorted lt x l = Raise e -> e = err.
Proof using lt_ok lt_raises.
  induction l as [|y l IH]; simpl; [discriminate|].
  destruct (comparable x) eqn:Hx, (comparable y) eqn:Hy;
    try (rewrite lt_raises by auto; simpl; congruence).
  rewrite (lt_ok _ _ Hx Hy). simpl.
  destruct (ltb x y); [discriminate|].
  destruct (insert_sorted lt x l); simpl; [discriminate|].
  intros [= <-]. now apply IH.
Qed.

Lemma sort_exn (l : list A) (e : exn) : sort lt l = Raise e -> e = err.
Proof using lt_ok lt_raises.
  induction l as [|x l IH] using rev_ind; [discriminate|].
  rewrite sort_snoc. destruct (sort lt l) as [r|e']; simpl.
  - apply insert_sorted_exn.
  - intros [= <-]. now apply IH.
Qed.

(** Inserting into a non-empty list compares with its head first. *)
Lemma insert_sorted_raises (x y : A) (l : list A) :
  comparable x = false \/ comparable y = false ->
  insert_sorted lt x (y :: l) = Raise err.
Proof using lt_raises. intros H. simpl. now rewrite (lt_raises _ _ H). Qed.

(** With two or more elements, one element outside the domain of the
    comparison makes the sort raise. *)
Lemma sort_raises (l : list A) :
  (2 <= length l)%nat -> Exists (fun x => comparable x = false) l ->
  sort lt l = Raise err.
Proof using lt_ok lt_raises.
  induction l as [|x l IH] using rev_ind; intros Hlen Hex.
  - simpl in Hlen. lia.
  - rewrite length_app in Hlen. simpl in Hlen.
    rewrite sort_snoc.
    destruct (sort lt l) as [r|e] eqn:Hsort; simpl.
    + pose proof (sort_perm _ _ Hsort) as Hperm.
      destruct r as [|y r].
      { apply Permutation_nil in Hperm. subst l. simpl in Hlen. lia. }
      apply insert_sorted_raises.
      destruct (comparable x) eqn:Hx; [right | now left].
      destruct (comparable y) eqn:Hy; [exfalso | reflexivity].
      apply Exists_app in Hex as [Hex | Hex].
      * destruct (Nat.le_gt_cases 2 (length l)) as [Hl | Hl].
        -- pose proof (IH Hl Hex) as Hraise. congruence.
        -- pose proof (Permutation_length Hperm) as Hsame. simpl in Hsame.
           assert (r = []) by (destruct r; [reflexivity | simpl in Hsame; lia]).
           subst r. apply Permutation_singleton_l in Hperm. subst l.
           apply Exists_cons in Hex as [Hex | Hex]; [congruence | inversion Hex].
      * apply Exists_cons in Hex as [Hex | Hex]; [congruence | inversion Hex].
    + f_equal. eapply sort_exn; eauto.
Qed.
End SortFallible.

Lemma StronglySorted_on {A : Type} (R R' : A -> A -> Prop) (P : A -> Prop)
    (l : list A) :
  (forall x y, P x -> P y -> R x y -> R' x y) ->
  Forall P l -> StronglySorted R l -> StronglySorted R' l.
Proof.
  intros Himp HP Hs. induction Hs as [|x l Hs IH Hx]; [constructor|].
  inversion HP as [|? ? Px Pl]; subst.
  constructor; [now apply IH|].
  rewrite List.Forall_forall in *. intros y Hy. apply Himp; auto.
Qed.

(* ===================================================================== *)
(** ** track.py: the sort in [add_element]                                *)
(* ===================================================================== *)

Lemma Qltb_true (x y : Q) : Qltb x y = true <-> (x < y)%Q.
Proof.
  unfold Qltb. rewrite negb_true_iff. split.
  - intros H. apply Qnot_le_lt. intros Hle.
    apply Qle_bool_iff in Hle. congruence.
  - intros H. destruct (Qle_bool y x) eqn:Hle; [|reflexivity].
    apply Qle_bool_iff in Hle. exfalso. eapply Qlt_not_le; eauto.
Qed.

Lemma Qltb_false (x y : Q) : Qltb x y = false <-> (y <= x)%Q.
Proof.
  unfold Qltb. rewrite negb_false_iff. apply Qle_bool_iff.
Qed.



Lemma by_start_time_ok (x y : element) :
  has_start x = true -> has_start y = true ->
  Track.by_start_time x y = Ok (start_ltb x y).
Proof.
  unfold has_start, Track.by_start_time, start_ltb.
  destruct (element_start_time x), (element_start_time y); simpl; congruence.
Qed.

Lemma by_start_time_raises (x y : element) :
  has_start x = false \/ has_start y = false ->
  Track.by_start_time x y = Raise (TypeError OpLt).
Proof.
  unfold has_start, Track.by_start_time.
  destruct (element_start_time x), (element_start_time y); simpl;
    intros [H|H]; congruence.
Qed.



(** C10. [Chord()] has no start time, so it cannot share a track with
    another element: adding it to a track that is not empty, or adding
    anything to a track that already holds it, makes the sort in
    [add_element] raise a [TypeError] from [<]. The element was appended
    before the sort and stays in the list. *)
Theorem empty_chord_add_element_raises (tr : Track.t) (e : element) :
  (Track.elements tr <> [] /\ e = empty_chord) \/ In empty_chord (Track.elements tr) ->
  Chord.start_time (Chord.init []) = None
  /\ (Track.add_element tr e).2 = Raise (TypeError OpLt)
  /\ Permutation (Track.elements (Track.add_element tr e).1) (Track.elements tr ++ [e]).
Proof.
  intros Hcase. split; [reflexivity|].
  unfold Track.add_element.
  rewrite (sort_raises Track.by_start_time start_ltb has_start (TypeError OpLt)
             by_start_time_ok by_start_time_raises); [now split | |].
  - rewrite length_app. simpl.
    destruct (Track.elements tr) as [|x l] eqn:Hels; simpl; [|lia].
    destruct Hcase as [[Hne _] | []]. congruence.
  - apply List.Exists_exists.
    destruct Hcase as [[_ ->] | Hin].
    + exists empty_chord. split; [|reflexivity].
      apply in_app_iff. right. now left.
    + exists empty_chord. split; [|reflexivity].
      apply in_app_iff. now left.
Qed.

Lemma empty_chord_add_element_raises_witness :
  let tr := Track.mk "Piano" 0 0 [ENote (Note.mk 60 0 1 100)] 64 100 in
  Chord.start_time (Chord.init []) = None
  /\ (Track.add_element tr empty_chord).2 = Raise (TypeError OpLt)
  /\ Permutation (Track.elements (Track.add_element tr empty_chord).1)
       (Track.elements tr ++ [empty_chord]).
Proof.
  intros tr. apply (empty_chord_add_element_raises tr empty_chord).
  left. split; [discriminate | reflexivity].
Defined.

(* ===================================================================== *)
(** ** midi_exporter.py: collecting the events                            *)
(* ===================================================================== *)

(** When every element has a start time the loop appends the events of
    each element in turn and prints nothing. *)
Lemma collect_events_ok (self : MidiExporter.t) (tr : Track.t)
    (els : list element) (evs : list MidiExporter.event) (out : list string) :
  Forall (fun x => has_start x = true) els ->
  MidiExporter.collect_events self tr els evs out
  = (Ok (evs ++ flat_map (element_events (tick_int (MidiExporter.ticks_per_beat self))
                            (Track.channel tr)) els)%list, out).
Proof.
  intros Hall. revert evs.
  induction Hall as [|x els Hx Hall IH]; intros evs; simpl.
  - now rewrite app_nil_r.
  - destruct x as [n | c | r]; simpl; io_simpl.
    + rewrite IH. now rewrite <- app_assoc.
    + destruct c as [[|n0 ns]]; [discriminate Hx|]. simpl.
      rewrite IH. now rewrite <- app_assoc.
    + apply IH.
Qed.

(** The first element without a start time stops the loop: the product
    [element.start_time * ticks_per_beat] on line 56 raises before the
    class of the element is looked at. Nothing is printed. *)
Lemma collect_events_raises (self : MidiExporter.t) (tr : Track.t)
    (els : list element) (evs : list MidiExporter.event) (out : list string) :
  Exists (fun x => has_start x = false) els ->
  MidiExporter.collect_events self tr els evs out = (Raise (TypeError OpMul), out).
Proof.
  revert evs. induction els as [|x els IH]; intros evs Hex; [inversion Hex|].
  destruct (has_start x) eqn:Hx.
  - assert (Hrest : Exists (fun x => has_start x = false) els).
    { apply Exists_cons in Hex as [H|H]; [congruence | exact H]. }
    destruct x as [n | c | r]; simpl; io_simpl.
    + now apply IH.
    + destruct c as [[|n0 ns]]; [discriminate Hx|]. simpl. now apply IH.
    + now apply IH.
  - destruct x as [n | c | r]; try discriminate.
    unfold has_start in Hx. simpl in Hx. simpl.
    destruct (Chord.start_time c); [discriminate|]. reflexivity.
Qed.

(** The loop never prints: the branch of lines 67-69 that warns about a
    chord without notes and skips it is behind the product of line 56,
    which that chord does not pass. *)
Lemma collect_events_never_skips (self : MidiExporter.t) (tr : Track.t)
    (els : list element) (evs : list MidiExporter.event) (out : list string) :
  (MidiExporter.collect_events self tr els evs out).2 = out.
Proof.
  destruct (forallb has_start els) eqn:Hall.
  - rewrite collect_events_ok; [reflexivity|].
    apply List.Forall_forall. now apply forallb_forall.
  - rewrite collect_events_raises; [reflexivity|].
    clear -Hall. induction els as [|x els IH]; simpl in Hall; [discriminate|].
    destruct (has_start x) eqn:Hx; simpl in Hall.
    + apply Exists_cons_tl. now apply IH.
    + now apply Exists_cons_hd.
Qed.

(* ===================================================================== *)
(** ** midi_exporter.py: the order of the event stream                    *)
(* ===================================================================== *)

Lemma lt_pair_spec (a b : Z * Z) :
  lt_pair a b = true <-> a.1 < b.1 \/ (a.1 = b.1 /\ a.2 < b.2).
Proof.
  unfold lt_pair.
  rewrite orb_true_iff, andb_true_iff, !Z.ltb_lt, Z.eqb_eq. reflexivity.
Qed.

Lemma lt_pair_false (a b : Z * Z) :
  lt_pair a b = false <-> b.1 < a.1 \/ (a.1 = b.1 /\ b.2 <= a.2).
Proof.
  destruct (lt_pair a b) eqn:H.
  - apply lt_pair_spec in H. split; [discriminate | lia].
  - split; [intros _ | reflexivity].
    assert (Hn : ~ (a.1 < b.1 \/ (a.1 = b.1 /\ a.2 < b.2))).
    { rewrite <- lt_pair_spec. congruence. }
    lia.
Qed.

Lemma event_lt_asym (x y : MidiExporter.event) :
  MidiExporter.event_lt x y = true -> MidiExporter.event_lt y x = false.
Proof.
  unfold MidiExporter.event_lt. rewrite lt_pair_spec, lt_pair_false. lia.
Qed.

Lemma event_not_after_trans (x y z : MidiExporter.event) :
  not_after MidiExporter.event_lt x y -> not_after MidiExporter.event_lt y z ->
  not_after MidiExporter.event_lt x z.
Proof.
  unfold not_after, MidiExporter.event_lt. rewrite !lt_pair_false. lia.
Qed.

Lemma not_after_event_precedes (a b : MidiExporter.event) :
  not_after MidiExporter.event_lt a b -> event_precedes a b.
Proof.
  unfold not_after, MidiExporter.event_lt, event_precedes, MidiExporter.sort_key.
  rewrite lt_pair_false. simpl.
  destruct (Mido.is_note_off a.2), (Mido.is_note_off b.2); intros H;
    try (destruct (Z.lt_total a.1 b.1) as [Hlt|[Heq|Hgt]]; [now left | right | lia];
         split; [exact Heq | intros [? ?]; congruence]).
  destruct H as [H | [Heq H]]; [now left | lia].
Qed.

Lemma sorted_events_precede (events : list MidiExporter.event) :
  StronglySorted event_precedes (sorted_by MidiExporter.event_lt events).
Proof.
  eapply (StronglySorted_on (not_after MidiExporter.event_lt) event_precedes
            (fun _ => True)).
  - intros x y _ _. apply not_after_event_precedes.
  - apply List.Forall_forall. trivial.
  - apply sorted_by_sorted; [apply event_lt_asym | apply event_not_after_trans].
Qed.

(** What [schedule] returns is a sorted list. *)
Lemma schedule_inv (self : MidiExporter.t) (tr : Track.t) (out out' : list string)
    (evs : list MidiExporter.event) :
  MidiExporter.schedule self tr out = (Ok evs, out') ->
  exists events,
    MidiExporter.collect_events self tr (Track.elements tr) [] out = (Ok events, out')
    /\ evs = sorted_by MidiExporter.event_lt events.
Proof.
  unfold MidiExporter.schedule. io_simpl.
  destruct (MidiExporter.collect_events self tr (Track.elements tr) [] out)
    as [[events|e] out1]; [|discriminate].
  intros [= <- <-]. now exists events.
Qed.

Lemma schedule_ok (self : MidiExporter.t) (tr : Track.t) (out : list string) :
  Forall (fun x => has_start x = true) (Track.elements tr) ->
  MidiExporter.schedule self tr out
  = (Ok (sorted_by MidiExporter.event_lt
           (flat_map (element_events (tick_int (MidiExporter.ticks_per_beat self))
                        (Track.channel tr))
              (Track.elements tr))), out).
Proof.
  intros Hall. unfold MidiExporter.schedule, mbind, io_bind, Py.bind.
  now rewrite collect_events_ok.
Qed.

Lemma tick_int_whole (tpb k : Z) : tick_int tpb (inject_Z k) = k * tpb.
Proof.
  unfold tick_int, int, inject_Z. simpl. now rewrite Z.quot_1_r.
Qed.

(** C6. The event stream [export] schedules for a track is sorted by
    absolute tick, and on equal ticks NoteOff stands before NoteOn. For
    two notes of pitch 60 on one track, from beat 0 and from beat 1, one
    beat long each, the stream is NoteOn at 0, NoteOff at tick(1), NoteOn
    at tick(1), NoteOff at tick(2). *)
Theorem schedule_sorted_note_off_first :
  (forall (self : MidiExporter.t) (tr : Track.t) (out out' : list string)
          (evs : list MidiExporter.event),
      MidiExporter.schedule self tr out = (Ok evs, out') ->
      StronglySorted event_precedes evs)
  /\ (forall (self : MidiExporter.t) (tr : Track.t) (out : list string),
        Forall (fun x => has_start x = true) (Track.elements tr) ->
        exists evs, MidiExporter.schedule self tr out = (Ok evs, out))
  /\ (forall tpb : Z, 0 < tpb ->
        Track.elements back_to_back
        = [ENote (Note.mk 60 0 1 100); ENote (Note.mk 60 1 1 100)]
        /\ run (MidiExporter.schedule (MidiExporter.mk tpb) back_to_back)
           = (Ok [(0, Mido.note_on 60 100 0 0);
                  (tick_int tpb 1, Mido.note_off 60 0 0 0);
                  (tick_int tpb 1, Mido.note_on 60 100 0 0);
                  (tick_int tpb 2, Mido.note_off 60 0 0 0)], [])).
Proof.
  split; [|split].
  - intros self tr out out' evs Hs.
    apply schedule_inv in Hs as (events & _ & ->).
    apply sorted_events_precede.
  - intros self tr out Hall. eexists. now apply schedule_ok.
  - intros tpb Htpb.
    assert (Hels : Track.elements back_to_back
                   = [ENote (Note.mk 60 0 1 100); ENote (Note.mk 60 1 1 100)])
      by reflexivity.
    split; [exact Hels|].
    unfold run.
    rewrite schedule_ok by (rewrite Hels; repeat constructor).
    rewrite Hels. simpl.
    change (0 + 1)%Q with (inject_Z 1). change (1 + 1)%Q with (inject_Z 2).
    change (1%Q) with (inject_Z 1). change (0%Q) with (inject_Z 0).
    change (2%Q) with (inject_Z 2).
    rewrite !tick_int_whole.
    unfold sorted_by, MidiExporter.event_lt, lt_pair, MidiExporter.sort_key. simpl.
    repeat match goal with
           | |- context [(?a <? ?b)] =>
               destruct (Z.ltb_spec a b); try lia; simpl
           | |- context [(?a =? ?b)] =>
               destruct (Z.eqb_spec a b); try lia; simpl
           end.
    reflexivity.
Qed.

Lemma schedule_sorted_note_off_first_witness :
  StronglySorted event_precedes
    [(0, Mido.note_on 60 100 0 0); (480, Mido.note_off 60 0 0 0);
     (480, Mido.note_on 60 100 0 0); (960, Mido.note_off 60 0 0 0)]
  /\ run (MidiExporter.schedule (MidiExporter.mk 480) back_to_back)
     = (Ok [(0, Mido.note_on 60 100 0 0); (480, Mido.note_off 60 0 0 0);
            (480, Mido.note_on 60 100 0 0); (960, Mido.note_off 60 0 0 0)], []).
Proof.
  split.
  - apply (proj1 schedule_sorted_note_off_first (MidiExporter.mk 480) back_to_back [] []).
    reflexivity.
  - apply (proj2 (proj2 schedule_sorted_note_off_first) 480). lia.
Defined.

(* ===================================================================== *)
(** ** midi_exporter.py: ticks and delta times                            *)
(* ===================================================================== *)







(** What the constructors let through is placed. *)
Lemma note_init_ok (pitch : Z) (start_time duration : Q) (velocity : Z) (n : Note.t) :
  Note.init pitch start_time duration velocity = Ok n ->
  n = Note.mk pitch start_time duration velocity /\ note_ok n.
Proof.
  unfold Note.init, note_ok.
  destruct ((0 <=? pitch) && (pitch <=? 127)) eqn:Hp; simpl; [|discriminate].
  destruct ((0 <=? velocity) && (velocity <=? 127)) eqn:Hv; simpl; [|discriminate].
  destruct (Qle_bool duration 0) eqn:Hd; [discriminate|].
  destruct (Qltb start_time 0) eqn:Hs; [discriminate|].
  intros [= <-]. simpl. split; [reflexivity|].
  apply andb_true_iff in Hp as [Hp1 Hp2]. apply andb_true_iff in Hv as [Hv1 Hv2].
  repeat split; try lia.
  - apply Qnot_le_lt. intros Hle. apply Qle_bool_iff in Hle. congruence.
  - now apply Qltb_false.
Qed.

Lemma chord_init_placed (notes : list Note.t) :
  notes <> [] -> Forall note_ok notes -> placed (EChord (Chord.init notes)).
Proof.
  intros Hne Hall. simpl.
  pose proof (sorted_by_perm Chord.by_pitch notes) as Hperm. split.
  - intros Hnil. rewrite Hnil in Hperm. apply Permutation_nil in Hperm. contradiction.
  - eapply Permutation_Forall; [symmetry; exact Hperm | exact Hall].
Qed.




Lemma time_set_time (m : Mido.message) (t : Z) : Mido.time (Mido.set_time m t) = t.
Proof. now destruct m. Qed.



Lemma to_delta_nonneg (last : Z) (evs : list MidiExporter.event) :
  Forall (fun ev : MidiExporter.event => last <= ev.1) evs ->
  StronglySorted (fun a b : MidiExporter.event => a.1 <= b.1) evs ->
  Forall (fun m => 0 <= Mido.time m) (MidiExporter.to_delta last evs).
Proof.
  revert last. induction evs as [|[t m] evs IH]; intros last Hlast Hs; simpl.
  - constructor.
  - inversion Hlast as [|? ? Ht _]; subst. inversion Hs as [|? ? Hs' Hall]; subst.
    constructor.
    + rewrite time_set_time. simpl in Ht. lia.
    + now apply IH.
Qed.



(* ===================================================================== *)
(** ** midi_exporter.py: [export] as a whole                              *)
(* ===================================================================== *)

Lemma forallb_has_start_true (els : list element) :
  forallb has_start els = true -> Forall (fun x => has_start x = true) els.
Proof. intros H. apply List.Forall_forall. now apply forallb_forall. Qed.

Lemma forallb_has_start_false (els : list element) :
  forallb has_start els = false -> Exists (fun x => has_start x = false) els.
Proof.
  induction els as [|x els IH]; simpl; [discriminate|].
  destruct (has_start x) eqn:Hx; simpl; intros H.
  - apply Exists_cons_tl. now apply IH.
  - now apply Exists_cons_hd.
Qed.

Lemma export_track_ok (self : MidiExporter.t) (tr : Track.t) (out : list string) :
  Forall (fun x => has_start x = true) (Track.elements tr) ->
  MidiExporter.export_track self tr out = (Ok (track_messages self tr), out).
Proof.
  intros Hall. unfold MidiExporter.export_track, mbind, io_bind, Py.bind.
  now rewrite schedule_ok.
Qed.

Lemma export_track_raises (self : MidiExporter.t) (tr : Track.t) (out : list string) :
  Exists (fun x => has_start x = false) (Track.elements tr) ->
  MidiExporter.export_track self tr out = (Raise (TypeError OpMul), out).
Proof.
  intros Hex.
  unfold MidiExporter.export_track, MidiExporter.schedule, mbind, io_bind, Py.bind.
  now rewrite collect_events_raises.
Qed.

Lemma export_tracks_ok (self : MidiExporter.t) (tracks : list Track.t)
    (out : list string) :
  Forall (fun tr => Forall (fun x => has_start x = true) (Track.elements tr)) tracks ->
  MidiExporter.export_tracks self tracks out = (Ok (map (track_messages self) tracks), out).
Proof.
  induction 1 as [|tr tracks Htr Hall IH]; simpl; [reflexivity|].
  unfold mbind, io_bind, Py.bind. rewrite export_track_ok by assumption.
  now rewrite IH.
Qed.

(** One track holding an element without start time makes the loop over
    the tracks raise, whatever the other tracks hold. *)
Lemma export_tracks_raises (self : MidiExporter.t) (tracks : list Track.t)
    (out : list string) :
  Exists (fun tr => Exists (fun x => has_start x = false) (Track.elements tr)) tracks ->
  MidiExporter.export_tracks self tracks out = (Raise (TypeError OpMul), out).
Proof.
  induction tracks as [|tr tracks IH]; intros Hex; [inversion Hex|].
  simpl. unfold mbind, io_bind, Py.bind.
  destruct (forallb has_start (Track.elements tr)) eqn:Hhead.
  - rewrite export_track_ok by now apply forallb_has_start_true.
    rewrite IH; [reflexivity|].
    apply Exists_cons in Hex as [Hex|Hex]; [|exact Hex].
    apply List.Exists_exists in Hex as (x & Hx & Hnone).
    rewrite forallb_forall in Hhead. rewrite (Hhead x Hx) in Hnone. discriminate.
  - rewrite export_track_raises by now apply forallb_has_start_false.
    reflexivity.
Qed.

(** The first step of [export]: the path is completed, with a warning. *)
Lemma export_unfold `{Mido.Lib} (self : MidiExporter.t) (c : Composition.t)
    (path : string) (out : list string) :
  MidiExporter.export self c path out
  = match MidiExporter.export_tracks self (Composition.tracks c)
            (out ++ path_warning path)%list with
    | (Ok tracks, out') =>
        match Mido.save
                (Mido.mkfile (MidiExporter.ticks_per_beat self) 1
                   ([Mido.track_name (Composition.title c) 0;
                     Mido.set_tempo (Mido.bpm2tempo (Composition.tempo c)) 0;
                     Mido.time_signature (Composition.time_signature c).1
                       (Composition.time_signature c).2 24 8 0] :: tracks))
                (final_path path) with
        | Ok _ => (Ok tt, (out' ++ [("MIDI file saved to " ++ final_path path)%string])%list)
        | Raise e => (Ok tt, (out' ++ [("Error saving MIDI file: " ++ exn_str e)%string])%list)
        end
    | (Raise e, out') => (Raise e, out')
    end.
Proof.
  unfold MidiExporter.export, final_path, path_warning.
  unfold mbind, mret, io_bind, io_ret, Py.bind, Py.ret, Py.print, Py.try_except, Py.lift.
  destruct (endswith (lower path) ".mid"); simpl.
  - rewrite app_nil_r.
    destruct (MidiExporter.export_tracks self (Composition.tracks c) out)
      as [[tracks|e] out']; [|reflexivity].
    destruct (Mido.save _ _) as [[]|e]; reflexivity.
  - destruct (MidiExporter.export_tracks self (Composition.tracks c) _)
      as [[tracks|e] out']; [|reflexivity].
    destruct (Mido.save _ _) as [[]|e]; reflexivity.
Qed.

(** C3. A composition in which some track holds a chord without notes is
    not exported: [export] raises a [TypeError] (from the product
    [element.start_time * ticks_per_beat] on [None]) before anything is
    written, so the chord is never dropped from an output. *)
Theorem export_rejects_empty_chord `{Mido.Lib} (self : MidiExporter.t)
    (c : Composition.t) (path : string) (out : list string) (tr : Track.t) :
  In tr (Composition.tracks c) ->
  In empty_chord (Track.elements tr) ->
  MidiExporter.export self c path out
  = (Raise (TypeError OpMul), (out ++ path_warning path)%list).
Proof.
  intros Htr Hchord. rewrite export_unfold.
  rewrite export_tracks_raises; [reflexivity|].
  apply List.Exists_exists. exists tr. split; [exact Htr|].
  apply List.Exists_exists. exists empty_chord. now split.
Qed.

Lemma export_rejects_empty_chord_witness :
  let tr := Track.mk "Pad" 48 1 [empty_chord] 64 100 in
  let c := Composition.mk "Song" [back_to_back; tr] 120 (4, 4) in
  @MidiExporter.export full_disk (MidiExporter.mk 480) c "song.mid" []
  = (Raise (TypeError OpMul), []).
Proof.
  intros tr c.
  apply (@export_rejects_empty_chord full_disk (MidiExporter.mk 480) c "song.mid" [] tr).
  - right. now left.
  - now left.
Defined.

(** C2, as the code has it. When every element can be scheduled and the
    write fails with an exception [e], [export] catches it, prints
    "Error saving MIDI file: " followed by the text of [e], and returns
    normally: no exception reaches the caller. *)
Theorem export_catches_save_failure `{Mido.Lib} (self : MidiExporter.t)
    (c : Composition.t) (path : string) (out : list string) (e : exn) :
  Forall (fun tr => Forall (fun x => has_start x = true) (Track.elements tr))
    (Composition.tracks c) ->
  Mido.save (encoded_file self c) (final_path path) = Raise e ->
  MidiExporter.export self c path out
  = (Ok tt, (out ++ path_warning path
              ++ [("Error saving MIDI file: " ++ exn_str e)%string])%list).
Proof.
  intros Hall Hsave. rewrite export_unfold.
  rewrite export_tracks_ok by assumption.
  unfold encoded_file in Hsave. rewrite Hsave. now rewrite <- app_assoc.
Qed.

Lemma export_catches_save_failure_witness :
  let c := Composition.mk "Song" [back_to_back] 120 (4, 4) in
  @MidiExporter.export full_disk (MidiExporter.mk 480) c "song" []
  = (Ok tt, ["Warning: Output filepath 'song' does not end with .mid. Appending .mid.";
             "Error saving MIDI file: No space left on device"]).
Proof.
  intros c.
  apply (@export_catches_save_failure full_disk (MidiExporter.mk 480) c "song" []
           (OSError "No space left on device")).
  - repeat constructor.
  - reflexivity.
Defined.

(** C2 as stated fails: on a disk that refuses the write, [export] of a
    one-track composition returns normally; the failure only shows in what
    was printed. *)
Lemma export_save_failure_not_raised_counterexample :
  let c := Composition.mk "Song" [back_to_back] 120 (4, 4) in
  (forall file path,
      @Mido.save full_disk file path = Raise (OSError "No space left on device"))
  /\ run (@MidiExporter.export full_disk (MidiExporter.mk 480) c "song.mid")
     = (Ok tt, ["Error saving MIDI file: No space left on device"])
  /\ ~ (exists e out,
          run (@MidiExporter.export full_disk (MidiExporter.mk 480) c "song.mid")
          = (Raise e, out)).
Proof.
  intros c. split; [reflexivity|]. split; [reflexivity|].
  intros (e & out & Hraise). vm_compute in Hraise. discriminate.
Qed.

(* ===================================================================== *)
(** ** modular_chord_generator.py: [get_chord_pitches]                    *)
(* ===================================================================== *)

(** The pitches of a C major triad in root position, for any octave
    arguments: the root is [12 * (base_octave + octave_offset)]. *)
Lemma get_chord_pitches_Cmaj_root (base_octave octave_offset : Z) :
  run (ModularChordGenerator.get_chord_pitches "Cmaj" base_octave octave_offset 0)
  = (Ok [12 * (base_octave + octave_offset);
         12 * (base_octave + octave_offset) + 4;
         12 * (base_octave + octave_offset) + 7], []).
Proof.
  assert (Hsym :
    run (ModularChordGenerator.get_chord_pitches "Cmaj" base_octave octave_offset 0)
    = (Ok (map (fun i => 0 + (base_octave + octave_offset) * 12 + i) [0; 4; 7]), []))
    by reflexivity.
  rewrite Hsym. simpl. repeat f_equal; lia.
Qed.

(** C1, on the code. With [base_octave = 4] the function places the root
    of "Cmaj" at pitch 48: it returns [48, 52, 55], and [52, 55, 60] for
    the first inversion. The values of the claim, which are also those of
    the function's docstring, come out for [base_octave = 5]; the module's
    own [midi_to_note_name] puts pitch 60 in octave 4. *)
Theorem get_chord_pitches_Cmaj_octave_4 :
  run (ModularChordGenerator.get_chord_pitches "Cmaj" 4 0 0) = (Ok [48; 52; 55], [])
  /\ run (ModularChordGenerator.get_chord_pitches "Cmaj" 4 0 1) = (Ok [52; 55; 60], [])
  /\ run (ModularChordGenerator.get_chord_pitches "Cmaj" 5 0 0) = (Ok [60; 64; 67], [])
  /\ run (ModularChordGenerator.get_chord_pitches "Cmaj" 5 0 1) = (Ok [64; 67; 72], [])
  /\ ModularChordGenerator.midi_octave 60 = 4.
Proof. repeat split; vm_compute; reflexivity. Qed.

(* ===================================================================== *)
(** ** generative_music_creator.py: [get_scale_notes]                     *)
(* ===================================================================== *)

Lemma in_py_range (lo hi o : Z) : In o (range lo hi) <-> lo <= o < hi.
Proof.
  unfold range. rewrite in_map_iff. split.
  - intros (i & <- & Hi). apply in_seq in Hi. lia.
  - intros Ho. exists (Z.to_nat (o - lo)). split; [lia|].
    apply in_seq. lia.
Qed.

Lemma in_scale_pitches (root_midi : Z) (intervals : list Z) (octave_range : Z * Z)
    (p : Z) :
  In p (GenerativeMusicCreator.scale_pitches root_midi intervals octave_range)
  <-> exists octave interval,
        octave_range.1 <= octave <= octave_range.2
        /\ In interval intervals
        /\ p = root_midi + octave * 12 + interval.
Proof.
  unfold GenerativeMusicCreator.scale_pitches. rewrite in_flat_map. split.
  - intros (octave & Ho & Hp). apply in_py_range in Ho.
    apply in_map_iff in Hp as (interval & <- & Hi).
    exists octave, interval. repeat split; try assumption; lia.
  - intros (octave & interval & Ho & Hi & ->).
    exists octave. split; [apply in_py_range; lia|].
    apply in_map_iff. now exists interval.
Qed.

Lemma Zltb_asym (x y : Z) : (x <? y) = true -> (y <? x) = false.
Proof. rewrite Z.ltb_lt, Z.ltb_ge. lia. Qed.

Lemma Z_not_after_trans (x y z : Z) :
  not_after Z.ltb x y -> not_after Z.ltb y z -> not_after Z.ltb x z.
Proof. unfold not_after. rewrite !Z.ltb_ge. lia. Qed.

Lemma sorted_nodup_strict (l : list Z) :
  List.NoDup l -> StronglySorted (not_after Z.ltb) l -> StronglySorted Z.lt l.
Proof.
  intros Hnd Hs. induction Hs as [|x l Hs IH Hx]; [constructor|].
  inversion Hnd as [|? ? Hnotin Hnd']; subst.
  constructor; [now apply IH|].
  rewrite List.Forall_forall in *. intros y Hy.
  specialize (Hx y Hy). unfold not_after in Hx. apply Z.ltb_ge in Hx.
  assert (x <> y) by (intros ->; contradiction). lia.
Qed.

(** [sorted(list(set(xs)))]: strictly ascending, with the members of [xs]. *)
Lemma sorted_set_spec (xs : list Z) :
  StronglySorted Z.lt (GenerativeMusicCreator.sorted_set xs)
  /\ forall p, In p (GenerativeMusicCreator.sorted_set xs) <-> In p xs.
Proof.
  unfold GenerativeMusicCreator.sorted_set.
  set (s := list_to_set xs : gset Z).
  pose proof (sorted_by_perm Z.ltb (elements s)) as Hperm.
  split.
  - apply sorted_nodup_strict.
    + eapply Permutation_NoDup; [symmetry; exact Hperm|].
      apply NoDup_ListNoDup, NoDup_elements.
    + apply sorted_by_sorted; [apply Zltb_asym | apply Z_not_after_trans].
  - intros p. rewrite (Permutation_in' (eq_refl p) Hperm).
    rewrite <- !list_elem_of_In, elem_of_elements. unfold s.
    now rewrite elem_of_list_to_set.
Qed.

(** What [get_scale_notes] returns: every pitch
    [pitchClass(root) + 12 * octave + interval] of the range, none
    discarded, without duplicates and ascending. *)
Lemma get_scale_notes_spec (root_note_name scale_type : string)
    (octave_range : Z * Z) (notes : list Z) :
  GenerativeMusicCreator.get_scale_notes root_note_name scale_type octave_range
  = Ok notes ->
  exists root_midi intervals,
    GenerativeMusicCreator.PITCH_MAP !! upper root_note_name = Some root_midi
    /\ GenerativeMusicCreator.SCALES !! scale_type = Some intervals
    /\ StronglySorted Z.lt notes
    /\ forall p, In p notes
         <-> exists octave interval,
               octave_range.1 <= octave <= octave_range.2
               /\ In interval intervals
               /\ p = root_midi + octave * 12 + interval.
Proof.
  unfold GenerativeMusicCreator.get_scale_notes, getitem, mbind, result_bind, rbind.
  destruct (GenerativeMusicCreator.PITCH_MAP !! upper root_note_name)
    as [root_midi|]; [|discriminate].
  destruct (GenerativeMusicCreator.SCALES !! scale_type) as [intervals|]; [|discriminate].
  intros [= <-]. exists root_midi, intervals.
  split; [reflexivity|]. split; [reflexivity|].
  split; [apply sorted_set_spec|].
  intros p. rewrite <- in_scale_pitches. apply sorted_set_spec.
Qed.

(** C5, on the code. In octave 10 of C major the function returns the
    pitches 129 and 131, which are not MIDI pitches; below octave 0 it
    returns negative ones. The sibling in random_melody_generator.py, on
    the same arguments, keeps only the pitches from 0 to 127. *)
Theorem get_scale_notes_keeps_invalid_pitches :
  GenerativeMusicCreator.get_scale_notes "C" "major" (10, 10)
  = Ok [120; 122; 124; 125; 127; 129; 131]
  /\ GenerativeMusicCreator.get_scale_notes "C" "major" (-1, -1)
     = Ok [-12; -10; -8; -7; -5; -3; -1]
  /\ RandomMelodyGenerator.get_scale_notes "C" "major" 10 10
     = Ok [120; 122; 124; 125; 127]
  /\ RandomMelodyGenerator.get_scale_notes "C" "major" (-1) (-1) = Ok [].
Proof. repeat split; vm_compute; reflexivity. Qed.

(* ===================================================================== *)
(** ** polyrhythm_harmony_generator.py: [generate_polyrhythm_onsets]      *)
(* ===================================================================== *)

Lemma float_eqb_sym (x y : Float64.t) : Float64.eqb x y = Float64.eqb y x.
Proof.
  unfold Float64.eqb, SFeqb.
  destruct x as [sx | sx | | sx mx ex], y as [sy | sy | | sy my ey]; simpl;
    try reflexivity; try (destruct sx; reflexivity); try (destruct sy; reflexivity);
    try (destruct sx, sy; reflexivity).
  destruct sx, sy; try reflexivity;
    rewrite (Z.compare_antisym ex ey); destruct (ex ?= ey); simpl; try reflexivity;
    change (Pos.compare_cont Eq my mx) with (my ?= mx)%positive;
    change (Pos.compare_cont Eq mx my) with (mx ?= my)%positive;
    rewrite (Pos.compare_antisym mx my);
    destruct (mx ?= my)%positive; reflexivity.
Qed.

Lemma distinct_floats_perm (l l' : list Float64.t) :
  Permutation l l' -> distinct_floats l -> distinct_floats l'.
Proof.
  unfold distinct_floats.
  induction 1 as [| x l l' Hp IH | x y l | l l' l'' Hp1 IH1 Hp2 IH2]; intros H.
  - constructor.
  - inversion H as [|? ? Hx Hl]; subst. constructor; [|now apply IH].
    eapply Permutation_Forall; eauto.
  - inversion H as [|? ? Hy Hl]; subst. inversion Hl as [|? ? Hx Hl']; subst.
    inversion Hy as [|? ? Hyx Hy']; subst.
    constructor; [constructor; [now rewrite float_eqb_sym | assumption]|].
    now constructor.
  - auto.
Qed.

Lemma set_add_distinct (v : Float64.t) (onsets : list Float64.t) :
  distinct_floats onsets -> distinct_floats (PolyrhythmHarmonyGenerator.set_add v onsets).
Proof.
  intros Hd. unfold PolyrhythmHarmonyGenerator.set_add.
  destruct (existsb (Float64.eqb v) onsets) eqn:Hex; [exact Hd|].
  eapply distinct_floats_perm; [apply Permutation_cons_append|].
  constructor; [|exact Hd].
  apply List.Forall_forall. intros a Ha.
  destruct (Float64.eqb v a) eqn:Hva; [|reflexivity].
  assert (existsb (Float64.eqb v) onsets = true)
    by (apply existsb_exists; eauto).
  congruence.
Qed.

Lemma set_add_members (v w : Float64.t) (onsets : list Float64.t) :
  In w (PolyrhythmHarmonyGenerator.set_add v onsets) -> In w onsets \/ w = v.
Proof.
  unfold PolyrhythmHarmonyGenerator.set_add.
  destruct (existsb (Float64.eqb v) onsets); [now left|].
  rewrite in_app_iff. simpl. intuition.
Qed.

Lemma add_hits_spec (step : Float64.t) (indices : list Z)
    (onsets result : list Float64.t) :
  PolyrhythmHarmonyGenerator.add_hits step indices onsets = Ok result ->
  (distinct_floats onsets -> distinct_floats result)
  /\ forall v, In v result ->
       In v onsets
       \/ exists i fi, In i indices /\ Float64.of_int i = Ok fi
                       /\ v = Float64.round (Float64.mul fi step) 5.
Proof.
  revert onsets. induction indices as [|i rest IH]; intros onsets; simpl.
  - intros [= <-]. split; [trivial | now left].
  - unfold mbind, result_bind, rbind.
    destruct (Float64.of_int i) as [fi|] eqn:Hfi; [|discriminate].
    intros Hrest. apply IH in Hrest as [Hd Hm]. split.
    + intros Hon. now apply Hd, set_add_distinct.
    + intros v Hv. destruct (Hm v Hv) as [Hin | (j & fj & Hj & Hfj & ->)].
      * apply set_add_members in Hin as [Hin | ->]; [now left | right].
        exists i, fi. repeat split; [now left | assumption].
      * right. exists j, fj. repeat split; [now right | assumption].
Qed.

Lemma add_rhythms_spec (cycle : Float64.t) (rhythms : list Z)
    (onsets result : list Float64.t) :
  PolyrhythmHarmonyGenerator.add_rhythms cycle rhythms onsets = Ok result ->
  (distinct_floats onsets -> distinct_floats result)
  /\ forall v, In v result -> In v onsets \/ rounded_onset rhythms cycle v.
Proof.
  revert onsets. induction rhythms as [|n rest IH]; intros onsets; simpl.
  - intros [= <-]. split; [trivial | now left].
  - assert (Hweaken : forall v, rounded_onset rest cycle v ->
                                rounded_onset (n :: rest) cycle v).
    { intros v (m & i & fm & st & fi & Hm & H). exists m, i, fm, st, fi.
      split; [now right | exact H]. }
    destruct (Z.leb_spec n 0) as [Hn | Hn].
    + intros Hrest. apply IH in Hrest as [Hd Hm]. split; [exact Hd|].
      intros v Hv. destruct (Hm v Hv); auto.
    + unfold mbind, result_bind, rbind.
      destruct (Float64.of_int n) as [fn|] eqn:Hfn; [|discriminate].
      destruct (Float64.truediv cycle fn) as [step|] eqn:Hstep; [|discriminate].
      destruct (PolyrhythmHarmonyGenerator.add_hits step (range 0 n) onsets)
        as [onsets'|] eqn:Hhits; [|discriminate].
      apply add_hits_spec in Hhits as [Hd1 Hm1].
      intros Hrest. apply IH in Hrest as [Hd Hm]. split; [auto|].
      intros v Hv. destruct (Hm v Hv) as [Hin | Hr]; [|auto].
      destruct (Hm1 v Hin) as [Hold | (i & fi & Hi & Hfi & ->)]; [now left | right].
      apply in_py_range in Hi.
      exists n, i, fn, step, fi. repeat split; try assumption; try lia. now left.
Qed.

Lemma set_add_incl (v : Float64.t) (onsets : list Float64.t) :
  incl onsets (PolyrhythmHarmonyGenerator.set_add v onsets).
Proof.
  unfold PolyrhythmHarmonyGenerator.set_add.
  destruct (existsb (Float64.eqb v) onsets); [apply incl_refl|].
  now apply incl_appl, incl_refl.
Qed.

Lemma set_add_holds (v : Float64.t) (onsets : list Float64.t) :
  holds (PolyrhythmHarmonyGenerator.set_add v onsets) v.
Proof.
  unfold PolyrhythmHarmonyGenerator.set_add, holds.
  destruct (existsb (Float64.eqb v) onsets) eqn:Hex.
  - apply existsb_exists in Hex as (w & Hw & Heq). exists w. auto.
  - exists v. split; [|now left]. apply in_app_iff. right. now left.
Qed.

Lemma holds_incl (l l' : list Float64.t) (v : Float64.t) :
  incl l l' -> holds l v -> holds l' v.
Proof. intros Hincl (w & Hw & Hv). exists w. split; [now apply Hincl | exact Hv]. Qed.

(** The loops only add to the set, and every value they compute ends up
    held by it. *)
Lemma add_hits_complete (step : Float64.t) (indices : list Z)
    (onsets result : list Float64.t) :
  PolyrhythmHarmonyGenerator.add_hits step indices onsets = Ok result ->
  incl onsets result
  /\ forall i fi, In i indices -> Float64.of_int i = Ok fi ->
       holds result (Float64.round (Float64.mul fi step) 5).
Proof.
  revert onsets. induction indices as [|i rest IH]; intros onsets; simpl.
  - intros [= <-]. split; [apply incl_refl | intros ? ? []].
  - unfold mbind, result_bind, rbind.
    destruct (Float64.of_int i) as [fi|] eqn:Hfi; [|discriminate].
    intros Hrest. apply IH in Hrest as [Hincl Hall]. split.
    + eapply incl_tran; [apply set_add_incl | exact Hincl].
    + intros j fj [<- | Hj] Hfj.
      * assert (fj = fi) by congruence. subst fj.
        eapply holds_incl; [exact Hincl | apply set_add_holds].
      * exact (Hall j fj Hj Hfj).
Qed.

Lemma add_rhythms_complete (cycle : Float64.t) (rhythms : list Z)
    (onsets result : list Float64.t) :
  PolyrhythmHarmonyGenerator.add_rhythms cycle rhythms onsets = Ok result ->
  incl onsets result
  /\ forall v, rounded_onset rhythms cycle v -> holds result v.
Proof.
  revert onsets. induction rhythms as [|n rest IH]; intros onsets; simpl.
  - intros [= <-]. split; [apply incl_refl|].
    intros v (m & i & fm & st & fi & [] & _).
  - destruct (Z.leb_spec n 0) as [Hn | Hn].
    + intros Hrest. apply IH in Hrest as [Hincl Hall]. split; [exact Hincl|].
      intros v (m & i & fm & st & fi & [<- | Hm] & Hi & H); [lia|].
      apply Hall. now exists m, i, fm, st, fi.
    + unfold mbind, result_bind, rbind.
      destruct (Float64.of_int n) as [fn|] eqn:Hfn; [|discriminate].
      destruct (Float64.truediv cycle fn) as [step|] eqn:Hstep; [|discriminate].
      destruct (PolyrhythmHarmonyGenerator.add_hits step (range 0 n) onsets)
        as [onsets'|] eqn:Hhits; [|discriminate].
      apply add_hits_complete in Hhits as [Hincl1 Hall1].
      intros Hrest. apply IH in Hrest as [Hincl Hall]. split.
      * eapply incl_tran; eauto.
      * intros v (m & i & fm & st & fi & [<- | Hm] & Hi & Hfm & Hst & Hfi & ->).
        -- assert (fm = fn) by congruence. subst fm.
           assert (st = step) by congruence. subst st.
           eapply holds_incl; [exact Hincl|].
           apply (Hall1 i fi); [apply in_py_range; lia | exact Hfi].
        -- apply Hall. now exists m, i, fm, st, fi.
Qed.

(** C8. For the hit counts [3, 2] over a cycle of 4.0 beats the function
    returns the four floats 0.0, 1.33333, 2.0 and 2.66667, in this order.
    Whatever the arguments, the returned onsets are the products
    [i * (cycle / n)] rounded to 5 decimals, each of them present, and the
    rounded values are deduplicated: no two returned onsets are equal. *)
Theorem polyrhythm_onsets_3_against_2 :
  PolyrhythmHarmonyGenerator.generate_polyrhythm_onsets [3; 2]
    (Float64.of_decimal false 40 1)
  = Ok [Float64.of_decimal false 0 1; Float64.of_decimal false 133333 5;
        Float64.of_decimal false 20 1; Float64.of_decimal false 266667 5]
  /\ forall rhythms cycle onsets,
       PolyrhythmHarmonyGenerator.generate_polyrhythm_onsets rhythms cycle = Ok onsets ->
       distinct_floats onsets
       /\ (forall v, In v onsets -> rounded_onset rhythms cycle v)
       /\ (forall v, rounded_onset rhythms cycle v -> holds onsets v).
Proof.
  split; [vm_compute; reflexivity|].
  intros rhythms cycle onsets.
  unfold PolyrhythmHarmonyGenerator.generate_polyrhythm_onsets, mbind, result_bind, rbind.
  destruct (PolyrhythmHarmonyGenerator.add_rhythms cycle rhythms []) as [l|] eqn:Hl;
    [|discriminate].
  intros [= <-].
  pose proof (add_rhythms_complete _ _ _ _ Hl) as [_ Hall].
  apply add_rhythms_spec in Hl as [Hd Hm].
  pose proof (sorted_by_perm Float64.ltb l) as Hperm. split; [|split].
  - eapply distinct_floats_perm; [symmetry; exact Hperm|].
    apply Hd. constructor.
  - intros v Hv. apply (Permutation_in' (eq_refl v) Hperm) in Hv.
    destruct (Hm v Hv) as [[] | Hr]. exact Hr.
  - intros v Hv. destruct (Hall v Hv) as (w & Hw & Hwv).
    exists w. split; [|exact Hwv].
    now apply (Permutation_in' (eq_refl w) Hperm).
Qed.

Lemma polyrhythm_onsets_3_against_2_witness :
  let onsets := [S754_zero false; S754_finite false 6004784491161903 (-52);
                 S754_finite false 4503599627370496 (-51);
                 S754_finite false 6004807009160040 (-51)] in
  distinct_floats onsets
  /\ (forall v, In v onsets ->
        rounded_onset [3; 2] (S754_finite false 4503599627370496 (-50)) v)
  /\ (forall v, rounded_onset [3; 2] (S754_finite false 4503599627370496 (-50)) v ->
        holds onsets v).
Proof.
  intros onsets.
  apply (proj2 polyrhythm_onsets_3_against_2 [3; 2]
           (S754_finite false 4503599627370496 (-50)) onsets).
  vm_compute. reflexivity.
Defined.

(** The hit [i] of [n] over a cycle, computed. *)
Ltac onset_at n i cycle :=
  match eval vm_compute in (Float64.of_int n) with
  | Ok ?fn =>
      match eval vm_compute in (Float64.truediv cycle fn) with
      | Ok ?step =>
          match eval vm_compute in (Float64.of_int i) with
          | Ok ?fi =>
              exists n, i, fn, step, fi;
              split; [now left|]; split; [lia|];
              repeat split; vm_compute; reflexivity
          end
      end
  end.

(** C8, where the claim goes too far. Onsets that fall on the same point
    of the cycle need not merge: over a cycle of 2.5625 beats the fourth
    hit of 4 and the sixteenth hit of 20 are both at 3/4 of the cycle,
    1.921875 beats, which lies halfway between two values of five
    decimals. The two float products differ in their last bit, one rounds
    to 1.92188 and the other to 1.92187, and the result holds both: 21
    onsets where 20 points of the cycle are hit. *)
Theorem coincident_onsets_not_merged_counterexample :
  let cycle := Float64.of_decimal false 25625 4 in
  let up := Float64.of_decimal false 192188 5 in
  let down := Float64.of_decimal false 192187 5 in
  Float64.to_Q cycle == 25625 # 10000
  /\ 3 # 4 == 15 # 20
  /\ rounded_onset [4] cycle up
  /\ rounded_onset [20] cycle down
  /\ Float64.eqb up down = false
  /\ exists onsets,
       PolyrhythmHarmonyGenerator.generate_polyrhythm_onsets [4; 20] cycle = Ok onsets
       /\ length onsets = 21%nat
       /\ In up onsets /\ In down onsets.
Proof.
  cbv zeta. split; [vm_compute; reflexivity|]. split; [reflexivity|].
  split; [|split; [|split; [vm_compute; reflexivity|]]].
  - onset_at 4 3 (Float64.of_decimal false 25625 4).
  - onset_at 20 15 (Float64.of_decimal false 25625 4).
  - eexists. split; [vm_compute; reflexivity|].
    split; [reflexivity|]. split; vm_compute; tauto.
Qed.

(* ===================================================================== *)
(** * Further properties of the code                                      *)
(* ===================================================================== *)

(* ===================================================================== *)
(** ** music_elements.py: notes and chords                                *)
(* ===================================================================== *)

Lemma note_ok_init (n : Note.t) :
  note_ok n ->
  Note.init (Note.pitch n) (Note.start_time n) (Note.duration n) (Note.velocity n) = Ok n.
Proof.
  intros ((Hp1 & Hp2) & (Hv1 & Hv2) & Hd & Hs). unfold Note.init.
  replace ((0 <=? Note.pitch n) && (Note.pitch n <=? 127)) with true
    by (symmetry; apply andb_true_iff; split; lia).
  replace ((0 <=? Note.velocity n) && (Note.velocity n <=? 127)) with true
    by (symmetry; apply andb_true_iff; split; lia).
  simpl.
  destruct (Qle_bool (Note.duration n) 0) eqn:Hle.
  - apply Qle_bool_iff in Hle. exfalso. eapply Qlt_not_le; eauto.
  - destruct (Qltb (Note.start_time n) 0) eqn:Hlt.
    + apply Qltb_true in Hlt. exfalso. eapply Qlt_not_le; eauto.
    + now destruct n.
Qed.

(** X1. [Note.transpose] clamps the pitch into 0..127 and touches nothing
    else, so a note the constructor accepted is still one the constructor
    accepts after any transposition. *)
Theorem transpose_keeps_note_valid (pitch : Z) (start_time duration : Q)
    (velocity : Z) (n : Note.t) (semitones : Z) :
  Note.init pitch start_time duration velocity = Ok n ->
  let n' := Note.transpose n semitones in
  0 <= Note.pitch n' <= 127
  /\ (0 <= pitch + semitones <= 127 -> Note.pitch n' = pitch + semitones)
  /\ (pitch + semitones < 0 -> Note.pitch n' = 0)
  /\ (127 < pitch + semitones -> Note.pitch n' = 127)
  /\ Note.init (Note.pitch n') start_time duration velocity = Ok n'.
Proof.
  intros Hinit. apply note_init_ok in Hinit as [-> Hok]. simpl.
  repeat split; try lia.
  apply (note_ok_init (Note.transpose (Note.mk pitch start_time duration velocity) semitones)).
  destruct Hok as (Hp & Hv & Hd & Hs). unfold note_ok. simpl in *.
  repeat split; try assumption; lia.
Qed.

Lemma transpose_keeps_note_valid_witness :
  let n := Note.mk 120 0 1 100 in
  let n' := Note.transpose n 12 in
  0 <= Note.pitch n' <= 127
  /\ (0 <= 120 + 12 <= 127 -> Note.pitch n' = 120 + 12)
  /\ (120 + 12 < 0 -> Note.pitch n' = 0)
  /\ (127 < 120 + 12 -> Note.pitch n' = 127)
  /\ Note.init (Note.pitch n') 0 1 100 = Ok n'.
Proof.
  intros n. apply (transpose_keeps_note_valid 120 0 1 100 n 12). reflexivity.
Defined.

Lemma by_pitch_asym (x y : Note.t) :
  Chord.by_pitch x y = true -> Chord.by_pitch y x = false.
Proof. unfold Chord.by_pitch. rewrite Z.ltb_lt, Z.ltb_ge. lia. Qed.

Lemma by_pitch_not_after_trans (x y z : Note.t) :
  not_after Chord.by_pitch x y -> not_after Chord.by_pitch y z ->
  not_after Chord.by_pitch x z.
Proof. unfold not_after, Chord.by_pitch. rewrite !Z.ltb_ge. lia. Qed.

Lemma sorted_by_pitch (notes : list Note.t) :
  StronglySorted pitch_le (sorted_by Chord.by_pitch notes).
Proof.
  eapply (StronglySorted_on (not_after Chord.by_pitch) pitch_le (fun _ => True)).
  - intros x y _ _. unfold not_after, Chord.by_pitch, pitch_le. now rewrite Z.ltb_ge.
  - apply List.Forall_forall. trivial.
  - apply sorted_by_sorted; [apply by_pitch_asym | apply by_pitch_not_after_trans].
Qed.

(** X2. A chord keeps its notes sorted by ascending pitch: [Chord(notes)]
    and every [add_note] store exactly the notes given, reordered by
    pitch, whatever order they came in. *)
Theorem chord_notes_sorted_by_pitch (notes : list Note.t) (c : Chord.t) (n : Note.t) :
  StronglySorted pitch_le (Chord.notes (Chord.init notes))
  /\ Permutation (Chord.notes (Chord.init notes)) notes
  /\ StronglySorted pitch_le (Chord.notes (Chord.add_note c n))
  /\ Permutation (Chord.notes (Chord.add_note c n)) (Chord.notes c ++ [n]).
Proof.
  simpl. repeat split; try apply sorted_by_pitch; apply sorted_by_perm.
Qed.

Lemma transpose_monotone (a b : Note.t) (semitones : Z) :
  pitch_le a b -> pitch_le (Note.transpose a semitones) (Note.transpose b semitones).
Proof. unfold pitch_le. simpl. lia. Qed.

(** X3. [Chord.transpose] does not sort again and does not need to:
    clamping is monotone, so the notes of a chord built by the constructor
    are still in ascending pitch order after any transposition, and none
    is lost. *)
Theorem chord_transpose_keeps_order (notes : list Note.t) (semitones : Z) :
  let c := Chord.transpose (Chord.init notes) semitones in
  StronglySorted pitch_le (Chord.notes c)
  /\ length (Chord.notes c) = length notes
  /\ Forall (fun n => 0 <= Note.pitch n <= 127) (Chord.notes c).
Proof.
  simpl. split; [|split].
  - pose proof (sorted_by_pitch notes) as Hs.
    induction Hs as [|x l Hs IH Hx]; simpl; constructor; [exact IH|].
    apply List.Forall_forall. intros y Hy. apply in_map_iff in Hy as (z & <- & Hz).
    rewrite List.Forall_forall in Hx. now apply transpose_monotone, Hx.
  - rewrite length_map. apply Permutation_length, sorted_by_perm.
  - apply List.Forall_forall. intros y Hy. apply in_map_iff in Hy as (z & <- & Hz).
    simpl. lia.
Qed.

Lemma note_init_valid (p : Z) (s d : Q) (v : Z) :
  midi_pitch p -> 0 <= v <= 127 -> (0 < d)%Q -> (0 <= s)%Q ->
  Note.init p s d v = Ok (Note.mk p s d v).
Proof.
  intros Hp Hv Hd Hs.
  apply (note_ok_init (Note.mk p s d v)).
  unfold note_ok, midi_pitch in *. simpl. repeat split; try assumption; lia.
Qed.

Lemma with_pitches_perm (c : Chord.t) (pitches : list Z) (s d : Q) (v : Z) :
  Permutation (Chord.notes (with_pitches c pitches s d v))
    (Chord.notes c ++ map (fun p => Note.mk p s d v) pitches).
Proof.
  revert c. induction pitches as [|p rest IH]; intros c; simpl.
  - now rewrite app_nil_r.
  - unfold with_pitches in *. simpl. rewrite IH. simpl.
    rewrite sorted_by_perm, <- app_assoc. reflexivity.
Qed.

Lemma with_pitches_sorted (c : Chord.t) (pitches : list Z) (s d : Q) (v : Z) :
  pitches <> [] -> StronglySorted pitch_le (Chord.notes (with_pitches c pitches s d v)).
Proof.
  induction pitches as [|p rest IH] using rev_ind; [congruence|]. intros _.
  unfold with_pitches. rewrite fold_left_app. simpl. apply sorted_by_pitch.
Qed.

(** X5. [Chord.add_pitches] with a valid start time, duration and velocity
    adds one note per pitch as long as the pitches are MIDI pitches; at the
    first pitch outside 0..127 it raises the constructor's [ValueError],
    and the notes of the pitches before it stay in the chord. *)
Theorem add_pitches_stops_at_bad_pitch (c : Chord.t) (good : list Z)
    (start_time duration : Q) (velocity : Z) :
  0 <= velocity <= 127 -> (0 < duration)%Q -> (0 <= start_time)%Q ->
  Forall midi_pitch good ->
  let c' := with_pitches c good start_time duration velocity in
  Chord.add_pitches c good start_time duration velocity = (c', Ok tt)
  /\ (forall bad rest, ~ midi_pitch bad ->
        Chord.add_pitches c (good ++ bad :: rest) start_time duration velocity
        = (c', Raise (ValueError "Pitch must be between 0 and 127.")))
  /\ Permutation (Chord.notes c')
       (Chord.notes c ++ map (fun p => Note.mk p start_time duration velocity) good)
  /\ (good <> [] -> StronglySorted pitch_le (Chord.notes c')).
Proof.
  intros Hv Hd Hs Hgood. simpl.
  split; [|split; [|split]]; [| |apply with_pitches_perm|apply with_pitches_sorted].
  - revert c. induction Hgood as [|p rest Hp Hrest IH]; intros c; [reflexivity|].
    simpl.
    rewrite note_init_valid by assumption.
    apply IH.
  - intros bad tail Hbad. revert c.
    induction Hgood as [|p rest Hp Hrest IH]; intros c; simpl.
    + unfold Note.init, midi_pitch in *.
      replace ((0 <=? bad) && (bad <=? 127)) with false; [reflexivity|].
      symmetry. apply andb_false_iff. rewrite Z.leb_gt, Z.leb_gt. lia.
    + rewrite note_init_valid by assumption.
      apply IH.
Qed.

Lemma add_pitches_stops_at_bad_pitch_witness :
  let c' := with_pitches (Chord.init []) [60; 64] 0 1 100 in
  Chord.add_pitches (Chord.init []) [60; 64] 0 1 100 = (c', Ok tt)
  /\ (forall bad rest, ~ midi_pitch bad ->
        Chord.add_pitches (Chord.init []) ([60; 64] ++ bad :: rest) 0 1 100
        = (c', Raise (ValueError "Pitch must be between 0 and 127.")))
  /\ Permutation (Chord.notes c')
       (Chord.notes (Chord.init []) ++ map (fun p => Note.mk p 0 1 100) [60; 64])
  /\ ([60; 64] <> [] -> StronglySorted pitch_le (Chord.notes c')).
Proof.
  apply (add_pitches_stops_at_bad_pitch (Chord.init []) [60; 64] 0 1 100).
  - lia.
  - reflexivity.
  - discriminate.
  - repeat constructor; unfold midi_pitch; lia.
Defined.

(* ===================================================================== *)
(** ** track.py: insertion into a sorted track                            *)
(* ===================================================================== *)

Lemma insert_by_split {A : Type} (ltb : A -> A -> bool) (x : A) (l : list A) :
  exists before after,
    l = (before ++ after)%list
    /\ insert_by ltb x l = (before ++ x :: after)%list
    /\ Forall (fun y => ltb x y = false) before
    /\ match after with
       | [] => True
       | y :: _ => ltb x y = true
       end.
Proof.
  induction l as [|y l IH]; simpl.
  - exists [], []. repeat split. constructor.
  - destruct (ltb x y) eqn:Hxy.
    + exists [], (y :: l). repeat split; [constructor | exact Hxy].
    + destruct IH as (before & after & -> & Hins & Hb & Ha).
      exists (y :: before), after. rewrite Hins.
      repeat split; [now constructor | exact Ha].
Qed.

Lemma StronglySorted_snoc_inv {A : Type} (R : A -> A -> Prop) (l : list A) (x : A) :
  StronglySorted R (l ++ [x]) -> StronglySorted R l /\ Forall (fun y => R y x) l.
Proof.
  induction l as [|y l IH]; simpl; intros Hs.
  - split; constructor.
  - inversion Hs as [|? ? Hs' Hall]; subst. destruct (IH Hs') as [Hl Hx].
    apply Forall_app in Hall as [Hall Hyx]. inversion Hyx; subst.
    split; constructor; assumption.
Qed.

Lemma StronglySorted_app_inv {A : Type} (R : A -> A -> Prop) (l1 l2 : list A) :
  StronglySorted R (l1 ++ l2) -> StronglySorted R l2.
Proof.
  induction l1 as [|y l1 IH]; simpl; intros Hs; [exact Hs|].
  inversion Hs; subst. now apply IH.
Qed.

(** Sorting a list that is already in order changes nothing. *)
Lemma sorted_by_fixed {A : Type} (ltb : A -> A -> bool) (l : list A) :
  StronglySorted (not_after ltb) l -> sorted_by ltb l = l.
Proof.
  induction l as [|x l IH] using rev_ind; intros Hs; [reflexivity|].
  apply StronglySorted_snoc_inv in Hs as [Hl Hx].
  rewrite sorted_by_snoc, (IH Hl). clear IH Hl.
  induction Hx as [|y l Hy Hx IH]; simpl; [reflexivity|].
  unfold not_after in Hy. now rewrite Hy, IH.
Qed.

Lemma start_le_not_after (a b : element) : start_le a b -> not_after start_ltb a b.
Proof.
  unfold start_le, not_after, start_ltb.
  destruct (element_start_time a), (element_start_time b); try tauto.
  now rewrite Qltb_false.
Qed.

(** X6. On a track that is in order, [add_element] acts as a stable
    insertion although it sorts the whole list: the elements already there
    keep their relative order, and the new element goes behind every
    element that starts no later than it and in front of every element
    that starts later. *)
Theorem add_element_is_stable_insertion (tr : Track.t) (e : element) :
  StronglySorted start_le (Track.elements tr) ->
  Forall (fun x => has_start x = true) (Track.elements tr) ->
  has_start e = true ->
  exists before after,
    Track.elements tr = (before ++ after)%list
    /\ Track.add_element tr e
       = (Track.with_elements tr (before ++ e :: after)%list, Ok tt)
    /\ Forall (fun x => start_le x e) before
    /\ Forall (fun x => starts_before e x) after.
Proof.
  intros Hs Hall He.
  assert (Hfix : sorted_by start_ltb (Track.elements tr) = Track.elements tr).
  { apply sorted_by_fixed.
    eapply (StronglySorted_on start_le _ (fun _ => True)); [| |exact Hs].
    - intros x y _ _. apply start_le_not_after.
    - apply List.Forall_forall. trivial. }
  destruct (insert_by_split start_ltb e (Track.elements tr))
    as (before & after & Hsplit & Hins & Hb & Ha).
  exists before, after. split; [exact Hsplit|]. split; [|split].
  - unfold Track.add_element.
    rewrite (sort_ok Track.by_start_time start_ltb has_start by_start_time_ok)
      by (apply Forall_app; split; [exact Hall | now constructor]).
    now rewrite sorted_by_snoc, Hfix, Hins.
  - rewrite Hsplit in Hall. apply Forall_app in Hall as [Hallb _].
    rewrite List.Forall_forall in *. intros x Hx.
    specialize (Hb x Hx). specialize (Hallb x Hx).
    unfold start_ltb, start_le, has_start in *.
    destruct (element_start_time e), (element_start_time x); try discriminate.
    now apply Qltb_false.
  - rewrite Hsplit in Hs, Hall. apply StronglySorted_app_inv in Hs.
    apply Forall_app in Hall as [_ Halla].
    destruct after as [|y after]; [constructor|].
    inversion Hs as [|? ? _ Hy]; subst. inversion Halla as [|? ? Hys Hrest]; subst.
    assert (Hey : starts_before e y).
    { unfold start_ltb, starts_before, has_start in *.
      destruct (element_start_time e), (element_start_time y); try discriminate.
      now apply Qltb_true. }
    constructor; [exact Hey|].
    rewrite List.Forall_forall in *. intros z Hz.
    specialize (Hy z Hz). unfold starts_before, start_le in *.
    destruct (element_start_time e), (element_start_time y),
      (element_start_time z); try contradiction.
    eapply Qlt_le_trans; eauto.
Qed.

Lemma add_element_is_stable_insertion_witness :
  exists before after,
    Track.elements back_to_back = (before ++ after)%list
    /\ Track.add_element back_to_back (ERest (Rest.mk 0 2))
       = (Track.with_elements back_to_back (before ++ ERest (Rest.mk 0 2) :: after)%list,
          Ok tt)
    /\ Forall (fun x => start_le x (ERest (Rest.mk 0 2))) before
    /\ Forall (fun x => starts_before (ERest (Rest.mk 0 2)) x) after.
Proof.
  apply (add_element_is_stable_insertion back_to_back (ERest (Rest.mk 0 2))).
  - change (Track.elements back_to_back)
      with [ENote (Note.mk 60 0 1 100); ENote (Note.mk 60 1 1 100)].
    repeat constructor; unfold start_le; simpl; discriminate.
  - repeat constructor.
  - reflexivity.
Defined.

(* ===================================================================== *)
(** ** midi_exporter.py: what a track chunk holds                         *)
(* ===================================================================== *)







(** X10. Delta times lose nothing: adding up the delta times of the
    messages [export] writes gives back the absolute tick of every event,
    and apart from its time each message is the event's message. *)
Theorem delta_times_round_trip (last : Z) (evs : list MidiExporter.event) :
  absolute_ticks last (MidiExporter.to_delta last evs) = map fst evs
  /\ map (fun m => Mido.set_time m 0) (MidiExporter.to_delta last evs)
     = map (fun ev : MidiExporter.event => Mido.set_time ev.2 0) evs.
Proof.
  revert last. induction evs as [|[t m] evs IH]; intros last; simpl; [now split|].
  rewrite time_set_time. replace (last + (t - last)) with t by lia.
  destruct (IH t) as [Ht Hm]. rewrite Ht, Hm. split; [reflexivity|].
  f_equal. now destruct m.
Qed.





(* ===================================================================== *)
(** ** midi_exporter.py: the output path                                  *)
(* ===================================================================== *)







(* ===================================================================== *)
(** ** modular_chord_generator.py: parsing a chord symbol                 *)
(* ===================================================================== *)

Lemma find_quality_spec (quality_str : string) (n : nat) :
  match ModularChordGenerator.find_quality quality_str n with
  | Some q =>
      exists k, (1 <= k <= n)%nat
        /\ q = slice quality_str 0 k
        /\ contains ModularChordGenerator.CHORD_VOICINGS q = true
        /\ forall j, (k < j <= n)%nat ->
             contains ModularChordGenerator.CHORD_VOICINGS (slice quality_str 0 j) = false
  | None =>
      forall j, (1 <= j <= n)%nat ->
        contains ModularChordGenerator.CHORD_VOICINGS (slice quality_str 0 j) = false
  end.
Proof.
  induction n as [|n IH]; cbn [ModularChordGenerator.find_quality]; [intros j Hj; lia|].
  destruct (contains ModularChordGenerator.CHORD_VOICINGS (slice quality_str 0 (S n)))
    eqn:Hfull.
  - exists (S n). split; [lia|]. split; [reflexivity|]. split; [exact Hfull|].
    intros j Hj; lia.
  - destruct (ModularChordGenerator.find_quality quality_str n) as [q|].
    + destruct IH as (k & Hk & Hq & Hin & Hlonger). exists k.
      split; [lia|]. split; [exact Hq|]. split; [exact Hin|].
      intros j Hj. destruct (Nat.eq_dec j (S n)) as [-> | Hne]; [exact Hfull|].
      apply Hlonger. lia.
    + intros j Hj. destruct (Nat.eq_dec j (S n)) as [-> | Hne]; [exact Hfull|].
      apply IH. lia.
Qed.

(** X15. The quality of a chord symbol is matched by longest prefix: the
    quality [get_chord_pitches] uses is a non-empty prefix of the text
    after the root that is a key of [CHORD_VOICINGS], and no longer prefix
    is a key; there is no match exactly when no non-empty prefix is a
    key. *)
Theorem quality_is_longest_known_prefix (quality_str : string) :
  (forall q,
      ModularChordGenerator.find_quality quality_str (String.length quality_str) = Some q ->
      exists k, (1 <= k <= String.length quality_str)%nat
        /\ q = slice quality_str 0 k
        /\ contains ModularChordGenerator.CHORD_VOICINGS q = true
        /\ forall j, (k < j <= String.length quality_str)%nat ->
             contains ModularChordGenerator.CHORD_VOICINGS (slice quality_str 0 j) = false)
  /\ (ModularChordGenerator.find_quality quality_str (String.length quality_str) = None
      <-> forall j, (1 <= j <= String.length quality_str)%nat ->
            contains ModularChordGenerator.CHORD_VOICINGS (slice quality_str 0 j) = false).
Proof.
  pose proof (find_quality_spec quality_str (String.length quality_str)) as Hspec.
  destruct (ModularChordGenerator.find_quality quality_str (String.length quality_str))
    as [q|].
  - split.
    + intros q' [= <-]. exact Hspec.
    + split; [discriminate|]. intros Hnone.
      destruct Hspec as (k & Hk & -> & Hin & _). rewrite (Hnone k Hk) in Hin. discriminate.
  - split; [discriminate|]. split; [intros _; exact Hspec | reflexivity].
Qed.
Lemma quality_is_longest_known_prefix_witness :
  exists k, (1 <= k <= String.length "min(maj7)/G")%nat
    /\ "min(maj7)" = slice "min(maj7)/G" 0 k
    /\ contains ModularChordGenerator.CHORD_VOICINGS "min(maj7)" = true
    /\ forall j, (k < j <= String.length "min(maj7)/G")%nat ->
         contains ModularChordGenerator.CHORD_VOICINGS (slice "min(maj7)/G" 0 j) = false.
Proof.
  apply (proj1 (quality_is_longest_known_prefix "min(maj7)/G") "min(maj7)").
  reflexivity.
Defined.

(** [get_chord_pitches], step by step. *)
Lemma get_chord_pitches_unfold (chord_symbol : string)
    (base_octave octave_offset inversion : Z) (out : list string) :
  ModularChordGenerator.get_chord_pitches chord_symbol base_octave octave_offset
    inversion out
  = match ModularChordGenerator.parse_root chord_symbol with
    | Raise e => (Raise e, out)
    | Ok (root_name, quality_str) =>
        match ModularChordGenerator.PITCH_MAP !! root_name with
        | None =>
            (Raise (ValueError ("Root note '" ++ root_name ++ "' not in PITCH_MAP.")),
             out)
        | Some root =>
            let found := ModularChordGenerator.find_quality quality_str
                           (String.length quality_str) in
            let quality := match found with Some q => q | None => "maj" end in
            let out' := match found with
                        | Some _ => out
                        | None => (out ++ [quality_warning quality_str])%list
                        end in
            match ModularChordGenerator.CHORD_VOICINGS !! quality with
            | Some intervals =>
                (Ok (Nat.iter (Z.to_nat inversion) ModularChordGenerator.invert_once
                       (map (fun i => root + (base_octave + octave_offset) * 12 + i)
                          intervals)), out')
            | None => (Raise (KeyError quality), out')
            end
        end
    end.
Proof.
  unfold ModularChordGenerator.get_chord_pitches.
  unfold mbind, mret, io_bind, io_ret, Py.bind, Py.ret, Py.lift, Py.raise, Py.print.
  destruct (ModularChordGenerator.parse_root chord_symbol) as [[root_name quality_str]|e];
    [|reflexivity].
  unfold contains, getitem.
  destruct (ModularChordGenerator.PITCH_MAP !! root_name) as [root|]; [|reflexivity].
  cbv zeta.
  destruct (ModularChordGenerator.find_quality quality_str (String.length quality_str))
    as [q|]; unfold quality_warning;
    match goal with
    | |- context [ModularChordGenerator.CHORD_VOICINGS !! ?k] =>
        destruct (ModularChordGenerator.CHORD_VOICINGS !! k); reflexivity
    end.
Qed.

Lemma parse_root_nonempty (chord_symbol : string) :
  chord_symbol <> "" ->
  exists root_name quality_str,
    ModularChordGenerator.parse_root chord_symbol = Ok (root_name, quality_str).
Proof.
  intros Hne. unfold ModularChordGenerator.parse_root.
  destruct (_ && _); [eauto|].
  destruct chord_symbol as [|c rest]; [congruence|]. simpl. eauto.
Qed.

Lemma invert_iter_length (l : list Z) (k : nat) :
  length (Nat.iter k ModularChordGenerator.invert_once l) = length l.
Proof.
  induction k as [|k IH]; simpl; [reflexivity|]. rewrite <- IH.
  destruct (Nat.iter k ModularChordGenerator.invert_once l); simpl;
    [reflexivity | rewrite length_app; simpl; lia].
Qed.

(** X16. [get_chord_pitches] fails in two ways only: an empty symbol
    raises [IndexError] and a root that is not in [PITCH_MAP] raises
    [ValueError]. Every other symbol is resolved: an unknown quality is
    replaced by "maj" with one warning line, and the result has one pitch
    per interval of the voicing, whatever the inversion. *)
Theorem get_chord_pitches_failures (chord_symbol : string)
    (base_octave octave_offset inversion : Z) (out : list string) :
  let result := ModularChordGenerator.get_chord_pitches chord_symbol base_octave
                  octave_offset inversion out in
  (chord_symbol = "" -> result = (Raise IndexError, out))
  /\ (chord_symbol <> "" ->
      exists root_name quality_str,
        ModularChordGenerator.parse_root chord_symbol = Ok (root_name, quality_str)
        /\ (ModularChordGenerator.PITCH_MAP !! root_name = None ->
            result
            = (Raise (ValueError ("Root note '" ++ root_name ++ "' not in PITCH_MAP.")),
               out))
        /\ (is_Some (ModularChordGenerator.PITCH_MAP !! root_name) ->
            exists quality intervals pitches,
              ModularChordGenerator.CHORD_VOICINGS !! quality = Some intervals
              /\ length pitches = length intervals
              /\ ((ModularChordGenerator.find_quality quality_str
                     (String.length quality_str) = Some quality
                   /\ result = (Ok pitches, out))
                  \/ (ModularChordGenerator.find_quality quality_str
                        (String.length quality_str) = None
                      /\ quality = "maj"
                      /\ result
                         = (Ok pitches, (out ++ [quality_warning quality_str])%list))))).
Proof.
  cbv zeta. rewrite get_chord_pitches_unfold. split.
  - intros ->. reflexivity.
  - intros Hne. destruct (parse_root_nonempty chord_symbol Hne) as (r & q & Hparse).
    exists r, q. rewrite Hparse. split; [reflexivity|]. split.
    + intros ->. reflexivity.
    + intros [root Hroot]. rewrite Hroot. cbv zeta.
      pose proof (find_quality_spec q (String.length q)) as Hspec.
      destruct (ModularChordGenerator.find_quality q (String.length q)) as [quality|].
      * destruct Hspec as (k & _ & _ & Hin & _). unfold contains in Hin.
        destruct (ModularChordGenerator.CHORD_VOICINGS !! quality) as [intervals|] eqn:Hq;
          [|discriminate].
        exists quality, intervals. eexists. split; [exact Hq|]. split; [|left; eauto].
        now rewrite invert_iter_length, length_map.
      * change (ModularChordGenerator.CHORD_VOICINGS !! "maj") with (Some [0; 4; 7]).
        exists "maj", [0; 4; 7]. eexists. split; [reflexivity|]. split; [|right; eauto].
        now rewrite invert_iter_length.
Qed.

Lemma get_chord_pitches_failures_witness :
  ModularChordGenerator.get_chord_pitches "" 4 0 0 [] = (Raise IndexError, []).
Proof.
  apply (proj1 (get_chord_pitches_failures "" 4 0 0 [])). reflexivity.
Defined.

(* ===================================================================== *)
(** ** modular_chord_generator.py: inversions                             *)
(* ===================================================================== *)

(** A dict literal only holds what its entries say. *)
Lemma fold_insert_lookup {V} (entries : list (string * V)) (m : gmap string V)
    (k : string) (v : V) :
  fold_left (fun m kv => <[kv.1 := kv.2]> m) entries m !! k = Some v ->
  In (k, v) entries \/ m !! k = Some v.
Proof.
  revert m. induction entries as [|[k' v'] entries IH]; intros m; simpl; [now right|].
  intros Hlook. apply IH in Hlook as [Hin | Hlook]; [left; now right|].
  destruct (decide (k' = k)) as [-> | Hne].
  - rewrite lookup_insert_eq in Hlook. left. left. congruence.
  - rewrite lookup_insert_ne in Hlook by exact Hne. now right.
Qed.

Lemma dict_lookup_In {V} (entries : list (string * V)) (k : string) (v : V) :
  dict entries !! k = Some v -> In (k, v) entries.
Proof.
  intros Hlook. apply fold_insert_lookup in Hlook as [Hin | Hempty]; [exact Hin|].
  rewrite lookup_empty in Hempty. discriminate.
Qed.

Lemma invert_once_shift (l : list Z) :
  ModularChordGenerator.invert_once (map (fun p => p + 12) l)
  = map (fun p => p + 12) (ModularChordGenerator.invert_once l).
Proof. destruct l as [|x l]; simpl; [reflexivity|]. now rewrite map_app. Qed.

(** [k] passes of the inversion loop rotate the list: the first [k]
    pitches go to the end, an octave up. *)
Lemma invert_iter_rotate (k : nat) (l : list Z) :
  (k <= length l)%nat ->
  Nat.iter k ModularChordGenerator.invert_once l
  = (skipn k l ++ map (fun p => p + 12) (firstn k l))%list.
Proof.
  revert l. induction k as [|k IH]; intros l Hk.
  - simpl. now rewrite app_nil_r.
  - destruct l as [|x l]; [simpl in Hk; lia|]. simpl in Hk.
    rewrite Nat.iter_succ_r. cbn [ModularChordGenerator.invert_once].
    rewrite IH by (rewrite length_app; simpl; lia).
    replace (skipn k (l ++ [x + 12])%list) with (skipn k l ++ [x + 12])%list.
    2:{ rewrite List.skipn_app. replace (k - length l)%nat with 0%nat by lia.
        reflexivity. }
    replace (firstn k (l ++ [x + 12])%list) with (firstn k l).
    2:{ rewrite List.firstn_app. replace (k - length l)%nat with 0%nat by lia.
        simpl. now rewrite app_nil_r. }
    simpl. now rewrite <- app_assoc.
Qed.

Lemma invert_iter_full (l : list Z) :
  Nat.iter (length l) ModularChordGenerator.invert_once l = map (fun p => p + 12) l.
Proof.
  rewrite invert_iter_rotate by lia.
  now rewrite List.skipn_all, List.firstn_all.
Qed.

(** X17. Inversions wrap around: for a symbol that resolves to a chord of
    [n] notes, inversion [inversion + n] is inversion [inversion] one
    octave higher. In particular the [n]-th inversion is the root position
    of the next octave. *)
Theorem inversion_wraps_to_next_octave (chord_symbol : string)
    (base_octave octave_offset inversion : Z) (out out' : list string)
    (pitches : list Z) :
  0 <= inversion ->
  ModularChordGenerator.get_chord_pitches chord_symbol base_octave octave_offset 0 out
  = (Ok pitches, out') ->
  ModularChordGenerator.get_chord_pitches chord_symbol base_octave octave_offset
    (inversion + Z.of_nat (length pitches)) out
  = ModularChordGenerator.get_chord_pitches chord_symbol base_octave (octave_offset + 1)
      inversion out.
Proof.
  intros Hinv. rewrite !get_chord_pitches_unfold.
  destruct (ModularChordGenerator.parse_root chord_symbol) as [[root_name quality_str]|e];
    [|discriminate].
  destruct (ModularChordGenerator.PITCH_MAP !! root_name) as [root|]; [|discriminate].
  cbv zeta.
  destruct (ModularChordGenerator.CHORD_VOICINGS !! _) as [intervals|]; [|discriminate].
  intros [= <- _]. f_equal. f_equal.
  change (Z.to_nat 0) with 0%nat. cbn [Nat.iter].
  set (root_position := map (fun i => root + (base_octave + octave_offset) * 12 + i)
                          intervals).
  replace (Z.to_nat (inversion + Z.of_nat (length root_position)))
    with (Z.to_nat inversion + length root_position)%nat by lia.
  unfold root_position.
  rewrite Nat.iter_add, invert_iter_full, map_map. f_equal.
  apply map_ext. intros i. lia.
Qed.

Lemma inversion_wraps_to_next_octave_witness :
  ModularChordGenerator.get_chord_pitches "F#min7" 3 0 (1 + Z.of_nat (length [42; 45; 49; 52])) []
  = ModularChordGenerator.get_chord_pitches "F#min7" 3 (0 + 1) 1 [].
Proof.
  apply (inversion_wraps_to_next_octave "F#min7" 3 0 1 [] [] [42; 45; 49; 52]);
    [lia | vm_compute; reflexivity].
Defined.

Lemma voicings_ascend (quality : string) (intervals : list Z) :
  ModularChordGenerator.CHORD_VOICINGS !! quality = Some intervals ->
  StronglySorted Z.lt intervals.
Proof.
  intros Hlook. apply dict_lookup_In in Hlook. simpl in Hlook.
  repeat (destruct Hlook as [[= <- <-] | Hlook];
          [repeat constructor; lia|]).
  destruct Hlook.
Qed.

Lemma StronglySorted_map_add (c : Z) (l : list Z) :
  StronglySorted Z.lt l -> StronglySorted Z.lt (map (fun i => c + i) l).
Proof.
  induction 1 as [|x l Hs IH Hx]; simpl; constructor; [exact IH|].
  rewrite List.Forall_forall in *. intros y Hy.
  apply in_map_iff in Hy as (i & <- & Hi). specialize (Hx i Hi). lia.
Qed.

Lemma StronglySorted_snoc (l : list Z) (x : Z) :
  StronglySorted Z.lt l -> Forall (fun y => y < x) l ->
  StronglySorted Z.lt (l ++ [x]).
Proof.
  induction 1 as [|y l Hs IH Hy]; intros Hall; simpl.
  - repeat constructor.
  - apply Forall_cons in Hall as [Hyx Hall]. constructor; [now apply IH|].
    apply Forall_app. split; [exact Hy | now constructor].
Qed.

(** One pass of the inversion loop on an ascending chord that spans less
    than an octave: the note it moves is the lowest one, and the chord is
    again ascending and spans less than an octave. *)
Lemma invert_once_close (l : list Z) :
  StronglySorted Z.lt l -> within_octave l ->
  StronglySorted Z.lt (ModularChordGenerator.invert_once l)
  /\ within_octave (ModularChordGenerator.invert_once l).
Proof.
  intros Hs Hclose. destruct l as [|x l]; [split; [constructor | intros ? ? []]|].
  apply StronglySorted_inv in Hs as [Hs Hx]. rewrite List.Forall_forall in Hx.
  simpl. split.
  - apply StronglySorted_snoc; [exact Hs|].
    apply List.Forall_forall. intros y Hy.
    apply (Hclose x y); [now left | now right].
  - intros a b Ha Hb. apply in_app_iff in Ha, Hb. simpl in Ha, Hb.
    destruct Ha as [Ha | [<- | []]], Hb as [Hb | [<- | []]].
    + apply Hclose; now right.
    + specialize (Hx a Ha). lia.
    + assert (b < x + 12) by (apply Hclose; [now left | now right]). lia.
    + lia.
Qed.

Lemma invert_iter_close (k : nat) (l : list Z) :
  StronglySorted Z.lt l -> within_octave l ->
  StronglySorted Z.lt (Nat.iter k ModularChordGenerator.invert_once l)
  /\ within_octave (Nat.iter k ModularChordGenerator.invert_once l).
Proof.
  intros Hs Hclose. induction k as [|k [IHs IHc]]; simpl; [now split|].
  now apply invert_once_close.
Qed.

(** X18. Close voicings stay in order: when the root position of a chord
    spans less than an octave (triads and seventh chords), every inversion
    [get_chord_pitches] returns is strictly ascending and again spans less
    than an octave, so the note each pass moves up is the lowest one. *)
Theorem close_voicing_inversions_ascend (chord_symbol : string)
    (base_octave octave_offset inversion : Z) (out out0 out' : list string)
    (root_position pitches : list Z) :
  ModularChordGenerator.get_chord_pitches chord_symbol base_octave octave_offset 0 out
  = (Ok root_position, out0) ->
  within_octave root_position ->
  ModularChordGenerator.get_chord_pitches chord_symbol base_octave octave_offset
    inversion out
  = (Ok pitches, out') ->
  StronglySorted Z.lt pitches /\ within_octave pitches.
Proof.
  rewrite !get_chord_pitches_unfold.
  destruct (ModularChordGenerator.parse_root chord_symbol) as [[root_name quality_str]|e];
    [|discriminate].
  destruct (ModularChordGenerator.PITCH_MAP !! root_name) as [root|]; [|discriminate].
  cbv zeta.
  destruct (ModularChordGenerator.CHORD_VOICINGS !! _) as [intervals|] eqn:Hq;
    [|discriminate].
  intros [= <- _] Hclose [= <- _].
  apply invert_iter_close; [|exact Hclose].
  apply StronglySorted_map_add. eapply voicings_ascend. exact Hq.
Qed.

Lemma close_voicing_inversions_ascend_witness :
  StronglySorted Z.lt [58; 61; 63; 66] /\ within_octave [58; 61; 63; 66].
Proof.
  apply (close_voicing_inversions_ascend "Ebmin7" 4 0 2 [] [] [] [51; 54; 58; 61]
           [58; 61; 63; 66]).
  - vm_compute. reflexivity.
  - intros x y Hx Hy. simpl in Hx, Hy. lia.
  - vm_compute. reflexivity.
Defined.

(* ===================================================================== *)
(** ** modular_chord_generator.py: [get_diatonic_chords]                  *)
(* ===================================================================== *)

Lemma pitch_class_range (name : string) (root_val : Z) :
  ModularChordGenerator.PITCH_MAP !! name = Some root_val -> 0 <= root_val < 12.
Proof.
  intros Hlook. apply dict_lookup_In in Hlook. simpl in Hlook.
  repeat (destruct Hlook as [[= <- <-] | Hlook]; [lia|]).
  destruct Hlook.
Qed.

(** A symbol with a known root and quality gives the voicing of the
    quality on the root, and no warning. *)
Lemma resolution_pitches (chord_symbol : string) (root : Z) (quality : string) :
  resolution chord_symbol = Some (root, quality) ->
  exists voicing,
    ModularChordGenerator.CHORD_VOICINGS !! quality = Some voicing
    /\ forall base_octave octave_offset inversion out,
         ModularChordGenerator.get_chord_pitches chord_symbol base_octave octave_offset
           inversion out
         = (Ok (Nat.iter (Z.to_nat inversion) ModularChordGenerator.invert_once
                  (map (fun i => root + (base_octave + octave_offset) * 12 + i) voicing)),
            out).
Proof.
  unfold resolution.
  destruct (ModularChordGenerator.parse_root chord_symbol) as [[root_name quality_str]|e]
    eqn:Hparse; [|discriminate].
  destruct (ModularChordGenerator.PITCH_MAP !! root_name) as [root'|] eqn:Hroot;
    [|discriminate].
  pose proof (find_quality_spec quality_str (String.length quality_str)) as Hspec.
  destruct (ModularChordGenerator.find_quality quality_str (String.length quality_str))
    as [quality'|] eqn:Hfound; [|discriminate].
  intros [= -> ->]. destruct Hspec as (k & _ & _ & Hin & _). unfold contains in Hin.
  destruct (ModularChordGenerator.CHORD_VOICINGS !! quality) as [voicing|] eqn:Hq;
    [|discriminate].
  exists voicing. split; [reflexivity|]. intros base_octave octave_offset inversion out.
  rewrite get_chord_pitches_unfold, Hparse, Hroot. cbv zeta. rewrite Hfound, Hq.
  reflexivity.
Qed.

(** The loop of [get_diatonic_chords] for each pitch class and each scale
    of the module: the symbol of a degree reads back as the pitch class
    and the quality of the degree. *)
Lemma diatonic_loop_resolves (root_val : Z) (scale_type : string)
    (intervals : list Z) :
  0 <= root_val < 12 ->
  In (scale_type, intervals)
     [("major", [0; 2; 4; 5; 7; 9; 11]);
      ("minor_natural", [0; 2; 3; 5; 7; 8; 10]);
      ("minor_harmonic", [0; 2; 3; 5; 7; 8; 11])] ->
  exists qualities chords,
    ModularChordGenerator.DIATONIC_QUALITIES !! scale_type = Some qualities
    /\ for_list
         (fun i =>
            interval ← list_getitem intervals i;
            let note_val := (root_val + interval) mod 12 in
            note_name ← list_getitem ModularChordGenerator.NOTE_NAMES note_val;
            quality ← list_getitem qualities i;
            Ok (note_name ++ quality))
         (range 0 7) = Ok chords
    /\ length chords = 7%nat
    /\ map resolution chords
       = map (fun degree => Some ((root_val + degree.1) mod 12, degree.2))
           (combine intervals qualities).
Proof.
  intros Hroot Hscale.
  assert (Hcases : In root_val (range 0 12)) by (apply in_py_range; lia).
  vm_compute in Hcases.
  repeat (destruct Hcases as [<- | Hcases];
          [repeat (destruct Hscale as [[= <- <-] | Hscale];
                   [do 2 eexists; repeat split; vm_compute; reflexivity|]);
           destruct Hscale|]).
  destruct Hcases.
Qed.

Lemma nth_error_map_combine {A B C D} (f : A -> D) (g : B * C -> D)
    (xs : list A) (ys : list B) (zs : list C) (i : nat) (x : A) (y : B) (z : C) :
  map f xs = map g (combine ys zs) ->
  nth_error xs i = Some x -> nth_error ys i = Some y -> nth_error zs i = Some z ->
  f x = g (y, z).
Proof.
  revert ys zs i.
  induction xs as [|x' xs IH]; intros [|y' ys] [|z' zs] [|i]; simpl;
    try discriminate.
  - intros [= Hhead _] [= ->] [= ->] [= ->]. exact Hhead.
  - intros [= _ Htail]. now apply IH.
Qed.

(** X19. The chord symbols [get_diatonic_chords] returns read back
    through [get_chord_pitches]: the symbol of each of the seven degrees
    has the pitch class [(root + interval) mod 12] of the degree as its
    root and the whole quality of the degree as its quality, so it gives
    the voicing of this quality, with no warning and no fallback. *)
Theorem diatonic_chords_round_trip (root_name scale_type : string)
    (chords : list string) :
  ModularChordGenerator.get_diatonic_chords root_name scale_type = Ok chords ->
  exists root_val intervals qualities,
    ModularChordGenerator.PITCH_MAP !! upper root_name = Some root_val
    /\ ModularChordGenerator.SCALES !! scale_type = Some intervals
    /\ ModularChordGenerator.DIATONIC_QUALITIES !! scale_type = Some qualities
    /\ length chords = 7%nat
    /\ forall i chord_symbol interval quality,
         nth_error chords i = Some chord_symbol ->
         nth_error intervals i = Some interval ->
         nth_error qualities i = Some quality ->
         exists voicing,
           ModularChordGenerator.CHORD_VOICINGS !! quality = Some voicing
           /\ forall base_octave octave_offset out,
                ModularChordGenerator.get_chord_pitches chord_symbol base_octave
                  octave_offset 0 out
                = (Ok (map (fun v => (root_val + interval) mod 12
                                     + (base_octave + octave_offset) * 12 + v) voicing),
                   out).
Proof.
  unfold ModularChordGenerator.get_diatonic_chords, contains, getitem.
  unfold mbind, result_bind, rbind.
  destruct (ModularChordGenerator.SCALES !! scale_type) as [intervals|] eqn:Hscale;
    [|discriminate].
  destruct (ModularChordGenerator.DIATONIC_QUALITIES !! scale_type) as [qualities|]
    eqn:Hqual; [|discriminate].
  cbn [negb orb].
  destruct (ModularChordGenerator.PITCH_MAP !! upper root_name) as [root_val|] eqn:Hroot;
    [|discriminate].
  pose proof (pitch_class_range _ _ Hroot) as Hrange.
  pose proof (dict_lookup_In _ _ _ Hscale) as Hentry.
  destruct (diatonic_loop_resolves root_val scale_type intervals Hrange Hentry)
    as (qualities' & chords' & Hqual' & Hloop & Hlen & Hall).
  assert (qualities' = qualities) by congruence. subst qualities'.
  unfold mbind, result_bind, rbind in Hloop. rewrite Hloop.
  intros [= <-]. exists root_val, intervals, qualities.
  repeat (split; [reflexivity || assumption|]).
  intros i chord_symbol interval quality Hchord Hint Hq.
  pose proof (nth_error_map_combine _ _ _ _ _ _ _ _ _ Hall Hchord Hint Hq) as Hres.
  cbn [fst snd] in Hres.
  destruct (resolution_pitches _ _ _ Hres) as (voicing & Hvoicing & Hpitches).
  exists voicing. split; [exact Hvoicing|].
  intros base_octave octave_offset out. now rewrite Hpitches.
Qed.

Lemma diatonic_chords_round_trip_witness :
  exists root_val intervals qualities,
    ModularChordGenerator.PITCH_MAP !! upper "a" = Some root_val
    /\ ModularChordGenerator.SCALES !! "minor_harmonic" = Some intervals
    /\ ModularChordGenerator.DIATONIC_QUALITIES !! "minor_harmonic" = Some qualities
    /\ length ["Amin"; "Bdim"; "Cmaj(aug)"; "Dmin"; "Edom7"; "Fmaj"; "G#dim"] = 7%nat
    /\ forall i chord_symbol interval quality,
         nth_error ["Amin"; "Bdim"; "Cmaj(aug)"; "Dmin"; "Edom7"; "Fmaj"; "G#dim"] i
         = Some chord_symbol ->
         nth_error intervals i = Some interval ->
         nth_error qualities i = Some quality ->
         exists voicing,
           ModularChordGenerator.CHORD_VOICINGS !! quality = Some voicing
           /\ forall base_octave octave_offset out,
                ModularChordGenerator.get_chord_pitches chord_symbol base_octave
                  octave_offset 0 out
                = (Ok (map (fun v => (root_val + interval) mod 12
                                     + (base_octave + octave_offset) * 12 + v) voicing),
                   out).
Proof.
  apply (diatonic_chords_round_trip "a" "minor_harmonic"). vm_compute. reflexivity.
Defined.

(* ===================================================================== *)
(** ** modular_chord_generator.py: note names and octaves                 *)
(* ===================================================================== *)

(** A note name of [NOTE_NAMES] followed by a quality of [CHORD_VOICINGS]
    is read as this root and this quality. *)
Lemma named_chord_resolves (note_val : Z) (note_name quality : string)
    (voicing : list Z) :
  list_getitem ModularChordGenerator.NOTE_NAMES note_val = Ok note_name ->
  0 <= note_val ->
  ModularChordGenerator.CHORD_VOICINGS !! quality = Some voicing ->
  resolution (note_name ++ quality) = Some (note_val, quality).
Proof.
  intros Hname Hpos Hq. apply dict_lookup_In in Hq. simpl in Hq.
  unfold list_getitem in Hname.
  destruct (note_val <? 0) eqn:Hneg; [apply Z.ltb_lt in Hneg; lia|]. rewrite Hneg in Hname.
  destruct (nth_error ModularChordGenerator.NOTE_NAMES (Z.to_nat note_val))
    as [name|] eqn:Hnth; [|discriminate].
  injection Hname as ->.
  assert (Hcases : In note_val (range 0 12)).
  { apply in_py_range. split; [lia|].
    assert (Hlt : (Z.to_nat note_val < length ModularChordGenerator.NOTE_NAMES)%nat)
      by (apply nth_error_Some; congruence).
    simpl in Hlt. lia. }
  vm_compute in Hcases.
  repeat (destruct Hcases as [<- | Hcases];
          [injection Hnth as <-;
           repeat (destruct Hq as [[= <- <-] | Hq]; [vm_compute; reflexivity|]);
           destruct Hq|]).
  destruct Hcases.
Qed.

(** X20. Note names and chord octaves differ by one: for a MIDI pitch,
    [midi_to_note_name] gives a note name and the octave [pitch // 12 - 1];
    [get_chord_pitches] puts the root of a chord with this note name on
    the pitch when it is given the next octave number, [pitch // 12], and
    a whole octave lower when it is given the octave of the name. *)
Theorem note_name_octave_is_one_below_chord_octave (pitch : Z) :
  0 <= pitch <= 127 ->
  exists note_name,
    ModularChordGenerator.midi_to_note_name pitch
    = Ok (note_name ++ pretty (ModularChordGenerator.midi_octave pitch))
    /\ forall quality voicing out,
         ModularChordGenerator.CHORD_VOICINGS !! quality = Some voicing ->
         ModularChordGenerator.get_chord_pitches (note_name ++ quality)
           (ModularChordGenerator.midi_octave pitch + 1) 0 0 out
         = (Ok (map (fun v => pitch + v) voicing), out)
         /\ ModularChordGenerator.get_chord_pitches (note_name ++ quality)
              (ModularChordGenerator.midi_octave pitch) 0 0 out
            = (Ok (map (fun v => pitch - 12 + v) voicing), out).
Proof.
  intros Hpitch. unfold ModularChordGenerator.midi_to_note_name.
  replace ((0 <=? pitch) && (pitch <=? 127)) with true
    by (symmetry; apply andb_true_iff; split; apply Z.leb_le; lia).
  cbn [negb]. unfold mbind, result_bind, rbind.
  pose proof (Z.mod_pos_bound pitch 12 ltac:(lia)) as Hmod.
  destruct (list_getitem ModularChordGenerator.NOTE_NAMES (pitch mod 12))
    as [note_name|e] eqn:Hname.
  - exists note_name. split; [reflexivity|]. intros quality voicing out Hq.
    pose proof (named_chord_resolves _ _ _ _ Hname (proj1 Hmod) Hq) as Hres.
    destruct (resolution_pitches _ _ _ Hres) as (voicing' & Hq' & Hpitches).
    assert (voicing' = voicing) by congruence. subst voicing'.
    rewrite !Hpitches. change (Z.to_nat 0) with 0%nat. cbn [Nat.iter].
    unfold ModularChordGenerator.midi_octave.
    pose proof (Z.div_mod pitch 12 ltac:(lia)) as Hdiv.
    split; f_equal; f_equal; apply map_ext; intros v; lia.
  - exfalso. unfold list_getitem in Hname.
    destruct (pitch mod 12 <? 0) eqn:Hneg; [apply Z.ltb_lt in Hneg; lia|].
    rewrite Hneg in Hname.
    destruct (nth_error ModularChordGenerator.NOTE_NAMES (Z.to_nat (pitch mod 12)))
      eqn:Hnth; [discriminate Hname|].
    apply nth_error_None in Hnth. simpl in Hnth. lia.
Qed.

Lemma note_name_octave_is_one_below_chord_octave_witness :
  exists note_name,
    ModularChordGenerator.midi_to_note_name 60
    = Ok (note_name ++ pretty (ModularChordGenerator.midi_octave 60))
    /\ forall quality voicing out,
         ModularChordGenerator.CHORD_VOICINGS !! quality = Some voicing ->
         ModularChordGenerator.get_chord_pitches (note_name ++ quality)
           (ModularChordGenerator.midi_octave 60 + 1) 0 0 out
         = (Ok (map (fun v => 60 + v) voicing), out)
         /\ ModularChordGenerator.get_chord_pitches (note_name ++ quality)
              (ModularChordGenerator.midi_octave 60) 0 0 out
            = (Ok (map (fun v => 60 - 12 + v) voicing), out).
Proof. apply (note_name_octave_is_one_below_chord_octave 60). lia. Defined.

(* ===================================================================== *)
(** ** random_melody_generator.py: [get_scale_notes]                      *)
(* ===================================================================== *)

(** X21. The melody generators' [get_scale_notes] (random_melody_generator.py
    and its copy in polyrhythm_melody_generator.py) returns exactly the
    pitches [root + 12 * octave + interval] of the octave range that lie
    between 0 and 127, strictly ascending. It raises [ValueError] for an
    unknown scale, checked first, and [KeyError] for a root whose
    upper-cased name is not in [PITCH_MAP]. *)
Theorem melody_scale_notes_are_midi_pitches (root_note_name scale_type : string)
    (min_octave max_octave : Z) :
  match RandomMelodyGenerator.get_scale_notes root_note_name scale_type
          min_octave max_octave with
  | Ok notes =>
      StronglySorted Z.lt notes
      /\ exists root_midi intervals,
           RandomMelodyGenerator.PITCH_MAP !! upper root_note_name = Some root_midi
           /\ RandomMelodyGenerator.SCALES !! scale_type = Some intervals
           /\ forall p, In p notes
                <-> midi_pitch p
                    /\ exists octave interval,
                         min_octave <= octave <= max_octave
                         /\ In interval intervals
                         /\ p = root_midi + octave * 12 + interval
  | Raise e =>
      (RandomMelodyGenerator.SCALES !! scale_type = None
       /\ e = ValueError ("Scale type '" ++ scale_type ++ "' not defined."))
      \/ (is_Some (RandomMelodyGenerator.SCALES !! scale_type)
          /\ RandomMelodyGenerator.PITCH_MAP !! upper root_note_name = None
          /\ e = KeyError (upper root_note_name))
  end.
Proof.
  unfold RandomMelodyGenerator.get_scale_notes, contains, getitem.
  unfold mbind, result_bind, rbind.
  destruct (RandomMelodyGenerator.SCALES !! scale_type) as [intervals|];
    [|left; split; reflexivity].
  destruct (RandomMelodyGenerator.PITCH_MAP !! upper root_note_name) as [root_midi|];
    [|right; repeat split; eauto].
  split; [apply sorted_set_spec|].
  exists root_midi, intervals. split; [reflexivity|]. split; [reflexivity|].
  intros p. rewrite (proj2 (sorted_set_spec _) p), filter_In, in_scale_pitches.
  unfold RandomMelodyGenerator.valid_midi, midi_pitch. cbn [fst snd].
  rewrite andb_true_iff, !Z.leb_le. tauto.
Qed.

(* ===================================================================== *)
(** ** Root names are upper-cased before the lookup                       *)
(* ===================================================================== *)

(** No key of [PITCH_MAP] ends in a capital B after another letter. *)
Lemma upper_flat_not_a_key (letter : ascii) :
  ModularChordGenerator.PITCH_MAP !! String letter "B" = None.
Proof.
  destruct (ModularChordGenerator.PITCH_MAP !! String letter "B") as [v|] eqn:Hlook;
    [|reflexivity].
  apply dict_lookup_In in Hlook. simpl in Hlook.
  repeat (destruct Hlook as [Hlook | Hlook]; [discriminate Hlook|]).
  destruct Hlook.
Qed.

(** X22. Flat root names never get through the functions that upper-case
    the root before looking it up: [PITCH_MAP] has the entries Db, Eb, Gb,
    Ab and Bb, but a letter followed by "b" is looked up with a capital B
    and raises [KeyError], in [get_scale_notes] whatever the scale and the
    octave range and in [get_diatonic_chords] for every scale of the
    module (an unknown scale is refused before the root is looked at). *)
Theorem flat_root_names_raise_key_error (letter : ascii) (scale_type : string)
    (octave_range : Z * Z) :
  Forall (fun name => contains GenerativeMusicCreator.PITCH_MAP name = true)
    ["Db"; "Eb"; "Gb"; "Ab"; "Bb"]
  /\ GenerativeMusicCreator.get_scale_notes (String letter "b") scale_type octave_range
     = Raise (KeyError (String (upper_ascii letter) "B"))
  /\ (is_Some (ModularChordGenerator.SCALES !! scale_type) ->
      ModularChordGenerator.get_diatonic_chords (String letter "b") scale_type
      = Raise (KeyError (String (upper_ascii letter) "B"))).
Proof.
  split; [repeat constructor|]. split.
  - unfold GenerativeMusicCreator.get_scale_notes, getitem.
    change (upper (String letter "b")) with (String (upper_ascii letter) "B").
    change GenerativeMusicCreator.PITCH_MAP with ModularChordGenerator.PITCH_MAP.
    now rewrite upper_flat_not_a_key.
  - intros [intervals Hscale].
    unfold ModularChordGenerator.get_diatonic_chords, contains, getitem.
    rewrite Hscale. apply dict_lookup_In in Hscale. simpl in Hscale.
    change (upper (String letter "b")) with (String (upper_ascii letter) "B").
    rewrite upper_flat_not_a_key.
    repeat (destruct Hscale as [[= <- <-] | Hscale]; [reflexivity|]).
    destruct Hscale.
Qed.

Lemma flat_root_names_raise_key_error_witness :
  GenerativeMusicCreator.get_scale_notes "Bb" "blues" (3, 5) = Raise (KeyError "BB")
  /\ ModularChordGenerator.get_diatonic_chords "Bb" "major" = Raise (KeyError "BB").
Proof.
  split.
  - apply (proj1 (proj2 (flat_root_names_raise_key_error "B" "blues" (3, 5)))).
  - apply (proj2 (proj2 (flat_root_names_raise_key_error "B" "major" (3, 5)))).
    vm_compute. eauto.
Defined.

(* ===================================================================== *)
(** ** Hit counts that are zero or negative                               *)
(* ===================================================================== *)

Lemma add_rhythms_skips (cycle : Float64.t) (rhythms : list Z)
    (onsets : list Float64.t) :
  PolyrhythmHarmonyGenerator.add_rhythms cycle rhythms onsets
  = PolyrhythmHarmonyGenerator.add_rhythms cycle
      (List.filter (fun num_hits => 0 <? num_hits) rhythms) onsets.
Proof.
  revert onsets. induction rhythms as [|n rest IH]; intros onsets; [reflexivity|].
  cbn [List.filter PolyrhythmHarmonyGenerator.add_rhythms].
  destruct (Z.leb_spec n 0) as [Hn | Hn].
  - replace (0 <? n) with false by (symmetry; apply Z.ltb_ge; lia). apply IH.
  - replace (0 <? n) with true by (symmetry; apply Z.ltb_lt; lia).
    cbn [PolyrhythmHarmonyGenerator.add_rhythms].
    replace (n <=? 0) with false by (symmetry; apply Z.leb_gt; lia).
    unfold mbind, result_bind, rbind.
    destruct (Float64.of_int n); [|reflexivity].
    destruct (Float64.truediv cycle _); [|reflexivity].
    destruct (PolyrhythmHarmonyGenerator.add_hits _ _ _); [apply IH | reflexivity].
Qed.

(** X23. [generate_polyrhythm_onsets] ignores hit counts that are zero or
    negative: they add no onset and cause no division by zero, so the
    result is the one for the positive counts alone, and the empty list
    when no count is positive. *)
Theorem nonpositive_hit_counts_are_skipped (rhythms : list Z)
    (cycle_duration_beats : Float64.t) :
  PolyrhythmHarmonyGenerator.generate_polyrhythm_onsets rhythms cycle_duration_beats
  = PolyrhythmHarmonyGenerator.generate_polyrhythm_onsets
      (List.filter (fun num_hits => 0 <? num_hits) rhythms) cycle_duration_beats
  /\ (Forall (fun num_hits => num_hits <= 0) rhythms ->
      PolyrhythmHarmonyGenerator.generate_polyrhythm_onsets rhythms cycle_duration_beats
      = Ok []).
Proof.
  unfold PolyrhythmHarmonyGenerator.generate_polyrhythm_onsets.
  rewrite add_rhythms_skips. split; [reflexivity|].
  intros Hall.
  replace (List.filter (fun num_hits => 0 <? num_hits) rhythms) with (@nil Z);
    [reflexivity|].
  induction Hall as [|n rest Hn Hall IH]; [reflexivity|].
  cbn [List.filter]. replace (0 <? n) with false by (symmetry; apply Z.ltb_ge; lia).
  exact IH.
Qed.

Lemma nonpositive_hit_counts_are_skipped_witness :
  PolyrhythmHarmonyGenerator.generate_polyrhythm_onsets [0; -3; 0]
    (Float64.of_decimal false 40 1)
  = Ok [].
Proof.
  apply (proj2 (nonpositive_hit_counts_are_skipped [0; -3; 0]
                  (Float64.of_decimal false 40 1))).
  repeat constructor; lia.
Defined.

(** X24. The two versions of [generate_polyrhythm_onsets] agree where both
    hit counts are positive: the two-rhythm version of
    polyrhythm_melody_generator.py returns what the list version returns
    for the list of the two counts. They differ at zero: the two-rhythm
    version divides by the count and raises [ZeroDivisionError], the list
    version skips it. *)
Theorem two_rhythm_onsets_agree (r1_hits r2_hits : Z)
    (cycle_duration_beats : Float64.t) :
  (0 < r1_hits -> 0 < r2_hits ->
   PolyrhythmMelodyGenerator.generate_polyrhythm_onsets r1_hits r2_hits
     cycle_duration_beats
   = PolyrhythmHarmonyGenerator.generate_polyrhythm_onsets [r1_hits; r2_hits]
       cycle_duration_beats)
  /\ PolyrhythmMelodyGenerator.generate_polyrhythm_onsets 0 r2_hits cycle_duration_beats
     = Raise ZeroDivisionError
  /\ PolyrhythmHarmonyGenerator.generate_polyrhythm_onsets [0; r2_hits]
       cycle_duration_beats
     = PolyrhythmHarmonyGenerator.generate_polyrhythm_onsets [r2_hits]
         cycle_duration_beats.
Proof.
  split; [|split; reflexivity].
  intros H1 H2.
  unfold PolyrhythmMelodyGenerator.generate_polyrhythm_onsets,
    PolyrhythmHarmonyGenerator.generate_polyrhythm_onsets.
  cbn [PolyrhythmHarmonyGenerator.add_rhythms].
  replace (r1_hits <=? 0) with false by (symmetry; apply Z.leb_gt; lia).
  replace (r2_hits <=? 0) with false by (symmetry; apply Z.leb_gt; lia).
  unfold mbind, result_bind, rbind.
  destruct (Float64.of_int r1_hits); [|reflexivity].
  destruct (Float64.truediv cycle_duration_beats _); [|reflexivity].
  destruct (PolyrhythmHarmonyGenerator.add_hits _ _ _); [|reflexivity].
  destruct (Float64.of_int r2_hits); [|reflexivity].
  destruct (Float64.truediv cycle_duration_beats _); [|reflexivity].
  destruct (PolyrhythmHarmonyGenerator.add_hits _ _ _); reflexivity.
Qed.

Lemma two_rhythm_onsets_agree_witness :
  PolyrhythmMelodyGenerator.generate_polyrhythm_onsets 3 2 (Float64.of_decimal false 40 1)
  = PolyrhythmHarmonyGenerator.generate_polyrhythm_onsets [3; 2]
      (Float64.of_decimal false 40 1).
Proof.
  apply (proj1 (two_rhythm_onsets_agree 3 2 (Float64.of_decimal false 40 1))); lia.
Defined.

(* ===================================================================== *)
(** ** composition.py: [add_track]                                        *)
(* ===================================================================== *)



(* ===================================================================== *)
(** ** polyrhythm_harmony_generator.py: [get_pitches_for_chord]           *)
(* ===================================================================== *)

(** X27. [get_pitches_for_chord] has no fallback: it raises [ValueError]
    for a root that is not in [PITCH_MAP] and, the root being known, for a
    quality that is not in [CHORD_INTERVALS]. Otherwise it returns one
    pitch per interval: the root position [root + 12 * octave + interval]
    for an inversion of zero or less, and for an inversion [k] up to the
    number of notes the root position with its first [k] pitches moved to
    the end, an octave up. *)
Theorem get_pitches_for_chord_rotates (root_name quality : string)
    (base_octave inversion : Z) :
  match PolyrhythmHarmonyGenerator.get_pitches_for_chord root_name quality base_octave
          inversion with
  | Ok pitches =>
      exists root intervals,
        PolyrhythmHarmonyGenerator.PITCH_MAP !! root_name = Some root
        /\ PolyrhythmHarmonyGenerator.CHORD_INTERVALS !! quality = Some intervals
        /\ length pitches = length intervals
        /\ let root_position := map (fun i => root + base_octave * 12 + i) intervals in
           (inversion <= 0 -> pitches = root_position)
           /\ (0 <= inversion <= Z.of_nat (length intervals) ->
               pitches
               = (skipn (Z.to_nat inversion) root_position
                  ++ map (fun p => p + 12)
                       (firstn (Z.to_nat inversion) root_position))%list)
  | Raise e =>
      (PolyrhythmHarmonyGenerator.PITCH_MAP !! root_name = None
       /\ e = ValueError ("Root note '" ++ root_name ++ "' not in PITCH_MAP."))
      \/ (is_Some (PolyrhythmHarmonyGenerator.PITCH_MAP !! root_name)
          /\ PolyrhythmHarmonyGenerator.CHORD_INTERVALS !! quality = None
          /\ e = ValueError ("Chord quality '" ++ quality
                             ++ "' not in CHORD_INTERVALS. Add it to the dictionary."))
  end.
Proof.
  unfold PolyrhythmHarmonyGenerator.get_pitches_for_chord, contains, getitem.
  unfold mbind, result_bind, rbind.
  destruct (PolyrhythmHarmonyGenerator.PITCH_MAP !! root_name) as [root|];
    [|left; split; reflexivity].
  destruct (PolyrhythmHarmonyGenerator.CHORD_INTERVALS !! quality) as [intervals|];
    [|right; repeat split; eauto].
  exists root, intervals. split; [reflexivity|]. split; [reflexivity|].
  split; [now rewrite invert_iter_length, length_map|].
  cbv zeta. split.
  - intros Hinv. replace (Z.to_nat inversion) with 0%nat by lia. reflexivity.
  - intros Hinv. apply invert_iter_rotate. rewrite length_map. lia.
Qed.

Lemma get_pitches_for_chord_rotates_witness :
  [55; 58; 60; 63]
  = (skipn (Z.to_nat 2) (map (fun i => 0 + 4 * 12 + i) [0; 3; 7; 10])
     ++ map (fun p => p + 12)
          (firstn (Z.to_nat 2) (map (fun i => 0 + 4 * 12 + i) [0; 3; 7; 10])))%list.
Proof.
  pose proof (get_pitches_for_chord_rotates "C" "m7" 4 2) as Hspec.
  change (PolyrhythmHarmonyGenerator.get_pitches_for_chord "C" "m7" 4 2)
    with (@Ok (list Z) [55; 58; 60; 63]) in Hspec.
  destruct Hspec as (root & intervals & Hroot & Hq & _ & _ & Hrot).
  change (PolyrhythmHarmonyGenerator.PITCH_MAP !! "C") with (Some 0) in Hroot.
  change (PolyrhythmHarmonyGenerator.CHORD_INTERVALS !! "m7") with (Some [0; 3; 7; 10])
    in Hq.
  injection Hroot as <-. injection Hq as <-.
  apply Hrot. simpl. lia.
Defined.

(* ===================================================================== *)
(** ** drum_patterns.py: [create_drum_track_from_pattern]                 *)
(* ===================================================================== *)











(** A pass over known drums prints nothing, and its result does not
    depend on what was printed before. *)
Lemma drums_loop_known (tr : Track.t)
    (measure_start_time total subdivisions_per_beat default_velocity : Z)
    (note_duration : Q) (items : list (string * list (option Z))) :
  Forall (fun item => known_drum item = true) items ->
  exists r, forall out,
    DrumPatterns.drums_loop tr measure_start_time total subdivisions_per_beat
      default_velocity note_duration items out = (r, out).
Proof.
  intros Hitems. revert tr.
  induction Hitems as [|[drum_name pattern_list] items Hknown Hitems IH]; intros tr.
  - exists (Ok tr). reflexivity.
  - cbn [DrumPatterns.drums_loop]. unfold known_drum in Hknown. cbn [fst] in Hknown.
    rewrite Hknown. cbn [negb].
    unfold mbind, mret, io_bind, io_ret, Py.bind, Py.ret, Py.lift, Py.raise.
    destruct (getitem DrumPatterns.GM_DRUM_MAP drum_name) as [pitch|e];
      [|exists (Raise e); reflexivity].
    destruct (negb (Z.of_nat (length pattern_list) =? total));
      [eexists (Raise _); reflexivity|].
    destruct (DrumPatterns.pattern_loop tr pitch measure_start_time subdivisions_per_beat
                default_velocity note_duration 0 pattern_list) as [tr1|e];
      [|exists (Raise e); reflexivity].
    destruct (IH tr1) as (r & Hr). exists r. exact Hr.
Qed.

Lemma filter_known (items : list (string * list (option Z))) :
  Forall (fun item => known_drum item = true) (List.filter known_drum items).
Proof. apply List.Forall_forall. intros item Hin. now apply filter_In in Hin. Qed.

Lemma drums_loop_skips_unknown (tr tr' : Track.t)
    (measure_start_time total subdivisions_per_beat default_velocity : Z)
    (note_duration : Q) (items : list (string * list (option Z))) :
  DrumPatterns.drums_loop tr measure_start_time total subdivisions_per_beat
    default_velocity note_duration (List.filter known_drum items) []
  = (Ok tr', []) ->
  forall out,
    DrumPatterns.drums_loop tr measure_start_time total subdivisions_per_beat
      default_velocity note_duration items out
    = (Ok tr', (out ++ skipped_warnings items)%list).
Proof.
  revert tr. induction items as [|[drum_name pattern_list] items IH]; intros tr.
  - simpl. unfold mret, io_ret, Py.ret. intros [= <-] out.
    unfold skipped_warnings. simpl. now rewrite app_nil_r.
  - intros Hrun out. cbn [List.filter] in Hrun.
    assert (Hwarn : skipped_warnings ((drum_name, pattern_list) :: items)
                    = if known_drum (drum_name, pattern_list)
                      then skipped_warnings items
                      else drum_warning drum_name :: skipped_warnings items).
    { unfold skipped_warnings. cbn [List.filter].
      destruct (known_drum (drum_name, pattern_list)); reflexivity. }
    rewrite Hwarn. clear Hwarn.
    destruct (known_drum (drum_name, pattern_list)) eqn:Hknown;
      unfold known_drum in Hknown; cbn [fst] in Hknown;
      cbn [DrumPatterns.drums_loop] in *; rewrite Hknown in *; cbn [negb] in *.
    + revert Hrun.
      unfold mbind, mret, io_bind, io_ret, Py.bind, Py.ret, Py.lift, Py.raise.
      destruct (getitem DrumPatterns.GM_DRUM_MAP drum_name) as [pitch|e];
        [|discriminate].
      destruct (negb (Z.of_nat (length pattern_list) =? total)); [discriminate|].
      destruct (DrumPatterns.pattern_loop tr pitch measure_start_time
                  subdivisions_per_beat default_velocity note_duration 0 pattern_list)
        as [tr1|e]; [|discriminate].
      intros Hrest. now apply IH.
    + unfold mbind, io_bind, Py.bind, Py.print.
      rewrite (IH tr Hrun). unfold drum_warning.
      now rewrite <- app_assoc.
Qed.

Lemma measures_loop_skips_unknown (tr tr' : Track.t)
    (patterns : list (string * list (option Z)))
    (beats_per_measure total subdivisions_per_beat default_velocity : Z)
    (note_duration : Q) (measures : list Z) :
  DrumPatterns.measures_loop tr (List.filter known_drum patterns) beats_per_measure total
    subdivisions_per_beat default_velocity note_duration measures []
  = (Ok tr', []) ->
  forall out,
    DrumPatterns.measures_loop tr patterns beats_per_measure total subdivisions_per_beat
      default_velocity note_duration measures out
    = (Ok tr',
       (out ++ concat (repeat (skipped_warnings patterns) (length measures)))%list).
Proof.
  revert tr. induction measures as [|measure measures IH]; intros tr.
  - simpl. unfold mret, io_ret, Py.ret. intros [= <-] out. now rewrite app_nil_r.
  - cbn [DrumPatterns.measures_loop]. cbv zeta. unfold mbind, io_bind, Py.bind.
    destruct (drums_loop_known tr (measure * beats_per_measure) total
                subdivisions_per_beat default_velocity note_duration
                (List.filter known_drum patterns) (filter_known patterns)) as (r & Hr).
    rewrite Hr. destruct r as [tr1|e]; [|discriminate].
    intros Hrest out.
    rewrite (drums_loop_skips_unknown tr tr1 _ _ _ _ _ _ (Hr [])).
    rewrite (IH tr1 Hrest). simpl. now rewrite <- app_assoc.
Qed.

(** X29. A pattern under a drum name that is not in [GM_DRUM_MAP] changes
    nothing but the output: when the function gives a track for the dict
    without such items, it gives the same track for the whole dict, their
    patterns being neither checked nor played, and prints one warning per
    unknown name in every measure. *)
Theorem unknown_drums_are_skipped (name : string)
    (patterns : list (string * list (option Z)))
    (measures beats_per_measure subdivisions_per_beat default_velocity : Z)
    (note_duration : Q) (tr : Track.t) (out : list string) :
  DrumPatterns.create_drum_track_from_pattern name (List.filter known_drum patterns)
    measures beats_per_measure subdivisions_per_beat default_velocity note_duration []
  = (Ok tr, []) ->
  DrumPatterns.create_drum_track_from_pattern name patterns measures beats_per_measure
    subdivisions_per_beat default_velocity note_duration out
  = (Ok tr,
     (out ++ concat (repeat (skipped_warnings patterns) (Z.to_nat measures)))%list).
Proof.
  unfold DrumPatterns.create_drum_track_from_pattern.
  unfold mbind, mret, io_bind, io_ret, Py.bind, Py.ret, Py.lift, Py.raise.
  destruct (negb ((0 <=? default_velocity) && (default_velocity <=? 127)));
    [discriminate|].
  destruct (Track.init name 0 DrumPatterns.DRUM_CHANNEL 64 100) as [tr0|e];
    [|discriminate].
  destruct (subdivisions_per_beat =? 0); [discriminate|].
  intros Hrun. rewrite (measures_loop_skips_unknown _ _ _ _ _ _ _ _ _ Hrun).
  unfold range. rewrite length_map, length_seq. now rewrite Z.sub_0_r.
Qed.

Lemma unknown_drums_are_skipped_witness :
  DrumPatterns.create_drum_track_from_pattern "Drums"
    [("kick", [Some 1; None]); ("gong", [Some 1; Some 1; Some 1])] 2 1 2 100 (1 # 10) []
  = (Ok (Track.mk "Drums" 0 9
           [ENote (Note.mk 36 (0 # 2) (1 # 10) 100);
            ENote (Note.mk 36 (2 # 2) (1 # 10) 100)] 64 100),
     ([] ++ concat (repeat (skipped_warnings
                              [("kick", [Some 1; None]);
                               ("gong", [Some 1; Some 1; Some 1])])
                      (Z.to_nat 2)))%list).
Proof.
  apply (unknown_drums_are_skipped "Drums"
           [("kick", [Some 1; None]); ("gong", [Some 1; Some 1; Some 1])]
           2 1 2 100 (1 # 10)).
  vm_compute. reflexivity.
Defined.



(* ===================================================================== *)
(** * Beat values as binary64 floats                                      *)
(* ===================================================================== *)

(* ===================================================================== *)
(** ** The order of floats                                                *)
(* ===================================================================== *)

Ltac order_cases :=
  repeat match goal with
         | |- context [(?a <? ?b)%Z] => destruct (Z.ltb_spec a b)
         | |- context [(?a =? ?b)%Z] => destruct (Z.eqb_spec a b)
         | H : context [(?a <? ?b)%Z] |- _ => destruct (Z.ltb_spec a b)
         | H : context [(?a =? ?b)%Z] |- _ => destruct (Z.eqb_spec a b)
         end;
  simpl in *; try reflexivity; try discriminate; try lia.

(** Between two floats that are not NaN, [<] and [<=] are the order of
    the ranks. *)
Lemma compare_rank (x y : Float64.t) :
  Float64.is_nan x = false -> Float64.is_nan y = false ->
  Float64.ltb x y = Float64.rank_ltb (Float64.rank x) (Float64.rank y)
  /\ Float64.leb x y = negb (Float64.rank_ltb (Float64.rank y) (Float64.rank x)).
Proof.
  unfold Float64.ltb, Float64.leb, SFltb, SFleb, Float64.rank_ltb.
  destruct x as [sx | sx | | sx mx ex], y as [sy | sy | | sy my ey];
    try discriminate; intros _ _;
    try (destruct sx); try (destruct sy); simpl; try (split; reflexivity).
  - change (Pos.compare_cont Eq mx my) with (mx ?= my)%positive.
    destruct (Z.compare_spec ex ey), (Pos.compare_spec mx my); subst; simpl;
      split; order_cases.
  - change (Pos.compare_cont Eq mx my) with (mx ?= my)%positive.
    destruct (Z.compare_spec ex ey), (Pos.compare_spec mx my); subst; simpl;
      split; order_cases.
Qed.

Lemma rank_ltb_spec (a b : Z * Z * Z) :
  Float64.rank_ltb a b = true
  <-> a.1.1 < b.1.1
      \/ (a.1.1 = b.1.1 /\ (a.1.2 < b.1.2 \/ (a.1.2 = b.1.2 /\ a.2 < b.2))).
Proof.
  unfold Float64.rank_ltb.
  rewrite orb_true_iff, andb_true_iff, orb_true_iff, andb_true_iff.
  rewrite !Z.ltb_lt, !Z.eqb_eq. reflexivity.
Qed.

Lemma rank_ltb_asym (a b : Z * Z * Z) :
  Float64.rank_ltb a b = true -> Float64.rank_ltb b a = false.
Proof.
  intros Hab. apply not_true_iff_false. rewrite rank_ltb_spec in *. lia.
Qed.

Lemma rank_not_after_trans (a b c : Z * Z * Z) :
  Float64.rank_ltb b a = false -> Float64.rank_ltb c b = false ->
  Float64.rank_ltb c a = false.
Proof.
  rewrite <- !not_true_iff_false, !rank_ltb_spec. lia.
Qed.

(** [0 <= x] spelled out. *)
Lemma nonneg_cases (x : Float64.t) :
  OnFloats.nonneg x = true ->
  match x with
  | S754_zero _ | S754_finite false _ _ | S754_infinity false => True
  | _ => False
  end.
Proof. destruct x as [s | s | | s m e]; try destruct s; simpl; auto; discriminate. Qed.

(** What passes the guard [start_time < 0] is NaN or not negative. *)
Lemma not_below_zero (x : Float64.t) :
  Float64.ltb x Float64.zero = false ->
  Float64.is_nan x = true \/ OnFloats.nonneg x = true.
Proof. destruct x as [s | s | | s m e]; try destruct s; simpl; auto; discriminate. Qed.

(* ===================================================================== *)
(** ** Signs of products and sums, and [int()]                            *)
(* ===================================================================== *)

Lemma round_aux_sign (sx : bool) (mx ex : Z) (lx : location) :
  match binary_round_aux Float64.prec Float64.emax sx mx ex lx with
  | S754_zero s | S754_finite s _ _ | S754_infinity s => s = sx
  | S754_nan => True
  end.
Proof.
  unfold binary_round_aux.
  destruct (shr_fexp _ _ _ _ _) as [mrs' e'].
  destruct (shr_fexp _ _ _ _ _) as [mrs'' e''].
  destruct (shr_m mrs''); try exact I; try reflexivity.
  destruct (e'' <=? _); reflexivity.
Qed.

Lemma round_sign (sx : bool) (mx : positive) (ex : Z) :
  match binary_round Float64.prec Float64.emax sx mx ex with
  | S754_zero s | S754_finite s _ _ | S754_infinity s => s = sx
  | S754_nan => True
  end.
Proof.
  unfold binary_round. destruct (shl_align _ _ _) as [mz ez]. apply round_aux_sign.
Qed.

Lemma mul_nonneg (x y : Float64.t) :
  OnFloats.nan_or_nonneg x -> OnFloats.nan_or_nonneg y ->
  OnFloats.nan_or_nonneg (Float64.mul x y).
Proof.
  unfold Float64.mul, SFmul.
  destruct x as [sx | sx | | sx mx ex], y as [sy | sy | | sy my ey];
    try destruct sx; try destruct sy; simpl; try tauto.
  intros _ _.
  pose proof (round_aux_sign false (Zpos (mx * my)) (ex + ey) loc_Exact) as Hsign.
  simpl in Hsign.
  destruct (binary_round_aux _ _ _ _ _ _) as [s | s | | s m e]; subst; exact I.
Qed.

Lemma add_nonneg (x y : Float64.t) :
  OnFloats.nan_or_nonneg x -> OnFloats.nan_or_nonneg y ->
  OnFloats.nan_or_nonneg (Float64.add x y).
Proof.
  unfold Float64.add, SFadd.
  destruct x as [sx | sx | | sx mx ex], y as [sy | sy | | sy my ey];
    try destruct sx; try destruct sy; simpl; try tauto.
  intros _ _.
  destruct (shl_align mx ex (Z.min ex ey)) as [ax ?].
  destruct (shl_align my ey (Z.min ex ey)) as [ay ?]. simpl.
  pose proof (round_sign false (ax + ay) (Z.min ex ey)) as Hsign.
  destruct (binary_round _ _ _ _ _) as [s | s | | s m e]; subst; exact I.
Qed.

Lemma of_int_nonneg (i : Z) (x : Float64.t) :
  0 <= i -> Float64.of_int i = Ok x -> OnFloats.nan_or_nonneg x.
Proof.
  intros Hi. unfold Float64.of_int, binary_normalize.
  destruct i as [|p|p]; [intros [= <-]; exact I | | lia].
  pose proof (round_sign false p 0) as Hsign.
  destruct (binary_round _ _ _ _ _) as [s | s | | s m e]; intros [= <-]; subst; exact I.
Qed.

(** [int()] of a float that is not negative: the largest integer that
    is not above it. *)
Lemma to_int_floor (x : Float64.t) (k : Z) :
  OnFloats.nan_or_nonneg x -> Float64.to_int x = Ok k ->
  0 <= k /\ k = Qfloor (Float64.to_Q x).
Proof.
  destruct x as [s | s | | s m e]; try destruct s; simpl; try tauto; try discriminate;
    intros _ [= <-]; try (split; [lia | reflexivity]).
  destruct (Z.leb_spec 0 e) as [He | He].
  - split; [|now rewrite Qfloor_Z].
    apply Z.mul_nonneg_nonneg; [lia|]. apply Z.pow_nonneg. lia.
  - assert (Hpow : 0 < 2 ^ (- e)) by (apply Z.pow_pos_nonneg; lia).
    split; [apply Z.div_pos; lia|].
    unfold Qfloor. now rewrite Z2Pos.id.
Qed.

(** The tick of a beat value [x] with [0 <= x], for a [ticks_per_beat]
    that is not negative: the float product, rounded down. *)
Lemma float_tick_floor (ticks_per_beat : Z) (x : Float64.t) (k : Z) :
  0 <= ticks_per_beat -> OnFloats.nan_or_nonneg x ->
  Binary64.MidiExporter.tick ticks_per_beat x = Ok k ->
  exists factor,
    Float64.of_int ticks_per_beat = Ok factor
    /\ 0 <= k
    /\ k = Qfloor (Float64.to_Q (Float64.mul x factor)).
Proof.
  intros Htpb Hx. unfold Binary64.MidiExporter.tick, mbind, result_bind, rbind.
  destruct (Float64.of_int ticks_per_beat) as [factor|] eqn:Hf; [|discriminate].
  intros Hint. exists factor. split; [reflexivity|].
  apply to_int_floor; [|exact Hint].
  apply mul_nonneg; [exact Hx | now apply (of_int_nonneg ticks_per_beat)].
Qed.

Lemma nonneg_nan_or_nonneg (x : Float64.t) :
  OnFloats.nonneg x = true -> OnFloats.nan_or_nonneg x.
Proof. intros H. apply nonneg_cases in H. destruct x as [s|s| |s m e]; try destruct s; tauto. Qed.

(* ===================================================================== *)
(** ** track.py on floats: the sort in [add_element]                      *)
(* ===================================================================== *)

Lemma float_start_ltb_asym (x y : Binary64.element) :
  OnFloats.start_ltb x y = true -> OnFloats.start_ltb y x = false.
Proof. apply rank_ltb_asym. Qed.

Lemma float_start_not_after_trans (x y z : Binary64.element) :
  not_after OnFloats.start_ltb x y -> not_after OnFloats.start_ltb y z ->
  not_after OnFloats.start_ltb x z.
Proof. unfold not_after, OnFloats.start_ltb. apply rank_not_after_trans. Qed.

Lemma float_by_start_time_ok (x y : Binary64.element) :
  OnFloats.has_number x = true -> OnFloats.has_number y = true ->
  Binary64.Track.by_start_time x y = Ok (OnFloats.start_ltb x y).
Proof.
  unfold OnFloats.has_number, Binary64.Track.by_start_time, OnFloats.start_ltb,
    OnFloats.start_key.
  destruct (Binary64.element_start_time x) as [a|], (Binary64.element_start_time y) as [b|];
    try discriminate.
  intros Ha Hb. apply negb_true_iff in Ha, Hb.
  now rewrite (proj1 (compare_rank a b Ha Hb)).
Qed.

Lemma float_sorted_by_start_le (l : list Binary64.element) :
  Forall (fun x => OnFloats.has_number x = true) l ->
  StronglySorted OnFloats.start_le (sorted_by OnFloats.start_ltb l).
Proof.
  intros Hl.
  eapply (StronglySorted_on (not_after OnFloats.start_ltb) OnFloats.start_le
            (fun x => OnFloats.has_number x = true)).
  - unfold OnFloats.has_number, not_after, OnFloats.start_ltb, OnFloats.start_le,
      OnFloats.start_key. intros x y.
    destruct (Binary64.element_start_time x) as [a|],
      (Binary64.element_start_time y) as [b|]; try discriminate.
    intros Ha Hb Hnot. apply negb_true_iff in Ha, Hb.
    rewrite (proj2 (compare_rank a b Ha Hb)), Hnot. reflexivity.
  - eapply Permutation_Forall; [symmetry; apply sorted_by_perm | exact Hl].
  - apply sorted_by_sorted;
      [apply float_start_ltb_asym | apply float_start_not_after_trans].
Qed.

(** One call of [add_element] on elements whose start times are numbers:
    it returns, and the list it leaves is sorted and holds the old
    elements and the new one. *)
Lemma float_add_element_sorted (tr : Binary64.Track.t) (e : Binary64.element) :
  Forall (fun x => OnFloats.has_number x = true) (Binary64.Track.elements tr ++ [e]) ->
  Binary64.Track.add_element tr e
  = (Binary64.Track.with_elements tr
       (sorted_by OnFloats.start_ltb (Binary64.Track.elements tr ++ [e])), Ok tt)
  /\ StronglySorted OnFloats.start_le
       (sorted_by OnFloats.start_ltb (Binary64.Track.elements tr ++ [e]))
  /\ Permutation (sorted_by OnFloats.start_ltb (Binary64.Track.elements tr ++ [e]))
       (Binary64.Track.elements tr ++ [e]).
Proof.
  intros Hall. unfold Binary64.Track.add_element.
  rewrite (sort_ok Binary64.Track.by_start_time OnFloats.start_ltb OnFloats.has_number
             float_by_start_time_ok _ Hall).
  split; [reflexivity|]. split.
  - now apply float_sorted_by_start_le.
  - apply sorted_by_perm.
Qed.

(** C9, on the code. As long as every start time is a number that is not
    NaN, every [add_element] returns normally and leaves a list that holds
    exactly the elements that were there and the new one, sorted ascending
    by start time ([a.start_time <= b.start_time] for [a] before [b]);
    the other attributes of the track are not touched. *)
Theorem add_element_keeps_track_sorted (tr : Binary64.Track.t)
    (es : list Binary64.element) :
  Forall (fun x => OnFloats.has_number x = true) (Binary64.Track.elements tr ++ es) ->
  length (Binary64.Track.add_all tr es) = length es
  /\ forall i r,
       Binary64.Track.add_all tr es !! i = Some r ->
       r.2 = Ok tt
       /\ StronglySorted OnFloats.start_le (Binary64.Track.elements r.1)
       /\ Permutation (Binary64.Track.elements r.1)
            (Binary64.Track.elements tr ++ take (S i) es)
       /\ Binary64.Track.with_elements r.1 [] = Binary64.Track.with_elements tr [].
Proof.
  revert tr. induction es as [|e es IH]; intros tr Hall.
  - split; [reflexivity|]. intros i r Hr. discriminate.
  - cbn [Binary64.Track.add_all]. cbv zeta.
    assert (Hhead : Forall (fun x => OnFloats.has_number x = true)
                      (Binary64.Track.elements tr ++ [e])).
    { apply Forall_app in Hall as [Htr Hes]. apply Forall_app. split; [exact Htr|].
      inversion Hes; subst. now repeat constructor. }
    destruct (float_add_element_sorted tr e Hhead) as (Hadd & Hsorted & Hperm).
    rewrite Hadd. cbn [fst].
    set (tr' := Binary64.Track.with_elements tr _) in *.
    destruct (IH tr') as [Hlen Hrest].
    { unfold tr'. cbn [Binary64.Track.with_elements Binary64.Track.elements].
      apply Forall_app in Hall as [Htr Hes]. inversion Hes as [|? ? He Hes']; subst.
      apply Forall_app. split; [|exact Hes'].
      eapply Permutation_Forall; [symmetry; exact Hperm | exact Hhead]. }
    split; [simpl; now rewrite Hlen|].
    intros [|i] r Hr.
    + injection Hr as <-. cbn [fst snd]. split; [reflexivity|].
      unfold tr'. cbn [Binary64.Track.with_elements Binary64.Track.elements].
      split; [exact Hsorted|]. split; [exact Hperm | reflexivity].
    + destruct (Hrest i r Hr) as (Hok & Hs & Hp & Hfields).
      split; [exact Hok|]. split; [exact Hs|]. split.
      * rewrite Hp. unfold tr'.
        cbn [Binary64.Track.with_elements Binary64.Track.elements].
        rewrite Hperm. cbn [take]. now rewrite <- app_assoc.
      * rewrite Hfields. reflexivity.
Qed.

Lemma add_element_keeps_track_sorted_witness :
  let tr := Binary64.Track.mk "Lead" 0 0
              [Binary64.ENote (Binary64.Note.mk 60 (Float64.of_decimal false 15 1)
                                 (Float64.of_decimal false 5 1) 100)] 64 100 in
  let es := [Binary64.ERest (Binary64.Rest.mk (S754_infinity false)
                               (Float64.of_decimal false 1 0));
             Binary64.ENote (Binary64.Note.mk 64 (S754_zero true)
                               (Float64.of_decimal false 1 0) 100)] in
  length (Binary64.Track.add_all tr es) = length es
  /\ forall i r,
       Binary64.Track.add_all tr es !! i = Some r ->
       r.2 = Ok tt
       /\ StronglySorted OnFloats.start_le (Binary64.Track.elements r.1)
       /\ Permutation (Binary64.Track.elements r.1)
            (Binary64.Track.elements tr ++ take (S i) es)
       /\ Binary64.Track.with_elements r.1 [] = Binary64.Track.with_elements tr [].
Proof.
  intros tr es. apply (add_element_keeps_track_sorted tr es).
  repeat constructor.
Defined.

(** C9, where it fails. The constructor takes a NaN start time, because
    [start_time < 0] is false for it. Added to a track that holds a note
    at beat 1.0, such a note stays behind it: [add_element] returns
    normally, but neither [1.0 <= nan] nor [nan <= 1.0] holds, so this
    list is not in ascending order, and no order of the two would be. *)
Theorem nan_start_time_not_sorted_counterexample :
  let first := Binary64.Note.mk 60 (Float64.of_decimal false 1 0)
                 (Float64.of_decimal false 1 0) 100 in
  let tr := Binary64.Track.mk "Lead" 0 0 [Binary64.ENote first] 64 100 in
  exists late,
    Binary64.Note.init 62 S754_nan (Float64.of_decimal false 1 0) 100 = Ok late
    /\ Binary64.Track.add_element tr (Binary64.ENote late)
       = (Binary64.Track.with_elements tr [Binary64.ENote first; Binary64.ENote late],
          Ok tt)
    /\ ~ StronglySorted OnFloats.start_le [Binary64.ENote first; Binary64.ENote late]
    /\ ~ StronglySorted OnFloats.start_le [Binary64.ENote late; Binary64.ENote first].
Proof.
  intros first tr. eexists. split; [reflexivity|]. split; [reflexivity|].
  split; intros Hs; apply StronglySorted_inv in Hs as [_ Hhead];
    apply Forall_inv in Hhead; discriminate Hhead.
Qed.

(* ===================================================================== *)
(** ** midi_exporter.py on floats: ticks                                  *)
(* ===================================================================== *)

(** The loop of lines 55-80 element by element. The warn-and-skip branch
    is never taken: a chord without notes fails at line 56. *)
Lemma float_collect_events_spec (self : MidiExporter.t) (tr : Binary64.Track.t)
    (els : list Binary64.element) (evs : list MidiExporter.event) (out : list string) :
  Binary64.MidiExporter.collect_events self tr els evs out
  = match for_list (OnFloats.element_events (MidiExporter.ticks_per_beat self)
                      (Binary64.Track.channel tr)) els with
    | Ok per_element => (Ok (evs ++ concat per_element)%list, out)
    | Raise e => (Raise e, out)
    end.
Proof.
  revert evs. induction els as [|x els IH]; intros evs.
  - simpl. unfold mret, io_ret, Py.ret. now rewrite app_nil_r.
  - cbn [Binary64.MidiExporter.collect_events for_list].
    unfold mbind, io_bind, result_bind, Py.bind, Py.lift, rbind.
    destruct x as [n | c | r]; cbn [Binary64.element_start_time OnFloats.element_events
      Binary64.MidiExporter.start_tick].
    + unfold OnFloats.sounding, mbind, result_bind, rbind.
      destruct (Binary64.MidiExporter.tick _ (Binary64.Note.start_time n)) as [a|e];
        [|reflexivity].
      destruct (Binary64.MidiExporter.tick _ (Float64.add _ _)) as [b|e]; [|reflexivity].
      rewrite IH.
      destruct (for_list _ els) as [rest|e]; [|reflexivity].
      cbn [concat flat_map]. unfold OnFloats.note_events.
      rewrite app_nil_r, <- app_assoc. reflexivity.
    + unfold Binary64.Chord.start_time, Binary64.Chord.duration.
      destruct (Binary64.Chord.notes c) as [|n0 ns] eqn:Hnotes;
        cbn [Binary64.MidiExporter.start_tick]; [reflexivity|].
      unfold OnFloats.sounding, mbind, result_bind, rbind.
      destruct (Binary64.MidiExporter.tick _ (Binary64.Note.start_time n0)) as [a|e];
        [|reflexivity].
      destruct (Binary64.MidiExporter.tick _ (Float64.add _ _)) as [b|e]; [|reflexivity].
      rewrite IH.
      destruct (for_list _ els) as [rest|e]; [|reflexivity].
      cbn [concat]. rewrite <- app_assoc. reflexivity.
    + unfold mbind, result_bind, rbind.
      destruct (Binary64.MidiExporter.tick _ (Binary64.Rest.start_time r)) as [a|e];
        [|reflexivity].
      rewrite IH.
      destruct (for_list _ els) as [rest|e]; reflexivity.
Qed.

(** C4, as the code has it. The events collected for a track are, element
    by element, NoteOn at [int(start * ticks_per_beat)] and NoteOff at
    [int((start + duration) * ticks_per_beat)], for a note with its own
    times and for every note of a chord with the times of the chord; the
    product and the sum are binary64 operations. For a beat value that is
    not negative and a [ticks_per_beat] that is not negative the tick is
    the float product rounded down, not rounded to nearest. *)
Theorem ticks_are_rounded_down (self : MidiExporter.t) (tr : Binary64.Track.t)
    (out : list string) :
  Binary64.MidiExporter.collect_events self tr (Binary64.Track.elements tr) [] out
  = match for_list (OnFloats.element_events (MidiExporter.ticks_per_beat self)
                      (Binary64.Track.channel tr)) (Binary64.Track.elements tr) with
    | Ok per_element => (Ok (concat per_element), out)
    | Raise e => (Raise e, out)
    end
  /\ forall x k,
       0 <= MidiExporter.ticks_per_beat self ->
       OnFloats.nonneg x = true ->
       Binary64.MidiExporter.tick (MidiExporter.ticks_per_beat self) x = Ok k ->
       exists factor,
         Float64.of_int (MidiExporter.ticks_per_beat self) = Ok factor
         /\ 0 <= k
         /\ k = Qfloor (Float64.to_Q (Float64.mul x factor)).
Proof.
  split; [apply float_collect_events_spec|].
  intros x k Htpb Hx. apply float_tick_floor; [exact Htpb | now apply nonneg_nan_or_nonneg].
Qed.

Lemma ticks_are_rounded_down_witness :
  exists factor,
    Float64.of_int 480 = Ok factor
    /\ 0 <= 383
    /\ 383 = Qfloor (Float64.to_Q
                       (Float64.mul
                          (Float64.add (Float64.of_decimal false 7 1)
                             (Float64.of_decimal false 1 1)) factor)).
Proof.
  apply (proj2 (ticks_are_rounded_down (MidiExporter.mk 480)
                  (Binary64.Track.mk "Lead" 0 0 [] 64 100) [])
           (Float64.add (Float64.of_decimal false 7 1) (Float64.of_decimal false 1 1))
           383).
  - simpl. lia.
  - vm_compute. reflexivity.
  - vm_compute. reflexivity.
Defined.

(** C4, where the claim differs. A note from beat 1/512 for one beat, at
    480 ticks per beat: the products are 0.9375 and 480.9375, both exact
    in binary64; the code gives the ticks 0 and 480, rounding to nearest
    gives 1 and 481. In a chord each note gets the ticks of the chord's
    times, not of its own: a note that starts at beat 1.0 inside a chord
    that starts at beat 0.0 is switched on at tick 0, not at tick 480. *)
Theorem tick_is_not_round_counterexample :
  let self := MidiExporter.mk 480 in
  let tr := Binary64.Track.mk "Lead" 0 0 [] 64 100 in
  let one := Float64.of_decimal false 1 0 in
  let early := S754_finite false 4503599627370496 (-61) in
  let n := Binary64.Note.mk 60 early one 100 in
  let low := Binary64.Note.mk 60 Float64.zero one 100 in
  let high := Binary64.Note.mk 64 one one 100 in
  Binary64.Note.init 60 early one 100 = Ok n
  /\ Float64.to_Q early == 1 # 512
  /\ Binary64.MidiExporter.collect_events self tr [Binary64.ENote n] [] []
     = (Ok [(0, Mido.note_on 60 100 0 0); (480, Mido.note_off 60 0 0 0)], [])
  /\ (exists factor,
        Float64.of_int 480 = Ok factor
        /\ Float64.to_Q (Float64.mul early factor) == 9375 # 10000
        /\ Py.round (Float64.to_Q (Float64.mul early factor)) = 1
        /\ Float64.to_Q (Float64.mul (Float64.add early one) factor) == 4809375 # 10000
        /\ Py.round (Float64.to_Q (Float64.mul (Float64.add early one) factor)) = 481)
  /\ Binary64.Chord.notes (Binary64.Chord.init [high; low]) = [low; high]
  /\ Binary64.MidiExporter.collect_events self tr
       [Binary64.EChord (Binary64.Chord.init [high; low])] [] []
     = (Ok [(0, Mido.note_on 60 100 0 0); (480, Mido.note_off 60 0 0 0);
            (0, Mido.note_on 64 100 0 0); (480, Mido.note_off 64 0 0 0)], [])
  /\ Binary64.MidiExporter.tick 480 (Binary64.Note.start_time high) = Ok 480.
Proof.
  cbv zeta. split; [reflexivity|]. split; [vm_compute; reflexivity|].
  split; [vm_compute; reflexivity|]. split.
  - match eval vm_compute in (Float64.of_int 480) with
    | Ok ?factor => exists factor
    end.
    repeat split; vm_compute; reflexivity.
  - repeat split; vm_compute; reflexivity.
Qed.

(* ===================================================================== *)
(** ** Chords and tracks on floats                                        *)
(* ===================================================================== *)

Lemma float_by_pitch_asym (x y : Binary64.Note.t) :
  Binary64.Chord.by_pitch x y = true -> Binary64.Chord.by_pitch y x = false.
Proof. unfold Binary64.Chord.by_pitch. rewrite Z.ltb_lt, Z.ltb_ge. lia. Qed.

Lemma float_by_pitch_not_after_trans (x y z : Binary64.Note.t) :
  not_after Binary64.Chord.by_pitch x y -> not_after Binary64.Chord.by_pitch y z ->
  not_after Binary64.Chord.by_pitch x z.
Proof. unfold not_after, Binary64.Chord.by_pitch. rewrite !Z.ltb_ge. lia. Qed.

Lemma float_sorted_by_pitch (notes : list Binary64.Note.t) :
  StronglySorted OnFloats.pitch_le (sorted_by Binary64.Chord.by_pitch notes).
Proof.
  eapply (StronglySorted_on (not_after Binary64.Chord.by_pitch) OnFloats.pitch_le
            (fun _ => True)).
  - intros x y _ _. unfold not_after, Binary64.Chord.by_pitch, OnFloats.pitch_le.
    now rewrite Z.ltb_ge.
  - apply List.Forall_forall. trivial.
  - apply sorted_by_sorted;
      [apply float_by_pitch_asym | apply float_by_pitch_not_after_trans].
Qed.

(** X4. The times of a chord are those of its lowest note: [Chord(notes)]
    reports the start time and duration of a note of minimal pitch, and
    the exporter gives every note of the chord the two ticks computed
    from these times, whatever times the other notes were built with; it
    raises what the computation of these two ticks raises. *)
Theorem chord_scheduled_at_lowest_note (self : MidiExporter.t) (tr : Binary64.Track.t)
    (notes : list Binary64.Note.t) (evs : list MidiExporter.event) (out : list string) :
  notes <> [] ->
  exists n0,
    In n0 notes
    /\ (forall m, In m notes -> Binary64.Note.pitch n0 <= Binary64.Note.pitch m)
    /\ Binary64.Chord.start_time (Binary64.Chord.init notes)
       = Some (Binary64.Note.start_time n0)
    /\ Binary64.Chord.duration (Binary64.Chord.init notes)
       = Some (Binary64.Note.duration n0)
    /\ Binary64.MidiExporter.collect_events self tr
         [Binary64.EChord (Binary64.Chord.init notes)] evs out
       = match OnFloats.sounding (MidiExporter.ticks_per_beat self)
                 (Binary64.Track.channel tr) (Binary64.Note.start_time n0)
                 (Binary64.Note.duration n0)
                 (Binary64.Chord.notes (Binary64.Chord.init notes)) with
         | Ok events => (Ok (evs ++ events)%list, out)
         | Raise e => (Raise e, out)
         end.
Proof.
  intros Hne.
  pose proof (sorted_by_perm Binary64.Chord.by_pitch notes) as Hperm.
  pose proof (float_sorted_by_pitch notes) as Hsorted.
  rewrite float_collect_events_spec. cbn [for_list OnFloats.element_events].
  unfold Binary64.Chord.start_time, Binary64.Chord.duration, Binary64.Chord.init.
  cbn [Binary64.Chord.notes].
  destruct (sorted_by Binary64.Chord.by_pitch notes) as [|n0 rest] eqn:Hs.
  { apply Permutation_nil in Hperm. contradiction. }
  exists n0. split; [|split; [|split; [|split]]]; try reflexivity.
  - apply (Permutation_in' (eq_refl n0) Hperm). now left.
  - intros m Hm. apply (Permutation_in' (eq_refl m) (Permutation_sym Hperm)) in Hm.
    inversion Hsorted as [|? ? _ Hall]; subst.
    destruct Hm as [<- | Hm]; [lia|].
    rewrite List.Forall_forall in Hall. now apply Hall.
  - unfold mbind, result_bind, rbind.
    destruct (OnFloats.sounding _ _ _ _ _) as [events|e]; [|reflexivity].
    cbn [concat]. now rewrite app_nil_r.
Qed.

Lemma chord_scheduled_at_lowest_note_witness :
  let notes := [Binary64.Note.mk 67 (Float64.of_decimal false 2 0)
                  (Float64.of_decimal false 1 0) 80;
                Binary64.Note.mk 60 (Float64.of_decimal false 7 1)
                  (Float64.of_decimal false 1 1) 80] in
  exists n0,
    In n0 notes
    /\ (forall m, In m notes -> Binary64.Note.pitch n0 <= Binary64.Note.pitch m)
    /\ Binary64.Chord.start_time (Binary64.Chord.init notes)
       = Some (Binary64.Note.start_time n0)
    /\ Binary64.Chord.duration (Binary64.Chord.init notes)
       = Some (Binary64.Note.duration n0)
    /\ Binary64.MidiExporter.collect_events (MidiExporter.mk 480)
         (Binary64.Track.mk "Pad" 0 0 [] 64 100)
         [Binary64.EChord (Binary64.Chord.init notes)] [] []
       = match OnFloats.sounding 480 0 (Binary64.Note.start_time n0)
                 (Binary64.Note.duration n0)
                 (Binary64.Chord.notes (Binary64.Chord.init notes)) with
         | Ok events => (Ok ([] ++ events)%list, [])
         | Raise e => (Raise e, [])
         end.
Proof.
  intros notes.
  apply (chord_scheduled_at_lowest_note (MidiExporter.mk 480)
           (Binary64.Track.mk "Pad" 0 0 [] 64 100) notes [] []).
  discriminate.
Defined.

(** X7. [Track.add_notes] with start times that are numbers, none of them
    NaN, in the track and in the notes: it never fails, every note is
    inserted, none is lost, and after at least one insertion the track is
    in ascending order of start time. *)
Theorem add_notes_inserts_all (tr : Binary64.Track.t) (notes : list Binary64.Note.t) :
  Forall (fun x => OnFloats.has_number x = true) (Binary64.Track.elements tr) ->
  Forall (fun n => Float64.is_nan (Binary64.Note.start_time n) = false) notes ->
  exists tr',
    Binary64.Track.add_notes tr notes = (tr', Ok tt)
    /\ Permutation (Binary64.Track.elements tr')
         (Binary64.Track.elements tr ++ map Binary64.ENote notes)
    /\ (notes <> [] -> StronglySorted OnFloats.start_le (Binary64.Track.elements tr')).
Proof.
  intros Hall Hnotes. revert tr Hall.
  induction Hnotes as [|n rest Hn Hnotes IH]; intros tr Hall; simpl.
  - exists tr. split; [reflexivity|]. split; [now rewrite app_nil_r | congruence].
  - assert (Hhead : Forall (fun x => OnFloats.has_number x = true)
                      (Binary64.Track.elements tr ++ [Binary64.ENote n])).
    { apply Forall_app. split; [exact Hall|]. constructor; [|constructor].
      unfold OnFloats.has_number. simpl. now rewrite Hn. }
    destruct (float_add_element_sorted tr (Binary64.ENote n) Hhead)
      as (Hadd & Hsorted & Hperm).
    rewrite Hadd.
    destruct (IH (Binary64.Track.with_elements tr
                    (sorted_by OnFloats.start_ltb
                       (Binary64.Track.elements tr ++ [Binary64.ENote n]))))
      as (tr' & Hrest & Hperm' & Hsorted').
    { cbn [Binary64.Track.with_elements Binary64.Track.elements].
      eapply Permutation_Forall; [symmetry; exact Hperm | exact Hhead]. }
    exists tr'. split; [exact Hrest|]. split.
    + rewrite Hperm'. cbn [Binary64.Track.with_elements Binary64.Track.elements].
      rewrite Hperm, <- app_assoc. reflexivity.
    + intros _. destruct rest as [|m rest]; [|apply Hsorted'; discriminate].
      simpl in Hrest. injection Hrest as <-. exact Hsorted.
Qed.

Lemma add_notes_inserts_all_witness :
  let tr := Binary64.Track.mk "Lead" 0 0
              [Binary64.ENote (Binary64.Note.mk 60 (Float64.of_decimal false 1 0)
                                 (Float64.of_decimal false 1 0) 100)] 64 100 in
  let notes := [Binary64.Note.mk 72 (Float64.of_decimal false 5 1)
                  (Float64.of_decimal false 1 0) 90;
                Binary64.Note.mk 48 Float64.zero (Float64.of_decimal false 4 0) 90] in
  exists tr',
    Binary64.Track.add_notes tr notes = (tr', Ok tt)
    /\ Permutation (Binary64.Track.elements tr')
         (Binary64.Track.elements tr ++ map Binary64.ENote notes)
    /\ (notes <> [] -> StronglySorted OnFloats.start_le (Binary64.Track.elements tr')).
Proof.
  intros tr notes. apply (add_notes_inserts_all tr notes); repeat constructor.
Defined.

(* ===================================================================== *)
(** ** midi_exporter.py on floats: what a track chunk holds               *)
(* ===================================================================== *)

Lemma float_collect_events_same_channel (self : MidiExporter.t) (tr : Binary64.Track.t)
    (els' els : list Binary64.element) (evs : list MidiExporter.event)
    (out : list string) :
  Binary64.MidiExporter.collect_events self (Binary64.Track.with_elements tr els') els
    evs out
  = Binary64.MidiExporter.collect_events self tr els evs out.
Proof. now rewrite !float_collect_events_spec. Qed.

(** Taking the rests out of a list: the notes and chords give the same
    events; what is lost is the computation of the rests' start ticks. *)
Lemma for_list_without_rests (tpb channel : Z) (els : list Binary64.element) :
  match for_list (OnFloats.element_events tpb channel) els with
  | Ok per_element =>
      exists kept,
        for_list (OnFloats.element_events tpb channel)
          (List.filter (fun x => negb (OnFloats.is_rest x)) els) = Ok kept
        /\ concat kept = concat per_element
  | Raise e =>
      Forall (fun x => OnFloats.is_rest x = true -> OnFloats.start_tick_ok tpb x) els ->
      for_list (OnFloats.element_events tpb channel)
        (List.filter (fun x => negb (OnFloats.is_rest x)) els) = Raise e
  end.
Proof.
  induction els as [|x els IH]; [exists []; split; reflexivity|].
  cbn [for_list List.filter]. unfold mbind, result_bind, rbind.
  destruct x as [n | c | r]; cbn [OnFloats.is_rest negb for_list];
    unfold mbind, result_bind, rbind.
  - destruct (OnFloats.element_events tpb channel (Binary64.ENote n)) as [evs|e];
      [|intros _; reflexivity].
    destruct (for_list _ els) as [per_element|e].
    + destruct IH as (kept & -> & Hconcat). exists (evs :: kept).
      split; [reflexivity|]. simpl. now rewrite Hconcat.
    + intros Hall. apply Forall_inv_tail in Hall. now rewrite (IH Hall).
  - destruct (OnFloats.element_events tpb channel (Binary64.EChord c)) as [evs|e];
      [|intros _; reflexivity].
    destruct (for_list _ els) as [per_element|e].
    + destruct IH as (kept & -> & Hconcat). exists (evs :: kept).
      split; [reflexivity|]. simpl. now rewrite Hconcat.
    + intros Hall. apply Forall_inv_tail in Hall. now rewrite (IH Hall).
  - cbn [OnFloats.element_events]. unfold mbind, result_bind, rbind.
    destruct (Binary64.MidiExporter.tick tpb (Binary64.Rest.start_time r)) as [k|e] eqn:Hk.
    + destruct (for_list _ els) as [per_element|e].
      * destruct IH as (kept & Hkept & Hconcat). exists kept.
        split; [exact Hkept | exact Hconcat].
      * intros Hall. apply Forall_inv_tail in Hall. now apply IH.
    + intros Hall. apply Forall_inv in Hall.
      destruct (Hall eq_refl) as (k & Hok). simpl in Hok. congruence.
Qed.

(** X8. Rests produce no MIDI message: when [export] builds the chunk of
    a track, it is the chunk of the same track with every [Rest] taken
    out. The start tick of a rest is computed all the same (line 56), so
    a rest whose start time has no tick, such as plus infinity, makes the
    loop raise where the track without it would be exported; with rests
    whose start ticks can be computed the two tracks behave alike,
    failure included. *)
Theorem rests_are_not_exported (self : MidiExporter.t) (tr : Binary64.Track.t)
    (out : list string) :
  (forall msgs out',
      Binary64.MidiExporter.export_track self tr out = (Ok msgs, out') ->
      Binary64.MidiExporter.export_track self (OnFloats.without_rests tr) out
      = (Ok msgs, out'))
  /\ (Forall (fun x => OnFloats.is_rest x = true ->
                       OnFloats.start_tick_ok (MidiExporter.ticks_per_beat self) x)
        (Binary64.Track.elements tr) ->
      Binary64.MidiExporter.export_track self (OnFloats.without_rests tr) out
      = Binary64.MidiExporter.export_track self tr out)
  /\ (forall r rest e,
        Binary64.Track.elements tr = Binary64.ERest r :: rest ->
        Binary64.MidiExporter.tick (MidiExporter.ticks_per_beat self)
          (Binary64.Rest.start_time r) = Raise e ->
        Binary64.MidiExporter.export_track self tr out = (Raise e, out)).
Proof.
  unfold Binary64.MidiExporter.export_track, Binary64.MidiExporter.schedule,
    OnFloats.without_rests.
  unfold mbind, mret, io_bind, io_ret, Py.bind, Py.ret.
  cbn [Binary64.Track.with_elements Binary64.Track.elements Binary64.Track.name
       Binary64.Track.channel Binary64.Track.instrument_program Binary64.Track.pan
       Binary64.Track.volume].
  rewrite float_collect_events_same_channel, !float_collect_events_spec.
  pose proof (for_list_without_rests (MidiExporter.ticks_per_beat self)
                (Binary64.Track.channel tr) (Binary64.Track.elements tr)) as Hrests.
  split; [|split].
  - intros msgs out'.
    destruct (for_list _ (Binary64.Track.elements tr)) as [per_element|e];
      [|discriminate].
    destruct Hrests as (kept & -> & ->). trivial.
  - intros Hall.
    destruct (for_list _ (Binary64.Track.elements tr)) as [per_element|e].
    + destruct Hrests as (kept & -> & ->). reflexivity.
    + now rewrite (Hrests Hall).
  - intros r rest e -> Hraise. cbn [for_list OnFloats.element_events].
    unfold mbind, result_bind, rbind. now rewrite Hraise.
Qed.

Lemma rests_are_not_exported_witness :
  let tr := Binary64.Track.mk "Lead" 0 0
              [Binary64.ERest (Binary64.Rest.mk (S754_infinity false)
                                 (Float64.of_decimal false 1 0))] 64 100 in
  Binary64.Rest.init (S754_infinity false) (Float64.of_decimal false 1 0)
  = Ok (Binary64.Rest.mk (S754_infinity false) (Float64.of_decimal false 1 0))
  /\ Binary64.MidiExporter.export_track (MidiExporter.mk 480) tr []
     = (Raise OverflowError, [])
  /\ Binary64.MidiExporter.export_track (MidiExporter.mk 480) (OnFloats.without_rests tr) []
     = (Ok [Mido.track_name "Lead" 0; Mido.program_change 0 0 0;
            Mido.control_change 10 64 0 0; Mido.control_change 7 100 0 0;
            Mido.end_of_track 1], []).
Proof.
  intros tr. split; [reflexivity|]. split; [|reflexivity].
  apply (proj2 (proj2 (rests_are_not_exported (MidiExporter.mk 480) tr []))
           (Binary64.Rest.mk (S754_infinity false) (Float64.of_decimal false 1 0)) []
           OverflowError);
    reflexivity.
Defined.

(** X12. The stream of a track that holds one note whose two ticks can be
    computed: NoteOn then NoteOff when the NoteOn tick is the smaller
    one; otherwise, and this is the case of a note so short that both
    ticks are the same, its NoteOff stands in front of its own NoteOn. *)
Theorem single_note_stream (self : MidiExporter.t) (tr : Binary64.Track.t)
    (n : Binary64.Note.t) (on_tick off_tick : Z) (out : list string) :
  Binary64.Track.elements tr = [Binary64.ENote n] ->
  Binary64.MidiExporter.tick (MidiExporter.ticks_per_beat self)
    (Binary64.Note.start_time n) = Ok on_tick ->
  Binary64.MidiExporter.tick (MidiExporter.ticks_per_beat self)
    (Float64.add (Binary64.Note.start_time n) (Binary64.Note.duration n)) = Ok off_tick ->
  let on := (on_tick, Mido.note_on (Binary64.Note.pitch n) (Binary64.Note.velocity n)
                        (Binary64.Track.channel tr) 0) in
  let off := (off_tick, Mido.note_off (Binary64.Note.pitch n) 0
                          (Binary64.Track.channel tr) 0) in
  (on_tick < off_tick ->
   Binary64.MidiExporter.schedule self tr out = (Ok [on; off], out))
  /\ (off_tick <= on_tick ->
      Binary64.MidiExporter.schedule self tr out = (Ok [off; on], out)).
Proof.
  intros Hels Hon Hoff. cbv zeta.
  unfold Binary64.MidiExporter.schedule, mbind, mret, io_bind, io_ret, Py.bind, Py.ret.
  rewrite float_collect_events_spec, Hels.
  cbn [for_list OnFloats.element_events]. unfold OnFloats.sounding.
  unfold mbind, result_bind, rbind. rewrite Hon, Hoff.
  cbn [flat_map concat app OnFloats.note_events].
  unfold sorted_by, MidiExporter.event_lt, lt_pair, MidiExporter.sort_key. simpl.
  split; intros Hcmp.
  - destruct (Z.ltb_spec off_tick on_tick); [lia|].
    destruct (Z.eqb_spec off_tick on_tick); [lia|]. reflexivity.
  - destruct (Z.ltb_spec off_tick on_tick); [reflexivity|].
    destruct (Z.eqb_spec off_tick on_tick); [reflexivity | lia].
Qed.

Lemma single_note_stream_witness :
  let n := Binary64.Note.mk 60 (Float64.of_decimal false 7 1)
             (Float64.of_decimal false 1 1) 100 in
  let tr := Binary64.Track.mk "Lead" 0 0 [Binary64.ENote n] 64 100 in
  Binary64.MidiExporter.schedule (MidiExporter.mk 10) tr []
  = (Ok [(7, Mido.note_off 60 0 0 0); (7, Mido.note_on 60 100 0 0)], []).
Proof.
  intros n tr.
  apply (proj2 (single_note_stream (MidiExporter.mk 10) tr n 7 7 [] eq_refl
                  eq_refl eq_refl)).
  lia.
Defined.

(* ===================================================================== *)
(** ** midi_exporter.py on floats: the bytes of a track chunk             *)
(* ===================================================================== *)

Lemma to_delta_valid (last : Z) (evs : list MidiExporter.event) :
  Forall (fun ev : MidiExporter.event => forall t, 0 <= t ->
            valid_message (Mido.set_time ev.2 t)) evs ->
  Forall (fun m => 0 <= Mido.time m) (MidiExporter.to_delta last evs) ->
  Forall valid_message (MidiExporter.to_delta last evs).
Proof.
  revert last. induction evs as [|[t m] evs IH]; intros last Hfields Htimes; simpl in *.
  - constructor.
  - inversion Hfields as [|? ? Hm Hrest]; subst.
    inversion Htimes as [|? ? Ht Htimes']; subst.
    rewrite time_set_time in Ht. constructor; [now apply Hm | now apply IH].
Qed.

Lemma float_track_init_ok (name : string) (instrument_program channel pan volume : Z)
    (tr : Binary64.Track.t) :
  Binary64.Track.init name instrument_program channel pan volume = Ok tr ->
  tr = Binary64.Track.mk name instrument_program channel [] pan volume
  /\ OnFloats.track_ok tr.
Proof.
  unfold Binary64.Track.init, OnFloats.track_ok.
  destruct ((0 <=? instrument_program) && (instrument_program <=? 127)) eqn:Hp;
    simpl; [|discriminate].
  destruct ((0 <=? channel) && (channel <=? 15)) eqn:Hc; simpl; [|discriminate].
  destruct ((0 <=? pan) && (pan <=? 127)) eqn:Hpan; simpl; [|discriminate].
  destruct ((0 <=? volume) && (volume <=? 127)) eqn:Hv; simpl; [|discriminate].
  intros [= <-]. split; [reflexivity|]. simpl.
  apply andb_true_iff in Hp as [? ?], Hc as [? ?], Hpan as [? ?], Hv as [? ?].
  repeat split; lia.
Qed.

(** What passes the guard [duration <= 0] is NaN or positive. *)
Lemma not_at_most_zero (x : Float64.t) :
  Float64.leb x Float64.zero = false -> OnFloats.nan_or_nonneg x.
Proof. destruct x as [s | s | | s m e]; try destruct s; simpl; auto; discriminate. Qed.

Lemma not_below_zero_sign (x : Float64.t) :
  Float64.ltb x Float64.zero = false -> OnFloats.nan_or_nonneg x.
Proof. destruct x as [s | s | | s m e]; try destruct s; simpl; auto; discriminate. Qed.

(** The events of notes that sound from a start time and for a duration
    that passed the guards: ticks that are not negative, bytes in range. *)
Lemma sounding_valid (tpb channel : Z) (start duration : Float64.t)
    (notes : list Binary64.Note.t) (events : list MidiExporter.event) :
  0 <= tpb -> 0 <= channel <= 15 ->
  Float64.ltb start Float64.zero = false ->
  Float64.leb duration Float64.zero = false ->
  Forall OnFloats.note_ok notes ->
  OnFloats.sounding tpb channel start duration notes = Ok events ->
  Forall (fun ev : MidiExporter.event =>
            0 <= ev.1 /\ forall t, 0 <= t -> valid_message (Mido.set_time ev.2 t)) events.
Proof.
  intros Htpb Hch Hstart Hdur Hnotes. unfold OnFloats.sounding, mbind, result_bind, rbind.
  destruct (Binary64.MidiExporter.tick tpb start) as [a|] eqn:Ha; [|discriminate].
  destruct (Binary64.MidiExporter.tick tpb (Float64.add start duration)) as [b|] eqn:Hb;
    [|discriminate].
  intros [= <-].
  apply float_tick_floor in Ha as (_ & _ & Ha & _);
    [|exact Htpb | now apply not_below_zero_sign].
  apply float_tick_floor in Hb as (_ & _ & Hb & _);
    [|exact Htpb
     |apply add_nonneg; [now apply not_below_zero_sign | now apply not_at_most_zero]].
  apply List.Forall_forall. intros ev Hev.
  apply in_flat_map in Hev as (n & Hn & Hev).
  rewrite List.Forall_forall in Hnotes. destruct (Hnotes n Hn) as (Hp & Hv & _ & _).
  simpl in Hev. destruct Hev as [<- | [<- | []]]; cbn [fst snd Mido.set_time].
  - split; [exact Ha|]. intros t Ht. unfold valid_message. simpl. lia.
  - split; [exact Hb|]. intros t Ht. unfold valid_message. simpl. lia.
Qed.

Lemma float_element_events_valid (tpb channel : Z) (x : Binary64.element)
    (events : list MidiExporter.event) :
  0 <= tpb -> 0 <= channel <= 15 -> OnFloats.placed x ->
  OnFloats.element_events tpb channel x = Ok events ->
  Forall (fun ev : MidiExporter.event =>
            0 <= ev.1 /\ forall t, 0 <= t -> valid_message (Mido.set_time ev.2 t)) events.
Proof.
  intros Htpb Hch Hx. destruct x as [n | c | r]; cbn [OnFloats.element_events].
  - pose proof Hx as (Hp & Hv & Hd & Hs).
    apply sounding_valid; try assumption.
    constructor; [exact Hx | constructor].
  - destruct Hx as [Hne Hall].
    unfold Binary64.Chord.start_time, Binary64.Chord.duration.
    destruct (Binary64.Chord.notes c) as [|n0 ns] eqn:Hnotes; [contradiction|].
    pose proof (Forall_inv Hall) as (_ & _ & Hd & Hs).
    now apply sounding_valid.
  - unfold mbind, result_bind, rbind.
    destruct (Binary64.MidiExporter.tick tpb (Binary64.Rest.start_time r));
      [|discriminate].
    intros [= <-]. constructor.
Qed.

Lemma for_list_events_valid (tpb channel : Z) (els : list Binary64.element)
    (per_element : list (list MidiExporter.event)) :
  0 <= tpb -> 0 <= channel <= 15 -> Forall OnFloats.placed els ->
  for_list (OnFloats.element_events tpb channel) els = Ok per_element ->
  Forall (fun ev : MidiExporter.event =>
            0 <= ev.1 /\ forall t, 0 <= t -> valid_message (Mido.set_time ev.2 t))
    (concat per_element).
Proof.
  intros Htpb Hch Hall. revert per_element.
  induction Hall as [|x els Hx Hall IH]; intros per_element; cbn [for_list].
  - intros [= <-]. constructor.
  - unfold mbind, result_bind, rbind.
    destruct (OnFloats.element_events tpb channel x) as [events|] eqn:Hev; [|discriminate].
    destruct (for_list _ els) as [rest|]; [|discriminate].
    intros [= <-]. cbn [concat]. apply Forall_app. split.
    + now apply (float_element_events_valid tpb channel x).
    + now apply IH.
Qed.

Lemma tick_raises (tpb : Z) (x : Float64.t) (e : exn) :
  Binary64.MidiExporter.tick tpb x = Raise e -> OnFloats.tick_error e.
Proof.
  unfold Binary64.MidiExporter.tick, Float64.of_int, mbind, result_bind, rbind, OnFloats.tick_error.
  destruct (binary_normalize Float64.prec Float64.emax tpb 0 false) as [s | s | | s m k];
    try (intros [= <-]; now left);
    match goal with |- Float64.to_int ?p = _ -> _ => destruct p end;
    simpl; intros [= <-]; auto.
Qed.

Lemma sounding_raises (tpb channel : Z) (start duration : Float64.t)
    (notes : list Binary64.Note.t) (e : exn) :
  OnFloats.sounding tpb channel start duration notes = Raise e -> OnFloats.tick_error e.
Proof.
  unfold OnFloats.sounding, mbind, result_bind, rbind.
  destruct (Binary64.MidiExporter.tick tpb start) as [a|e1] eqn:Ha.
  - destruct (Binary64.MidiExporter.tick tpb (Float64.add start duration)) as [b|e2] eqn:Hb;
      [discriminate|].
    intros [= <-]. exact (tick_raises _ _ _ Hb).
  - intros [= <-]. exact (tick_raises _ _ _ Ha).
Qed.

Lemma float_element_events_raises (tpb channel : Z) (x : Binary64.element) (e : exn) :
  OnFloats.placed x ->
  OnFloats.element_events tpb channel x = Raise e -> OnFloats.tick_error e.
Proof.
  intros Hx. destruct x as [n | c | r]; cbn [OnFloats.element_events].
  - apply sounding_raises.
  - destruct Hx as [Hne _].
    unfold Binary64.Chord.start_time, Binary64.Chord.duration.
    destruct (Binary64.Chord.notes c) as [|n0 ns] eqn:Hnotes; [contradiction|].
    apply sounding_raises.
  - unfold mbind, result_bind, rbind.
    destruct (Binary64.MidiExporter.tick tpb (Binary64.Rest.start_time r)) as [k|e1] eqn:Hk;
      [discriminate|].
    intros [= <-]. exact (tick_raises _ _ _ Hk).
Qed.

Lemma for_list_events_raise (tpb channel : Z) (els : list Binary64.element) (e : exn) :
  Forall OnFloats.placed els ->
  for_list (OnFloats.element_events tpb channel) els = Raise e -> OnFloats.tick_error e.
Proof.
  intros Hall. induction Hall as [|x els Hx Hall IH]; cbn [for_list]; [discriminate|].
  unfold mbind, result_bind, rbind.
  destruct (OnFloats.element_events tpb channel x) as [events|e1] eqn:Hev.
  - destruct (for_list _ els) as [rest|e2]; [discriminate|].
    intros [= <-]. now apply IH.
  - intros [= <-]. exact (float_element_events_raises _ _ _ _ Hx Hev).
Qed.

(** X26. What the exporter does with objects the constructors accepted:
    for a track made by [Track.__init__] whose elements are notes, rests
    and non-empty chords as their constructors leave them, and a
    [ticks_per_beat] that is not negative, building the chunk prints
    nothing and ends in one of two ways. Either the chunk is built, and
    each of its messages has its data bytes (program, controller value,
    pitch, velocity) between 0 and 127, its channel between 0 and 15 and
    a delta time that is not negative; or computing a tick raised: the
    constructors also accept NaN and infinite times, and a product can
    overflow. Nothing else is raised. *)
Theorem exported_chunk_is_well_formed (self : MidiExporter.t) (name : string)
    (instrument_program channel pan volume : Z) (tr : Binary64.Track.t)
    (els : list Binary64.element) (out : list string) :
  0 <= MidiExporter.ticks_per_beat self ->
  Binary64.Track.init name instrument_program channel pan volume = Ok tr ->
  Forall OnFloats.placed els ->
  exists result,
    Binary64.MidiExporter.export_track self (Binary64.Track.with_elements tr els) out
    = (result, out)
    /\ match result with
       | Ok msgs => Forall valid_message msgs
       | Raise e => OnFloats.tick_error e
       end.
Proof.
  intros Htpb Hinit Hall.
  apply float_track_init_ok in Hinit as [-> (Hp & Hc & Hpan & Hv)].
  simpl in Hp, Hc, Hpan, Hv.
  unfold Binary64.MidiExporter.export_track, Binary64.MidiExporter.schedule.
  unfold mbind, mret, io_bind, io_ret, Py.bind, Py.ret.
  rewrite float_collect_events_spec.
  cbn [Binary64.Track.with_elements Binary64.Track.elements Binary64.Track.name
       Binary64.Track.channel Binary64.Track.instrument_program Binary64.Track.pan
       Binary64.Track.volume].
  destruct (for_list _ els) as [per_element|e] eqn:Hloop.
  2:{ eexists. split; [reflexivity|]. exact (for_list_events_raise _ _ _ _ Hall Hloop). }
  eexists. split; [reflexivity|].
  pose proof (for_list_events_valid _ _ _ _ Htpb Hc Hall Hloop) as Hvalid.
  cbn [app] in *.
  set (events := sorted_by MidiExporter.event_lt (concat per_element)).
  assert (Hsorted_valid : Forall (fun ev : MidiExporter.event =>
             0 <= ev.1 /\ forall t, 0 <= t -> valid_message (Mido.set_time ev.2 t))
             events).
  { eapply Permutation_Forall; [symmetry; apply sorted_by_perm | exact Hvalid]. }
  repeat (constructor; [repeat split; simpl; lia|]).
  apply Forall_app. split.
  - apply to_delta_valid.
    + eapply List.Forall_impl; [|exact Hsorted_valid]. intros ev [_ H]. exact H.
    + apply to_delta_nonneg.
      * eapply List.Forall_impl; [|exact Hsorted_valid]. intros ev [H _]. exact H.
      * eapply (StronglySorted_on event_precedes _ (fun _ => True)).
        -- intros x y _ _ [Hlt | [Heq _]]; lia.
        -- apply List.Forall_forall. trivial.
        -- apply sorted_events_precede.
  - constructor; [|constructor]. destruct events; split; simpl; trivial; lia.
Qed.

Lemma exported_chunk_is_well_formed_witness :
  let els := [Binary64.ENote (Binary64.Note.mk 60 (Float64.of_decimal false 7 1)
                                (Float64.of_decimal false 1 1) 100);
              Binary64.ERest (Binary64.Rest.mk (Float64.of_decimal false 1 0)
                                (Float64.of_decimal false 1 0))] in
  let msgs := [Mido.track_name "Lead" 0; Mido.program_change 0 0 0;
               Mido.control_change 10 64 0 0; Mido.control_change 7 100 0 0;
               Mido.note_on 60 100 0 336; Mido.note_off 60 0 0 47;
               Mido.end_of_track 0] in
  Binary64.MidiExporter.export_track (MidiExporter.mk 480)
    (Binary64.Track.with_elements (Binary64.Track.mk "Lead" 0 0 [] 64 100) els) []
  = (Ok msgs, [])
  /\ Forall valid_message msgs.
Proof.
  intros els msgs.
  assert (Htpb : 0 <= MidiExporter.ticks_per_beat (MidiExporter.mk 480))
    by (simpl; lia).
  assert (Hall : Forall OnFloats.placed els) by (repeat constructor; discriminate).
  destruct (exported_chunk_is_well_formed (MidiExporter.mk 480) "Lead" 0 0 64 100
              (Binary64.Track.mk "Lead" 0 0 [] 64 100) els [] Htpb eq_refl Hall)
    as (result & Hrun & Hvalid).
  assert (Hchunk : Binary64.MidiExporter.export_track (MidiExporter.mk 480)
                     (Binary64.Track.with_elements
                        (Binary64.Track.mk "Lead" 0 0 [] 64 100) els) []
                   = (Ok msgs, [])) by (vm_compute; reflexivity).
  rewrite Hchunk in Hrun. injection Hrun as <-.
  split; [exact Hchunk | exact Hvalid].
Defined.

